(** * Kanban board: the passcode / session authentication core

    A shallow embedding of [src/lib/auth.ts], the passcode administration and
    login route handlers and [src/middleware.ts], together with the properties
    of the authentication subsystem.  Further on come the callers of the
    request authorizer among the board routes (epics, comments), the
    bearer-token check [verifyApiToken], the task list of the [useTasks]
    hook and the passcode entry of the login page and the admin panel.

    Conventions.
    - A JavaScript string is the list of its UTF-16 code units ([jsstring]);
      [units] turns a literal into that form.
    - JavaScript numbers that the code keeps inside the 32-bit range are
      integers of [Z]; the 32-bit wrap-around of [<<] and [&] is written out
      with [ToInt32].
    - The two tables [passcodes] and [sessions] are lists of rows in
      insertion order, with the constraints of the SQL schema (primary keys,
      the unique session token, the cascading foreign key) checked by the
      store operations.  The [id] columns are uuids: a row carries its id
      as the store prints it, and an id that comes with a request is a text
      that the store reads as a uuid, or refuses.
    - [async] functions are computations of the monad [M]: they read and
      write a [World] (the tables, the request's cookie jar and the schedule
      of store faults) and either return a value or throw. *)

From Equations Require Import Equations.
From Stdlib Require Import String Ascii ZArith List Bool Lia.
From Stdlib Require Import Permutation Sorting.Mergesort Orders.
From Stdlib Require Import Uint63.
Import ListNotations.

Open Scope Z_scope.

(* ================================================================= *)
(** ** JavaScript strings and numbers *)

Definition jsstring := list Z.

Definition units (s : string) : jsstring :=
  map (fun a => Z.of_N (N_of_ascii a)) (list_ascii_of_string s).

Definition jsstring_eq_dec : forall a b : jsstring, {a = b} + {a <> b} :=
  list_eq_dec Z.eq_dec.

Definition str_eqb (a b : jsstring) : bool :=
  if jsstring_eq_dec a b then true else false.

(** [ToInt32]: the value modulo 2^32, read as a signed 32-bit integer. *)
Definition ToInt32 (x : Z) : Z :=
  let m := Z.land x 4294967295 in
  if m <? 2147483648 then m else m - 4294967296.

(** [a << n] and [a & b] on numbers. *)
Definition int32_shl (a n : Z) : Z := ToInt32 (Z.shiftl (ToInt32 a) n).
Definition int32_and (a b : Z) : Z := ToInt32 (Z.land (ToInt32 a) (ToInt32 b)).

(** The digits of a non-negative integer in a radix, most significant first:
    what [Number.prototype.toString(radix)] prints for an integer.  (The
    code uses the radices 10 and 16; below 2 the recursion is cut.) *)
Equations? to_radix (radix n : Z) : list Z by wf (Z.to_nat (Z.log2 n)) lt :=
  to_radix radix n with Z_lt_dec n radix, Z_lt_dec radix 2 := {
    | left _, _ => [n]
    | right _, left _ => [n]
    | right Hn, right Hr => to_radix radix (n / radix) ++ [n mod radix] }.
Proof.
  assert (Hhalf : n / radix <= n / 2)
    by (apply Z.div_le_compat_l; lia).
  assert (Hlog : Z.log2 (n / 2) = Z.log2 n - 1).
  { rewrite <- Z.div2_div, Z.div2_spec, Z.log2_shiftr by lia.
    assert (0 < Z.log2 n) by (apply Z.log2_pos; lia). lia. }
  pose proof (Z.log2_le_mono _ _ Hhalf).
  pose proof (Z.log2_nonneg (n / radix)).
  lia.
Qed.

(** Code unit of a digit: '0'..'9' then 'a'..'z'. *)
Definition digit_char (d : Z) : Z := if d <? 10 then 48 + d else 87 + d.

(** [n.toString(radix)] for an integer [n]. *)
Definition Number_toString (radix n : Z) : jsstring :=
  if n <? 0 then 45 :: map digit_char (to_radix radix (- n))
  else map digit_char (to_radix radix n).

(** [s.padStart(len, '0')]. *)
Definition padStart (len : nat) (fill : Z) (s : jsstring) : jsstring :=
  repeat fill (len - length s) ++ s.

(* ================================================================= *)
(** ** The passcode hasher ([hashCode]) *)

(** One turn of either loop:
    [hash = ((hash << 5) - hash) + char; hash = hash & hash]. *)
Definition hash_step (hash char : Z) : Z :=
  let hash := (int32_shl hash 5 - hash) + char in
  int32_and hash hash.

Definition hash_loop (s : jsstring) : Z := fold_left hash_step s 0.

(** [`kanban_${hash}_${code.split('').reverse().join('')}`] *)
Definition salted (code : jsstring) : jsstring :=
  units "kanban_" ++ Number_toString 10 (hash_loop code) ++ units "_" ++ rev code.

Definition finalHash (code : jsstring) : Z := hash_loop (salted code).

Definition hashCode (code : jsstring) : jsstring :=
  padStart 8 48 (Number_toString 16 (Z.abs (finalHash code))).

Definition is_hex_char (c : Z) : Prop := 48 <= c <= 57 \/ 97 <= c <= 102.

(** The test [/^\d+$/]: one or more ASCII digits and nothing else. *)
Definition is_digit (c : Z) : bool := (48 <=? c) && (c <=? 57).
Definition regex_digits (s : jsstring) : bool :=
  negb (Nat.eqb (List.length s) 0) && forallb is_digit s.

(** The format test shared by [createPasscode] and the first-run branch of
    the login route: [code.length !== 6 || !/^\d+$/.test(code)] is false. *)
Definition six_digits (code : jsstring) : bool :=
  Nat.eqb (List.length code) 6 && regex_digits code.

(* ================================================================= *)
(** ** The persistent store: tables [passcodes] and [sessions] *)

Record Passcode := mkPasscode {
  pc_id : jsstring;
  pc_code : jsstring;
  pc_name : jsstring;
  pc_isAdmin : bool;
  pc_createdAt : Z;
  pc_lastUsedAt : option Z }.

Record Session := mkSession {
  ss_id : jsstring;
  ss_passcodeId : jsstring;
  ss_token : jsstring;
  ss_expiresAt : Z;
  ss_createdAt : Z }.

Record Db := mkDb { passcodes : list Passcode; sessions : list Session }.

Definition empty_db : Db := mkDb [] [].

(** What a store call or [request.json()] can throw. *)
Inductive Exn :=
| StoreFault
| ConstraintViolation (constraint : string)
| InvalidTextRepresentation (type : string)
| BadJson.

Inductive Outcome (A : Type) :=
| Returned (a : A)
| Thrown (e : Exn).
Arguments Returned {A} a.
Arguments Thrown {A} e.

(** The world of one request: the tables, the outcome of the successive
    store calls this request will make ([true]: that call fails) and the
    request's [kanban_session] cookie. *)
Record World := mkWorld { db : Db; faults : list bool; jar : option jsstring }.

Definition M (A : Type) : Type := World -> Outcome A * World.

Definition ret {A} (a : A) : M A := fun w => (Returned a, w).

Definition throw {A} (e : Exn) : M A := fun w => (Thrown e, w).

Definition bind {A B} (m : M A) (k : A -> M B) : M B := fun w =>
  match m w with
  | (Returned a, w') => k a w'
  | (Thrown e, w') => (Thrown e, w')
  end.

(** [try { m } catch (error) { h error }] *)
Definition try_catch {A} (m : M A) (h : Exn -> M A) : M A := fun w =>
  match m w with
  | (Returned a, w') => (Returned a, w')
  | (Thrown e, w') => h e w'
  end.

Notation "x <- m ;; k" := (bind m (fun x => k))
  (at level 61, m at next level, right associativity).
Notation "m ;; k" := (bind m (fun _ => k))
  (at level 61, right associativity).

(** One call to the store: it fails when the schedule says so, and
    otherwise runs [op] on the tables. *)
Definition store_call {A} (op : Db -> Outcome A * Db) : M A := fun w =>
  match faults w with
  | true :: rest => (Thrown StoreFault, mkWorld (db w) rest (jar w))
  | _ => let (r, d) := op (db w) in (r, mkWorld d (tl (faults w)) (jar w))
  end.

(** The [id] columns have the type [uuid].  A text handed to the store
    where a uuid is expected is read as one: 32 hexadecimal digits, in
    either case, with an optional hyphen after each group of four digits,
    the whole optionally in braces; the store refuses any other text.  It
    prints a uuid in lower case, in groups of 8-4-4-4-12 digits, and
    compares uuids by value.  The rows of the tables carry their ids as the
    store prints them, and an id is represented by that text. *)
Definition xdigit_value (c : Z) : option Z :=
  if (48 <=? c) && (c <=? 57) then Some (c - 48)
  else if (97 <=? c) && (c <=? 102) then Some (c - 87)
  else if (65 <=? c) && (c <=? 70) then Some (c - 55)
  else None.

(** The digits of the [n] bytes still to read, the next byte having the
    index [i], and what follows them: two digits a byte, a hyphen being
    skipped after a byte of odd index that is not the last. *)
Fixpoint uuid_digits (n : nat) (i : Z) (src : jsstring) : option (list Z * jsstring) :=
  match n with
  | O => Some ([], src)
  | S n' =>
      match src with
      | c1 :: c2 :: rest =>
          match xdigit_value c1, xdigit_value c2 with
          | Some d1, Some d2 =>
              let rest' :=
                match rest with
                | c :: after =>
                    if (c =? 45) && (i mod 2 =? 1) && (i <? 15) then after else rest
                | [] => rest
                end in
              match uuid_digits n' (i + 1) rest' with
              | Some (digits, tail) => Some (d1 :: d2 :: digits, tail)
              | None => None
              end
          | _, _ => None
          end
      | _ => None
      end
  end.

Definition uuid_out (digits : list Z) : jsstring :=
  let cs := map digit_char digits in
  firstn 8 cs ++ 45 :: firstn 4 (skipn 8 cs) ++ 45 :: firstn 4 (skipn 12 cs)
  ++ 45 :: firstn 4 (skipn 16 cs) ++ 45 :: skipn 20 cs.

(** The id a text stands for, or [None] when the store refuses the text. *)
Definition uuid_in (text : jsstring) : option jsstring :=
  let braces := match text with
                | c :: _ => c =? 123
                | [] => false
                end in
  match uuid_digits 16 0 (if braces then tl text else text) with
  | Some (digits, tail) =>
      if str_eqb tail (if braces then [125] else []) then Some (uuid_out digits) else None
  | None => None
  end.

(** [db.select().from(passcodes).where(p)] *)
Definition select_passcodes (p : Passcode -> bool) : M (list Passcode) :=
  store_call (fun d => (Returned (filter p (passcodes d)), d)).

(** [db.select(..).from(passcodes).limit(n)] *)
Definition select_passcodes_limit (n : nat) : M (list Passcode) :=
  store_call (fun d => (Returned (firstn n (passcodes d)), d)).

(** [db.update(passcodes).set({ lastUsedAt }).where(eq(passcodes.id, id))] *)
Definition set_lastUsedAt (id : jsstring) (t : Z) (p : Passcode) : Passcode :=
  if str_eqb (pc_id p) id
  then mkPasscode (pc_id p) (pc_code p) (pc_name p) (pc_isAdmin p) (pc_createdAt p) (Some t)
  else p.

Definition update_lastUsedAt (id : jsstring) (t : Z) : M unit :=
  store_call (fun d =>
    (Returned tt, mkDb (map (set_lastUsedAt id t) (passcodes d)) (sessions d))).

(** [db.insert(passcodes).values(row)]; the primary key is checked. *)
Definition insert_passcode (row : Passcode) : M unit :=
  store_call (fun d =>
    if existsb (fun p => str_eqb (pc_id p) (pc_id row)) (passcodes d)
    then (Thrown (ConstraintViolation "passcodes_pkey"), d)
    else (Returned tt, mkDb (passcodes d ++ [row]) (sessions d))).

(** [db.insert(sessions).values(row)]; the primary key, the unique token and
    the foreign key to [passcodes] are checked. *)
Definition insert_session (row : Session) : M unit :=
  store_call (fun d =>
    if existsb (fun s => str_eqb (ss_id s) (ss_id row)) (sessions d)
    then (Thrown (ConstraintViolation "sessions_pkey"), d)
    else if existsb (fun s => str_eqb (ss_token s) (ss_token row)) (sessions d)
    then (Thrown (ConstraintViolation "sessions_token_unique"), d)
    else if negb (existsb (fun p => str_eqb (pc_id p) (ss_passcodeId row)) (passcodes d))
    then (Thrown (ConstraintViolation "sessions_passcode_id_passcodes_id_fk"), d)
    else (Returned tt, mkDb (passcodes d) (sessions d ++ [row]))).

(** [db.delete(sessions).where(eq(sessions.token, token))] *)
Definition delete_sessions_by_token (token : jsstring) : M unit :=
  store_call (fun d =>
    (Returned tt,
     mkDb (passcodes d)
          (filter (fun s => negb (str_eqb (ss_token s) token)) (sessions d)))).

(** [db.select().from(passcodes).where(eq(passcodes.id, id))] for a text
    [id] that comes with the request: the store reads it as a uuid. *)
Definition select_passcodes_by_id (id : jsstring) : M (list Passcode) :=
  store_call (fun d =>
    match uuid_in id with
    | None => (Thrown (InvalidTextRepresentation "uuid"), d)
    | Some u => (Returned (filter (fun p => str_eqb (pc_id p) u) (passcodes d)), d)
    end).

(** [db.delete(passcodes).where(eq(passcodes.id, id))], likewise; the
    sessions of a deleted passcode go with it (ON DELETE cascade). *)
Definition owned_by (deleted : list Passcode) (s : Session) : bool :=
  existsb (fun p => str_eqb (pc_id p) (ss_passcodeId s)) deleted.

Definition delete_passcodes_by_id (id : jsstring) : M unit :=
  store_call (fun d =>
    match uuid_in id with
    | None => (Thrown (InvalidTextRepresentation "uuid"), d)
    | Some u =>
        let deleted := filter (fun p => str_eqb (pc_id p) u) (passcodes d) in
        (Returned tt,
         mkDb (filter (fun p => negb (str_eqb (pc_id p) u)) (passcodes d))
              (filter (fun s => negb (owned_by deleted s)) (sessions d)))
    end).

(** [db.select(..).from(sessions).innerJoin(passcodes, eq(sessions.passcodeId,
    passcodes.id)).where(p)] *)
Definition join_sessions (d : Db) : list (Session * Passcode) :=
  flat_map (fun s =>
    map (fun p => (s, p))
        (filter (fun p => str_eqb (ss_passcodeId s) (pc_id p)) (passcodes d)))
    (sessions d).

Definition select_sessions_join (p : Session -> bool) : M (list (Session * Passcode)) :=
  store_call (fun d => (Returned (filter (fun sp => p (fst sp)) (join_sessions d)), d)).

(** The cookie store of the request. *)
Definition cookie_get : M (option jsstring) := fun w => (Returned (jar w), w).

Definition cookie_set (value : jsstring) : M unit := fun w =>
  (Returned tt, mkWorld (db w) (faults w) (Some value)).

Definition cookie_delete : M unit := fun w =>
  (Returned tt, mkWorld (db w) (faults w) None).

(** What the environment supplies to one request: the clock reading, the
    identifiers the store generates for the rows inserted and the values
    [Math.floor(Math.random() * chars.length)] of the successive draws. *)
Record Env := mkEnv {
  now : Z;
  fresh_passcode_id : jsstring;
  fresh_session_id : jsstring;
  random : nat -> nat }.

(* ================================================================= *)
(** ** [src/lib/auth.ts] *)

Definition SESSION_DURATION_MS : Z := 30 * 24 * 60 * 60 * 1000.

(** [{ success, isAdmin?, error? }] *)
Record Result := mkResult {
  success : bool;
  res_isAdmin : option bool;
  error : option string }.

Definition succeeded : Result := mkResult true None None.
Definition failed (msg : string) : Result := mkResult false None (Some msg).

(** [{ authenticated, isAdmin, name? }] *)
Record SessionInfo := mkSessionInfo {
  authenticated : bool;
  isAdmin : bool;
  name : option jsstring }.

(** [!s] for a string that may be undefined. *)
Definition falsy (s : option jsstring) : bool :=
  match s with
  | None => true
  | Some [] => true
  | Some (_ :: _) => false
  end.

Definition token_chars : jsstring :=
  units "abcdefghijklmnopqrstuvwxyzABCDEFGHIJKLMNOPQRSTUVWXYZ0123456789".

Definition generateToken (rnd : nat -> nat) : jsstring :=
  map (fun i => nth (rnd i mod 62)%nat token_chars 0) (seq 0 64).

Definition login (e : Env) (code : jsstring) : M Result :=
  let hashedCode := hashCode code in
  rows <- select_passcodes (fun p => str_eqb (pc_code p) hashedCode) ;;
  match rows with
  | [] => ret (failed "Invalid passcode")
  | passcode :: _ =>
      update_lastUsedAt (pc_id passcode) (now e) ;;
      let token := generateToken (random e) in
      let expiresAt := now e + SESSION_DURATION_MS in
      insert_session
        (mkSession (fresh_session_id e) (pc_id passcode) token expiresAt (now e)) ;;
      cookie_set token ;;
      ret (mkResult true (Some (pc_isAdmin passcode)) None)
  end.

(** The [where] clause of [getSession]. *)
Definition session_matches (token : jsstring) (t : Z) (s : Session) : bool :=
  str_eqb (ss_token s) token && (t <? ss_expiresAt s).

Definition getSession (e : Env) : M (option SessionInfo) :=
  token <- cookie_get ;;
  if falsy token then ret None
  else
    match token with
    | None => ret None
    | Some token =>
        rows <- select_sessions_join (session_matches token (now e)) ;;
        match rows with
        | [] => ret None
        | (session, passcode) :: _ =>
            ret (Some (mkSessionInfo true (pc_isAdmin passcode) (Some (pc_name passcode))))
        end
    end.

Definition logout : M unit :=
  token <- cookie_get ;;
  (if falsy token then ret tt
   else match token with
        | None => ret tt
        | Some token => delete_sessions_by_token token
        end) ;;
  cookie_delete.

Definition hasAnyPasscodes : M bool :=
  result <- select_passcodes_limit 1 ;;
  ret (Nat.ltb 0 (List.length result)).

Definition createPasscode (e : Env) (code name : jsstring) (isAdmin : bool) : M Result :=
  if negb (six_digits code) then ret (failed "Passcode must be exactly 6 digits")
  else
    let hashedCode := hashCode code in
    existing <- select_passcodes (fun p => str_eqb (pc_code p) hashedCode) ;;
    match existing with
    | _ :: _ => ret (failed "This passcode already exists")
    | [] =>
        insert_passcode
          (mkPasscode (fresh_passcode_id e) hashedCode name isAdmin (now e) None) ;;
        ret succeeded
    end.

(** [orderBy(passcodes.createdAt)] *)
Fixpoint insert_by_createdAt (p : Passcode) (l : list Passcode) : list Passcode :=
  match l with
  | [] => [p]
  | q :: l' =>
      if pc_createdAt p <? pc_createdAt q then p :: l
      else q :: insert_by_createdAt p l'
  end.

Definition order_by_createdAt (l : list Passcode) : list Passcode :=
  fold_right insert_by_createdAt [] l.

(** [{ id, name, isAdmin, createdAt, lastUsedAt }] *)
Record PasscodeView := mkPasscodeView {
  pv_id : jsstring;
  pv_name : jsstring;
  pv_isAdmin : bool;
  pv_createdAt : Z;
  pv_lastUsedAt : option Z }.

Definition view (p : Passcode) : PasscodeView :=
  mkPasscodeView (pc_id p) (pc_name p) (pc_isAdmin p) (pc_createdAt p) (pc_lastUsedAt p).

Definition listPasscodes : M (list PasscodeView) :=
  store_call (fun d => (Returned (map view (order_by_createdAt (passcodes d))), d)).

(** [passcodeToDelete?.isAdmin] *)
Definition is_admin_row (row : option Passcode) : bool :=
  match row with
  | Some p => pc_isAdmin p
  | None => false
  end.

Definition deletePasscode (id : jsstring) : M Result :=
  admins <- select_passcodes pc_isAdmin ;;
  rows <- select_passcodes_by_id id ;;
  let passcodeToDelete := hd_error rows in
  if is_admin_row passcodeToDelete && Nat.leb (List.length admins) 1
  then ret (failed "Cannot delete the last admin passcode")
  else
    delete_passcodes_by_id id ;;
    ret succeeded.

(** Responses: a status and a JSON body. *)
Inductive Body :=
| ErrorBody (msg : option string)
| SuccessBody
| LoginBody (admin : option bool) (message : option string)
| PasscodeListBody (rows : list PasscodeView)
| StatusBody (authed : bool) (needsSetup : bool) (info : option SessionInfo).

Record Response := mkResponse { status : Z; body : Body }.

Definition json (b : Body) (st : Z) : Response := mkResponse st b.

(** Process-wide configuration and the parts of a request the code reads. *)
Record Config := mkConfig { API_AUTH_TOKEN : option jsstring }.

Record Request := mkRequest {
  authorization : option jsstring;
  x_api_token : option jsstring;
  cookie : option jsstring }.

(** [{ valid, error? }] *)
Record Validation := mkValidation { valid : bool; v_error : option Response }.

Fixpoint startsWith (s prefix : jsstring) : bool :=
  match prefix, s with
  | [], _ => true
  | p :: prefix', c :: s' => Z.eqb c p && startsWith s' prefix'
  | _ :: _, [] => false
  end.

(** The candidate of the [Authorization] header: [authHeader.slice(7)] when
    the header starts with ['Bearer ']. *)
Definition bearer_candidate (request : Request) : option jsstring :=
  match authorization request with
  | Some authHeader =>
      if startsWith authHeader (units "Bearer ") then Some (skipn 7 authHeader) else None
  | None => None
  end.

Definition opt_str_eqb (a : option jsstring) (b : jsstring) : bool :=
  match a with
  | Some a => str_eqb a b
  | None => false
  end.

Definition validateApiToken (cfg : Config) (request : Request) : Validation :=
  if falsy (API_AUTH_TOKEN cfg) then mkValidation true None
  else
    match API_AUTH_TOKEN cfg with
    | None => mkValidation true None
    | Some apiToken =>
        if opt_str_eqb (bearer_candidate request) apiToken then mkValidation true None
        else if opt_str_eqb (x_api_token request) apiToken then mkValidation true None
        else mkValidation false
               (Some (json (ErrorBody (Some "Unauthorized - Invalid or missing API token"%string)) 401))
    end.

(** [session?.authenticated] *)
Definition is_authenticated (session : option SessionInfo) : bool :=
  match session with
  | Some s => authenticated s
  | None => false
  end.

Definition validateRequest (cfg : Config) (request : Request) (e : Env) : M Validation :=
  let tokenCheck := validateApiToken cfg request in
  if valid tokenCheck then ret (mkValidation true None)
  else
    session <- getSession e ;;
    if is_authenticated session then ret (mkValidation true None)
    else ret (mkValidation false
                (Some (json (ErrorBody
                   (Some "Unauthorized - Please provide a valid API token or login"%string)) 401))).

(* ================================================================= *)
(** ** Route handlers and the middleware *)

(** [await request.json()]: [None] stands for a body that does not parse
    (or cannot be destructured), which throws. *)
Definition request_json {A} (parsed : option A) : M A :=
  match parsed with
  | Some b => ret b
  | None => throw BadJson
  end.

(** The first-run branch of the login route: the block under
    [if (!hasPasscodes)]. *)
Definition first_run_setup (e : Env) (code : jsstring) : M Response :=
  if negb (six_digits code)
  then ret (json (ErrorBody (Some "Passcode must be exactly 6 digits"%string)) 400)
  else
    createPasscode e code (units "Admin") true ;;
    result <- login e code ;;
    ret (json (LoginBody (Some true) (Some "Admin passcode created successfully"%string)) 200).

(** The rest of the login route, after that block. *)
Definition normal_login (e : Env) (code : jsstring) : M Response :=
  result <- login e code ;;
  if negb (success result) then ret (json (ErrorBody (error result)) 401)
  else ret (json (LoginBody (res_isAdmin result) None) 200).

(** [src/app/api/auth/login/route.ts], POST.  The body field [code] is
    [None] when it is absent or not a string. *)
Definition login_POST (e : Env) (parsed : option (option jsstring)) : M Response :=
  try_catch
    (code <- request_json parsed ;;
     if falsy code then ret (json (ErrorBody (Some "Passcode is required"%string)) 400)
     else
       match code with
       | None => ret (json (ErrorBody (Some "Passcode is required"%string)) 400)
       | Some code =>
           hasPasscodes <- hasAnyPasscodes ;;
           if negb hasPasscodes then first_run_setup e code
           else normal_login e code
       end)
    (fun _ => ret (json (ErrorBody (Some "Login failed"%string)) 500)).

(** The session-status route, GET. *)
Definition status_GET (e : Env) : M Response :=
  try_catch
    (hasPasscodes <- hasAnyPasscodes ;;
     if negb hasPasscodes then ret (json (StatusBody false true None) 200)
     else
       session <- getSession e ;;
       match session with
       | None => ret (json (StatusBody false false None) 200)
       | Some s => ret (json (StatusBody (authenticated s) false (Some s)) 200)
       end)
    (fun _ => ret (json (StatusBody false false None) 500)).

(** [!session?.authenticated || !session.isAdmin] is the negation of this. *)
Definition is_admin_session (session : option SessionInfo) : bool :=
  match session with
  | Some s => authenticated s && isAdmin s
  | None => false
  end.

Definition unauthorized : Response := json (ErrorBody (Some "Unauthorized"%string)) 401.

(** [src/app/api/admin/passcodes/route.ts], GET. *)
Definition passcodes_GET (e : Env) : M Response :=
  try_catch
    (session <- getSession e ;;
     if negb (is_admin_session session) then ret unauthorized
     else
       codes <- listPasscodes ;;
       ret (json (PasscodeListBody codes) 200))
    (fun _ => ret (json (ErrorBody (Some "Failed to list passcodes"%string)) 500)).

(** [{ code, name, isAdmin }] *)
Record CreateBody := mkCreateBody {
  b_code : option jsstring;
  b_name : option jsstring;
  b_isAdmin : option bool }.

Definition or_empty (s : option jsstring) : jsstring :=
  match s with
  | Some s => s
  | None => []
  end.

(** [src/app/api/admin/passcodes/route.ts], POST. *)
Definition passcodes_POST (e : Env) (parsed : option CreateBody) : M Response :=
  try_catch
    (session <- getSession e ;;
     if negb (is_admin_session session) then ret unauthorized
     else
       b <- request_json parsed ;;
       if falsy (b_code b) || falsy (b_name b)
       then ret (json (ErrorBody (Some "Code and name are required"%string)) 400)
       else
         result <- createPasscode e (or_empty (b_code b)) (or_empty (b_name b))
                     (match b_isAdmin b with Some a => a | None => false end) ;;
         if negb (success result) then ret (json (ErrorBody (error result)) 400)
         else ret (json SuccessBody 200))
    (fun _ => ret (json (ErrorBody (Some "Failed to create passcode"%string)) 500)).

(** [src/app/api/admin/passcodes/[id]/route.ts], DELETE. *)
Definition passcodes_DELETE (e : Env) (id : jsstring) : M Response :=
  try_catch
    (session <- getSession e ;;
     if negb (is_admin_session session) then ret unauthorized
     else
       result <- deletePasscode id ;;
       if negb (success result) then ret (json (ErrorBody (error result)) 400)
       else ret (json SuccessBody 200))
    (fun _ => ret (json (ErrorBody (Some "Failed to delete passcode"%string)) 500)).

(** Modelled from the spec: the logout route, whose file is not among the
    sources; it calls [logout] and answers [{ success: true }]. *)
Definition logout_POST : M Response :=
  logout ;;
  ret (json SuccessBody 200).

(** [src/middleware.ts]: [None] is [NextResponse.next()]. *)
Definition exempt (pathname : jsstring) : bool :=
  str_eqb pathname (units "/api/auth/login")
  || str_eqb pathname (units "/api/auth/setup")
  || str_eqb pathname (units "/api/auth/status").

Definition middleware (cfg : Config) (request : Request) (pathname : jsstring) (e : Env)
  : M (option Response) :=
  if startsWith pathname (units "/api/") then
    if exempt pathname then ret None
    else
      auth <- validateRequest cfg request e ;;
      if negb (valid auth) then ret (v_error auth) else ret None
  else ret None.

(** The operations of the authentication boundary. *)
Inductive Call :=
| PostLogin (parsed : option (option jsstring))
| GetStatus
| PostLogout
| GetPasscodes
| PostPasscodes (parsed : option CreateBody)
| DeletePasscodes (id : jsstring).

Definition pathname_of (c : Call) : jsstring :=
  match c with
  | PostLogin _ => units "/api/auth/login"
  | GetStatus => units "/api/auth/status"
  | PostLogout => units "/api/auth/logout"
  | GetPasscodes => units "/api/admin/passcodes"
  | PostPasscodes _ => units "/api/admin/passcodes"
  | DeletePasscodes id => units "/api/admin/passcodes/" ++ id
  end.

Definition handler (e : Env) (c : Call) : M Response :=
  match c with
  | PostLogin parsed => login_POST e parsed
  | GetStatus => status_GET e
  | PostLogout => logout_POST
  | GetPasscodes => passcodes_GET e
  | PostPasscodes parsed => passcodes_POST e parsed
  | DeletePasscodes id => passcodes_DELETE e id
  end.

(** A request goes through the middleware, then to its handler. *)
Definition serve (cfg : Config) (request : Request) (e : Env) (c : Call) : M Response :=
  gate <- middleware cfg request (pathname_of c) e ;;
  match gate with
  | Some response => ret response
  | None => handler e c
  end.

(** One request against the tables [d], with the fault schedule [fl]; an
    exception nobody caught is answered with a 500 by the framework. *)
Definition handle (cfg : Config) (request : Request) (e : Env) (fl : list bool)
  (c : Call) (d : Db) : Response * Db :=
  match serve cfg request e c (mkWorld d fl (cookie request)) with
  | (Returned response, w) => (response, db w)
  | (Thrown _, w) => (json (ErrorBody (Some "Internal Server Error"%string)) 500, db w)
  end.

(* ================================================================= *)
(** ** Sequential executions and the predicates of the properties *)

Inductive step : Db -> Db -> Prop :=
| step_handle cfg request e fl c d : step d (snd (handle cfg request e fl c d)).

Inductive reachable_from (d0 : Db) : Db -> Prop :=
| reach_here : reachable_from d0 d0
| reach_step d d' : reachable_from d0 d -> step d d' -> reachable_from d0 d'.

Definition has_admin (d : Db) : Prop :=
  exists p, In p (passcodes d) /\ pc_isAdmin p = true.

(** The last-admin invariant. *)
Definition last_admin (d : Db) : Prop := passcodes d <> [] -> has_admin d.

(** What the primary key of [passcodes] guarantees. *)
Definition unique_ids (d : Db) : Prop := NoDup (map pc_id (passcodes d)).

(** The store never fails during the request. *)
Definition quiet (fl : list bool) : Prop := forall b, In b fl -> b = false.

(** The identity of the passcode rows: everything but [lastUsedAt]. *)
Definition row_identity (p : Passcode) : jsstring * jsstring * jsstring * bool * Z :=
  (pc_id p, pc_code p, pc_name p, pc_isAdmin p, pc_createdAt p).

Definition admin_count (d : Db) : nat := List.length (filter pc_isAdmin (passcodes d)).

Definition find_passcode (id : jsstring) (d : Db) : option Passcode :=
  hd_error (filter (fun p => str_eqb (pc_id p) id) (passcodes d)).

(** Hoare triples over [M]: from a world satisfying [P], the computation
    ends, returning or throwing, in an outcome and a world satisfying [Q]. *)
Definition triple {A} (P : World -> Prop) (m : M A) (Q : Outcome A -> World -> Prop) : Prop :=
  forall w, P w -> Q (fst (m w)) (snd (m w)).

(** The computation keeps a predicate of the tables, whatever its outcome. *)
Definition keeps {A} (I : Db -> Prop) (m : M A) : Prop :=
  triple (fun w => I (db w)) m (fun _ w' => I (db w')).

(** The computation leaves the tables alone. *)
Definition readonly {A} (m : M A) : Prop :=
  forall w, db (snd (m w)) = db w.

Definition same_rows (l l' : list Passcode) : Prop :=
  map row_identity l' = map row_identity l.

(** C1's invariant and the stronger state reached after the first setup. *)
Definition admin_invariant (d : Db) : Prop := unique_ids d /\ last_admin d.
Definition administered (d : Db) : Prop := unique_ids d /\ has_admin d.
Definition no_passcodes (d : Db) : Prop := passcodes d = [].

(** A predicate of the tables that only reads the identity of the passcode
    rows (not [lastUsedAt], not the sessions). *)
Definition pc_only (I : Db -> Prop) : Prop :=
  forall d d', same_rows (passcodes d) (passcodes d') -> I d -> I d'.

(* ================================================================= *)
(** ** Auxiliary definitions for the statements *)

(** The session a cookie stands for at time [t]: what [getSession] computes
    when the store answers. *)
Definition current_session (d : Db) (j : option jsstring) (t : Z) : option SessionInfo :=
  if falsy j then None
  else
    match j with
    | None => None
    | Some token =>
        match filter (fun sp => session_matches token t (fst sp)) (join_sessions d) with
        | [] => None
        | (session, passcode) :: _ =>
            Some (mkSessionInfo true (pc_isAdmin passcode) (Some (pc_name passcode)))
        end
    end.

(** A presented (non-empty) cookie token with a session row of that token
    whose expiry is strictly in the future, and the passcode owning it. *)
Definition live_session (d : Db) (j : option jsstring) (t : Z)
  (s : Session) (p : Passcode) : Prop :=
  exists token,
    j = Some token /\ token <> [] /\
    In s (sessions d) /\ ss_token s = token /\ t < ss_expiresAt s /\
    In p (passcodes d) /\ pc_id p = ss_passcodeId s.

(** The session rows of [d] are rows of [d0] or rows created by a login at
    the clock of [e]. *)
Definition sessions_from (d0 : Db) (e : Env) (d : Db) : Prop :=
  forall s, In s (sessions d) ->
    In s (sessions d0) \/ ss_expiresAt s = now e + SESSION_DURATION_MS.

(** The login route with its first-run branch removed. *)
Definition login_POST_normal (e : Env) (parsed : option (option jsstring)) : M Response :=
  try_catch
    (code <- request_json parsed ;;
     if falsy code then ret (json (ErrorBody (Some "Passcode is required"%string)) 400)
     else
       match code with
       | None => ret (json (ErrorBody (Some "Passcode is required"%string)) 400)
       | Some code =>
           hasPasscodes <- hasAnyPasscodes ;;
           normal_login e code
       end)
    (fun _ => ret (json (ErrorBody (Some "Login failed"%string)) 500)).

Definition is_admin_call (c : Call) : bool :=
  match c with
  | GetPasscodes | PostPasscodes _ | DeletePasscodes _ => true
  | _ => false
  end.

(** Sample data for the examples. *)
Definition sample_env : Env :=
  mkEnv 1700000000000 (units "p-new") (units "s-new") (fun i => i).

Definition admin_row (id code : string) : Passcode :=
  mkPasscode (units id) (hashCode (units code)) (units "Admin") true 0 None.

Definition guest_row (id code : string) : Passcode :=
  mkPasscode (units id) (hashCode (units code)) (units "Guest") false 0 None.

Definition session_row (id owner token : string) (expiresAt : Z) : Session :=
  mkSession (units id) (units owner) (units token) expiresAt 0.

(** The value a computation returned, for validations. *)
Definition returned_validation (r : Outcome Validation * World) : Validation :=
  match fst r with
  | Returned v => v
  | Thrown _ => mkValidation false None
  end.

(* ================================================================= *)
(** ** Auxiliary definitions for the further properties *)

(** The session row a successful [login] inserts for the passcode [p]. *)
Definition new_session (e : Env) (p : Passcode) : Session :=
  mkSession (fresh_session_id e) (pc_id p) (generateToken (random e))
            (now e + SESSION_DURATION_MS) (now e).

(** The rows whose stored digest is that of [code]. *)
Definition lookup_code (code : jsstring) (d : Db) : list Passcode :=
  filter (fun p => str_eqb (pc_code p) (hashCode code)) (passcodes d).

(** The passcode row [createPasscode] inserts. *)
Definition new_passcode (e : Env) (code name : jsstring) (adm : bool) : Passcode :=
  mkPasscode (fresh_passcode_id e) (hashCode code) name adm (now e) None.

(** Integrity of the credential table: no two rows share a digest, and
    every digest is that of a six-digit code. *)
Definition codes_distinct (d : Db) : Prop := NoDup (map pc_code (passcodes d)).

Definition codes_digests (d : Db) : Prop :=
  forall p, In p (passcodes d) -> exists c, six_digits c = true /\ pc_code p = hashCode c.

Definition credentials_wf (d : Db) : Prop := codes_distinct d /\ codes_digests d.

(** Integrity of the session table: every session belongs to an existing
    passcode, session ids and tokens are pairwise distinct, and every token
    has the 64 characters of [generateToken]. *)
Definition sessions_owned (d : Db) : Prop :=
  forall s, In s (sessions d) -> exists p, In p (passcodes d) /\ pc_id p = ss_passcodeId s.

Definition session_integrity (d : Db) : Prop :=
  sessions_owned d /\
  NoDup (map ss_token (sessions d)) /\
  NoDup (map ss_id (sessions d)) /\
  (forall s, In s (sessions d) -> List.length (ss_token s) = 64%nat).

(** Ascending creation times, as [orderBy(passcodes.createdAt)] asks. *)
Fixpoint ascending (l : list Z) : bool :=
  match l with
  | a :: ((b :: _) as l') => (a <=? b) && ascending l'
  | _ => true
  end.

(** The passcode rows of [d] are rows of [d0], whatever their
    [lastUsedAt], or rows created with the identifier and at the clock of
    [e], for a six-digit code, under an id that [d0] did not have. *)
Definition rows_from (d0 : Db) (e : Env) (d : Db) : Prop :=
  forall p, In p (passcodes d) ->
    (exists p0, In p0 (passcodes d0) /\ row_identity p0 = row_identity p) \/
    (~ In (pc_id p) (map pc_id (passcodes d0)) /\
     pc_id p = fresh_passcode_id e /\ pc_createdAt p = now e /\
     exists code, six_digits code = true /\ pc_code p = hashCode code).

(** From tables satisfying [P], the computation ends, returning or
    throwing, with tables satisfying [Q]. *)
Definition leads {A} (P Q : Db -> Prop) (m : M A) : Prop :=
  triple (fun w => P (db w)) m (fun _ w' => Q (db w')).

(* ================================================================= *)
(** ** The bearer-token check of the task API ([verifyApiToken]) *)

(** [s.split(sep)] for a separator of one code unit: the segments between
    its occurrences. *)
Fixpoint String_split (sep : Z) (s : jsstring) : list jsstring :=
  match s with
  | [] => [[]]
  | c :: s' =>
      if c =? sep then [] :: String_split sep s'
      else
        match String_split sep s' with
        | seg :: segs => (c :: seg) :: segs
        | [] => [[c]]
        end
  end.

(** [API_TOKEN] is [process.env.API_TOKEN]; [const [type, token] =
    authHeader.split(' ')] takes the first two segments. *)
Definition verifyApiToken (API_TOKEN : option jsstring) (request : Request) : bool :=
  if falsy API_TOKEN then true
  else
    match API_TOKEN with
    | None => true
    | Some apiToken =>
        if falsy (authorization request) then false
        else
          match authorization request with
          | None => false
          | Some authHeader =>
              let parts := String_split 32 authHeader in
              let type := nth_error parts 0 in
              let token := nth_error parts 1 in
              if negb (opt_str_eqb type (units "Bearer")) || falsy token then false
              else opt_str_eqb token apiToken
          end
    end.

(* ================================================================= *)
(** ** The task list kept by the [useTasks] hook *)

(** The task object [addTask] builds. *)
Record Task := mkTask {
  t_id : jsstring;
  t_title : jsstring;
  t_description : option jsstring;
  t_priority : jsstring;
  t_columnId : jsstring;
  t_createdAt : Z }.

(** [description || undefined] *)
Definition or_undefined (s : jsstring) : option jsstring :=
  if falsy (Some s) then None else Some s.

(** The [updates] object of [updateTask]: [None] is a key that is absent. *)
Record TaskUpdates := mkTaskUpdates {
  u_title : option jsstring;
  u_description : option (option jsstring);
  u_priority : option jsstring;
  u_columnId : option jsstring }.

Definition or_kept {A} (update : option A) (kept : A) : A :=
  match update with
  | Some a => a
  | None => kept
  end.

(** [{ ...task, ...updates }] *)
Definition spread (task : Task) (updates : TaskUpdates) : Task :=
  mkTask (t_id task)
         (or_kept (u_title updates) (t_title task))
         (or_kept (u_description updates) (t_description task))
         (or_kept (u_priority updates) (t_priority task))
         (or_kept (u_columnId updates) (t_columnId task))
         (t_createdAt task).

(** The callbacks of the hook, as functions of the list [prev] that
    [setTasks] hands to their updaters; [uuid] is the value of [uuidv4()]
    and [t] that of [Date.now()].  [addTask] also returns the new task. *)
Definition addTask (uuid : jsstring) (t : Z) (title description priority columnId : jsstring)
  (prev : list Task) : Task * list Task :=
  let newTask := mkTask uuid title (or_undefined description) priority columnId t in
  (newTask, prev ++ [newTask]).

Definition updateTask (id : jsstring) (updates : TaskUpdates) (prev : list Task) : list Task :=
  map (fun task => if str_eqb (t_id task) id then spread task updates else task) prev.

Definition deleteTask (id : jsstring) (prev : list Task) : list Task :=
  filter (fun task => negb (str_eqb (t_id task) id)) prev.

Definition moveTask (taskId newColumnId : jsstring) (prev : list Task) : list Task :=
  map (fun task =>
         if str_eqb (t_id task) taskId
         then mkTask (t_id task) (t_title task) (t_description task) (t_priority task)
                     newColumnId (t_createdAt task)
         else task) prev.

Definition getTasksByColumn (columnId : jsstring) (tasks : list Task) : list Task :=
  filter (fun task => str_eqb (t_columnId task) columnId) tasks.

(* ================================================================= *)
(** ** The epics and comments routes *)

(** Rows of the tables [epics] and [comments]. *)
Record Epic := mkEpic {
  ep_id : jsstring;
  ep_name : jsstring;
  ep_color : jsstring;
  ep_position : Z;
  ep_createdAt : Z }.

Record Comment := mkComment {
  cm_id : jsstring;
  cm_taskId : jsstring;
  cm_content : jsstring;
  cm_author : jsstring;
  cm_createdAt : Z }.

(** One call to the store about a board table.  These tables are passed
    to the routes and returned by them; the call takes its turn in the
    schedule of faults, and [r] is what the store answers otherwise. *)
Definition board_call {A} (r : Outcome A) : M A := store_call (fun d => (r, d)).

(** What a guarded route answers: [auth.error!], or a status and a body. *)
Inductive Answer (A : Type) :=
| Denied (error : option Response)
| Answered (st : Z) (body : A).
Arguments Denied {A} error.
Arguments Answered {A} st body.

Inductive EpicsBody :=
| EpicsError (msg : string)
| EpicRows (rows : list Epic)
| EpicRow (row : Epic).

(** [orderBy(asc(epics.position), asc(epics.createdAt))] *)
Definition epic_ltb (a b : Epic) : bool :=
  (ep_position a <? ep_position b)
  || ((ep_position a =? ep_position b) && (ep_createdAt a <? ep_createdAt b)).

Fixpoint insert_epic (p : Epic) (l : list Epic) : list Epic :=
  match l with
  | [] => [p]
  | q :: l' => if epic_ltb p q then p :: l else q :: insert_epic p l'
  end.

Definition order_epics (l : list Epic) : list Epic := fold_right insert_epic [] l.

(** [src/app/api/epics/route.ts], GET. *)
Definition epics_GET (cfg : Config) (request : Request) (e : Env) (table : list Epic)
  : M (Answer EpicsBody) :=
  auth <- validateRequest cfg request e ;;
  if negb (valid auth) then ret (Denied (v_error auth))
  else
    try_catch
      (allEpics <- board_call (Returned (order_epics table)) ;;
       ret (Answered 200 (EpicRows allEpics)))
      (fun _ => ret (Answered 500 (EpicsError "Failed to fetch epics"))).

(** [{ name, color }]: each field a string, or [None] when absent. *)
Record EpicInput := mkEpicInput { in_name : option jsstring; in_color : option jsstring }.

(** [existingEpics.reduce((max, e) => Math.max(max, e.position), -1)] *)
Definition maxPosition (existingEpics : list Epic) : Z :=
  fold_left (fun max e => Z.max max (ep_position e)) existingEpics (-1).

(** [db.insert(epics).values(row).returning()]: the primary key and the
    range of the [integer] column are checked. *)
Definition insert_epic_row (row : Epic) (table : list Epic) : Outcome Epic :=
  if existsb (fun x => str_eqb (ep_id x) (ep_id row)) table
  then Thrown (ConstraintViolation "epics_pkey")
  else if (ep_position row <? -2147483648) || (2147483647 <? ep_position row)
  then Thrown (ConstraintViolation "integer out of range")
  else Returned row.

(** [src/app/api/epics/route.ts], POST; [id] is the identifier the store
    generates for the new row.  The route returns the table with its answer. *)
Definition epics_POST (cfg : Config) (request : Request) (e : Env) (id : jsstring)
  (parsed : option EpicInput) (table : list Epic) : M (Answer EpicsBody * list Epic) :=
  auth <- validateRequest cfg request e ;;
  if negb (valid auth) then ret (Denied (v_error auth), table)
  else
    try_catch
      (b <- request_json parsed ;;
       if falsy (in_name b) then ret (Answered 400 (EpicsError "Name is required"), table)
       else
         existingEpics <- board_call (Returned table) ;;
         newEpic <- board_call
                      (insert_epic_row
                         (mkEpic id (or_empty (in_name b))
                                 (if falsy (in_color b) then units "#3b82f6"
                                  else or_empty (in_color b))
                                 (maxPosition existingEpics + 1) (now e))
                         table) ;;
         ret (Answered 201 (EpicRow newEpic), table ++ [newEpic]))
      (fun _ => ret (Answered 500 (EpicsError "Failed to create epic"), table)).

Inductive CommentsBody :=
| CommentsError (msg : string)
| CommentDeleted.

(** [db.delete(comments).where(eq(comments.id, id)).returning()]: the rows
    deleted and the table that remains.  The store reads the [id] of the
    path as a uuid, as in [select_passcodes_by_id]. *)
Definition delete_comments_by_id (id : jsstring) (table : list Comment)
  : Outcome (list Comment * list Comment) :=
  match uuid_in id with
  | None => Thrown (InvalidTextRepresentation "uuid")
  | Some u =>
      Returned (filter (fun c => str_eqb (cm_id c) u) table,
                filter (fun c => negb (str_eqb (cm_id c) u)) table)
  end.

(** [src/app/api/comments/[id]/route.ts], DELETE. *)
Definition comments_DELETE (cfg : Config) (request : Request)
  (e : Env) (id : jsstring) (table : list Comment) : M (Answer CommentsBody * list Comment) :=
  auth <- validateRequest cfg request e ;;
  if negb (valid auth) then ret (Denied (v_error auth), table)
  else
    try_catch
      (r <- board_call (delete_comments_by_id id table) ;;
       let (deleted, remaining) := r in
       match deleted with
       | [] => ret (Answered 404 (CommentsError "Comment not found"), remaining)
       | deletedComment :: _ => ret (Answered 200 CommentDeleted, remaining)
       end)
      (fun _ => ret (Answered 500 (CommentsError "Failed to delete comment"), table)).

(** Ascending order of [(position, createdAt)]. *)
Definition epic_leb (a b : Epic) : bool := negb (epic_ltb b a).

Fixpoint epics_ascending (l : list Epic) : bool :=
  match l with
  | a :: ((b :: _) as l') => epic_leb a b && epics_ascending l'
  | _ => true
  end.

(* ================================================================= *)
(** ** Entering a passcode in the browser

    [LoginPage] keeps the six input boxes in the array [code]; the admin
    panel keeps the code being typed in [newCode].  Of the handlers, the
    new value of that state and the code handed to [handleSubmit], if any,
    are modelled; each handler reads the state of the last render. *)

(** A JavaScript array of strings: [None] is an empty slot. *)
Definition jsarray := list (option jsstring).

(** [a[index] = value] on a copy of the array. *)
Fixpoint Array_set (index : nat) (value : jsstring) (a : jsarray) : jsarray :=
  match index, a with
  | O, [] => [Some value]
  | O, _ :: a' => Some value :: a'
  | S i, [] => None :: Array_set i value []
  | S i, x :: a' => x :: Array_set i value a'
  end.

(** [a.every(d => d)]: empty slots are skipped. *)
Definition Array_every_truthy (a : jsarray) : bool :=
  forallb (fun x => match x with
                    | Some s => negb (falsy (Some s))
                    | None => true
                    end) a.

(** [a.join('')] *)
Definition Array_join (a : jsarray) : jsstring :=
  flat_map (fun x => match x with
                     | Some s => s
                     | None => []
                     end) a.

(** [/^\d$/.test(value)] *)
Definition one_digit (value : jsstring) : bool :=
  match value with
  | [c] => is_digit c
  | _ => false
  end.

(** [['', '', '', '', '', '']] *)
Definition empty_code : jsarray := repeat (Some []) 6.

Definition handleInput (index : nat) (value : jsstring) (code : jsarray)
  : jsarray * option jsstring :=
  if negb (falsy (Some value)) && negb (one_digit value) then (code, None)
  else
    let newCode := Array_set index value code in
    (newCode,
     if negb (falsy (Some value)) && Nat.eqb index 5 && Array_every_truthy newCode
     then Some (Array_join newCode)
     else None).

(** [text.replace(/\D/g, '').slice(0, 6)] *)
Definition digits_prefix (text : jsstring) : jsstring := firstn 6 (filter is_digit text).

Definition handlePaste (text : jsstring) (code : jsarray) : jsarray * option jsstring :=
  let pasted := digits_prefix text in
  if Nat.eqb (List.length pasted) 6
  then (map (fun c => Some [c]) pasted, Some pasted)
  else (code, None).

(** The [disabled] attribute of the admin panel's Create button. *)
Definition create_disabled (creating : bool) (newCode newName : jsstring) : bool :=
  creating || negb (Nat.eqb (List.length newCode) 6) || falsy (Some newName).

(** What the boxes hold between events: six entries, each empty or one
    digit. *)
Definition box_ok (x : option jsstring) : Prop :=
  x = Some [] \/ exists c, x = Some [c] /\ is_digit c = true.

Definition boxes_ok (code : jsarray) : Prop :=
  List.length code = 6%nat /\ Forall box_ok code.

(* ================================================================= *)
(** ** A 63-bit machine-integer evaluation of the hasher

    Used only to decide, by evaluation over all 10^6 six-digit codes, that
    no two of them share a digest.  [fast_abs] is proved equal to
    [Z.abs (finalHash _)] on six-digit codes. *)

Definition mix (h c : int) : int :=
  Uint63.land (Uint63.add (Uint63.mul h 31) c) 4294967295.

Definition fast_loop (s : list int) : int := fold_left mix s 0%uint63.

Definition dec_digit (h k : int) : int :=
  Uint63.add (Uint63.mod (Uint63.div h k) 10) 48.

Definition pows10 : list int :=
  [1000000000; 100000000; 10000000; 1000000; 100000;
   10000; 1000; 100; 10; 1]%uint63.

Definition fast_salted (code : list int) : list int :=
  [107; 97; 110; 98; 97; 110; 95]%uint63
    ++ map (dec_digit (fast_loop code)) pows10 ++ [95%uint63] ++ rev code.

Definition fast_abs (code : list int) : int :=
  let m := fast_loop (fast_salted code) in
  if Uint63.ltb m 2147483648 then m else Uint63.sub 4294967296 m.

Definition digits63 : list int :=
  [48; 49; 50; 51; 52; 53; 54; 55; 56; 57]%uint63.

Definition digit63 (d : int) : Prop := 48 <= Uint63.to_Z d <= 57.

Definition extend (l : list (list int)) : list (list int) :=
  flat_map (fun c => map (fun d => d :: c) digits63) l.

Definition all_codes63 : list (list int) :=
  extend (extend (extend (extend (extend (extend [[]]))))).


Fixpoint strictly_increasing (l : list int) : bool :=
  match l with
  | a :: ((b :: _) as t) => Uint63.ltb a b && strictly_increasing t
  | _ => true
  end.

(** The unwrapped polynomial that both loops compute modulo 2^32. *)
Definition poly (s : list Z) (h : Z) : Z := fold_left (fun a c => 31 * a + c) s h.

(** Reading back a hexadecimal digest. *)
Definition hex_value (c : Z) : Z := if c <? 58 then c - 48 else c - 87.
Definition parse_hex (s : jsstring) : Z :=
  fold_left (fun a c => 16 * a + hex_value c) s 0.

Module IntOrder <: TotalLeBool.
Definition t := int.
Definition leb := Uint63.leb.
Theorem leb_total : forall a1 a2, leb a1 a2 = true \/ leb a2 a1 = true.
Proof. intros a b. unfold leb. rewrite !Uint63.leb_spec. lia. Qed.
End IntOrder.

Module IntSort := Sort IntOrder.

(** Duplicate check, one residue class of the digests at a time: the
    digests of a class are sorted and compared with their neighbours. *)
Definition residues : list int := [0; 1; 2; 3; 4; 5; 6; 7]%uint63.

Definition in_class (k h : int) : bool := Uint63.eqb (Uint63.mod h 8) k.

Definition class_distinct (l : list int) (k : int) : bool :=
  strictly_increasing (IntSort.sort (filter (in_class k) l)).

Definition all_distinct (l : list int) : bool := forallb (class_distinct l) residues.

(* ================================================================= *)
(** ** Facts about the numeric layer *)

Lemma land_mask32 x : Z.land x 4294967295 = x mod 4294967296.
Proof. change 4294967295 with (Z.ones 32). rewrite Z.land_ones by lia. reflexivity. Qed.

Lemma ToInt32_range x : -2147483648 <= ToInt32 x < 2147483648.
Proof.
  unfold ToInt32. rewrite land_mask32.
  pose proof (Z.mod_pos_bound x 4294967296 eq_refl).
  destruct (x mod 4294967296 <? 2147483648) eqn:E;
    [apply Z.ltb_lt in E | apply Z.ltb_ge in E]; lia.
Qed.

Lemma hash_step_range h c : -2147483648 <= hash_step h c < 2147483648.
Proof. unfold hash_step, int32_and. apply ToInt32_range. Qed.

Lemma fold_hash_step_range s : forall h,
  -2147483648 <= h < 2147483648 ->
  -2147483648 <= fold_left hash_step s h < 2147483648.
Proof.
  induction s as [|c s IH]; intros h Hh; simpl; [exact Hh|].
  apply IH, hash_step_range.
Qed.

Lemma hash_loop_range s : -2147483648 <= hash_loop s < 2147483648.
Proof. apply fold_hash_step_range; lia. Qed.

Lemma to_radix_small radix n : n < radix -> to_radix radix n = [n].
Proof.
  intros H. simp to_radix. destruct (Z_lt_dec n radix); [reflexivity | lia].
Qed.

Lemma to_radix_big radix n :
  2 <= radix -> radix <= n ->
  to_radix radix n = to_radix radix (n / radix) ++ [n mod radix].
Proof.
  intros Hr H. rewrite to_radix_equation_1.
  destruct (Z_lt_dec n radix); [lia|]. cbn.
  destruct (Z_lt_dec radix 2); [lia|]. reflexivity.
Qed.

Lemma to_radix_digits radix n :
  2 <= radix -> 0 <= n -> Forall (fun d => 0 <= d < radix) (to_radix radix n).
Proof.
  intros Hr. funelim (to_radix radix n); intros Hn0.
  - constructor; [lia | constructor].
  - lia.
  - apply Forall_app; split.
    + apply H; [lia | apply Z.div_pos; lia].
    + constructor; [apply Z.mod_pos_bound; lia | constructor].
Qed.

Lemma to_radix_length radix (k : nat) : forall n,
  2 <= radix -> 0 <= n < radix ^ Z.of_nat (S k) ->
  (List.length (to_radix radix n) <= S k)%nat.
Proof.
  induction k as [|k IH]; intros n Hr Hn.
  - change (Z.of_nat 1) with 1 in Hn. rewrite Z.pow_1_r in Hn.
    rewrite to_radix_small by lia. simpl. lia.
  - destruct (Z_lt_dec n radix) as [Hlt|Hge]; [rewrite to_radix_small by lia; simpl; lia|].
    rewrite to_radix_big by lia.
    rewrite length_app; simpl.
    assert (List.length (to_radix radix (n / radix)) <= S k)%nat; [|lia].
    apply IH; [lia|]. split; [apply Z.div_pos; lia|].
    apply Z.div_lt_upper_bound; [lia|].
    replace (Z.of_nat (S (S k))) with (1 + Z.of_nat (S k)) in Hn by lia.
    rewrite Z.pow_add_r, Z.pow_1_r in Hn by lia. lia.
Qed.

Lemma digit_char_hex d : 0 <= d < 16 -> is_hex_char (digit_char d).
Proof.
  intros Hd. unfold digit_char, is_hex_char.
  destruct (d <? 10) eqn:E; [apply Z.ltb_lt in E | apply Z.ltb_ge in E]; lia.
Qed.

Lemma padStart_length len fill s :
  (List.length s <= len)%nat -> List.length (padStart len fill s) = len.
Proof. intros H. unfold padStart. rewrite length_app, repeat_length. lia. Qed.

Lemma padStart_Forall (P : Z -> Prop) len fill s :
  P fill -> Forall P s -> Forall P (padStart len fill s).
Proof.
  intros Hf Hs. unfold padStart. apply Forall_app; split; [|exact Hs].
  apply Forall_forall. intros x Hx. apply repeat_spec in Hx. subst x. exact Hf.
Qed.

Lemma abs_finalHash_bound code : 0 <= Z.abs (finalHash code) <= 2147483648.
Proof. pose proof (hash_loop_range (salted code)). unfold finalHash. lia. Qed.

Lemma hashCode_length code : List.length (hashCode code) = 8%nat.
Proof.
  pose proof (abs_finalHash_bound code) as Hb.
  unfold hashCode. apply padStart_length.
  unfold Number_toString.
  destruct (Z.abs (finalHash code) <? 0) eqn:E; [apply Z.ltb_lt in E; lia|].
  rewrite length_map. apply (to_radix_length 16 7); [lia|].
  change (16 ^ Z.of_nat 8) with 4294967296. lia.
Qed.

(** C10: [hashCode] is defined on every string of code units, and its result
    is always exactly 8 characters of the lowercase hexadecimal alphabet:
    both accumulators stay signed 32-bit integers, so the absolute value of
    the second is at most 2^31 and prints in at most 8 hexadecimal digits
    before padding. *)
Theorem hashCode_shape (code : jsstring) :
  -2147483648 <= hash_loop code < 2147483648 /\
  -2147483648 <= finalHash code < 2147483648 /\
  Z.abs (finalHash code) <= 2147483648 /\
  (List.length (Number_toString 16 (Z.abs (finalHash code))) <= 8)%nat /\
  List.length (hashCode code) = 8%nat /\
  Forall is_hex_char (hashCode code).
Proof.
  split; [apply hash_loop_range|]. split; [apply hash_loop_range|].
  pose proof (abs_finalHash_bound code) as Hb.
  set (n := Z.abs (finalHash code)) in *.
  assert (Hts : Number_toString 16 n = map digit_char (to_radix 16 n)).
  { unfold Number_toString. destruct (n <? 0) eqn:E; [apply Z.ltb_lt in E; lia | reflexivity]. }
  assert (Hlen : (List.length (Number_toString 16 n) <= 8)%nat).
  { rewrite Hts, length_map. apply (to_radix_length 16 7); [lia|].
    change (16 ^ Z.of_nat 8) with 4294967296. lia. }
  split; [lia|]. split; [exact Hlen|]. unfold hashCode. fold n. split.
  - apply padStart_length. exact Hlen.
  - apply padStart_Forall; [left; lia|].
    rewrite Hts. apply Forall_forall. intros c Hc.
    apply in_map_iff in Hc. destruct Hc as [d [<- Hd]].
    apply digit_char_hex.
    pose proof (to_radix_digits 16 n ltac:(lia) ltac:(lia)) as Hall.
    rewrite Forall_forall in Hall. apply Hall, Hd.
Qed.

Example hashCode_000000 : hashCode (units "000000") = units "24b2262d".
Proof. vm_compute. reflexivity. Qed.

Example hashCode_123456 : hashCode (units "123456") = units "5441bfaf".
Proof. vm_compute. reflexivity. Qed.


(* ----------------------------------------------------------------- *)
(** *** The digest determines the absolute value of the accumulator *)

Lemma to_radix_value radix n :
  2 <= radix -> 0 <= n ->
  fold_left (fun a d => radix * a + d) (to_radix radix n) 0 = n.
Proof.
  intros Hr. funelim (to_radix radix n); intros Hn0.
  - simpl. lia.
  - lia.
  - rewrite fold_left_app. simpl. rewrite H; [|lia|apply Z.div_pos; lia].
    pose proof (Z.div_mod n radix). lia.
Qed.

Lemma hex_value_digit_char d : 0 <= d < 16 -> hex_value (digit_char d) = d.
Proof.
  intros Hd. unfold hex_value, digit_char.
  destruct (d <? 10) eqn:E; [apply Z.ltb_lt in E | apply Z.ltb_ge in E].
  - destruct (48 + d <? 58) eqn:E'; [lia | apply Z.ltb_ge in E'; lia].
  - destruct (87 + d <? 58) eqn:E'; [apply Z.ltb_lt in E'; lia | lia].
Qed.

Lemma parse_hex_digits ds : forall a,
  Forall (fun d => 0 <= d < 16) ds ->
  fold_left (fun a c => 16 * a + hex_value c) (map digit_char ds) a =
  fold_left (fun a d => 16 * a + d) ds a.
Proof.
  induction ds as [|d ds IH]; intros a Hall; simpl; [reflexivity|].
  inversion Hall; subst. rewrite hex_value_digit_char by assumption.
  apply IH; assumption.
Qed.

Lemma parse_hex_padding k s : parse_hex (repeat 48 k ++ s) = parse_hex s.
Proof.
  unfold parse_hex. rewrite fold_left_app. f_equal.
  induction k as [|k IH]; simpl; [reflexivity | exact IH].
Qed.

Lemma parse_hex_hashCode code : parse_hex (hashCode code) = Z.abs (finalHash code).
Proof.
  pose proof (abs_finalHash_bound code) as Hb.
  unfold hashCode, padStart. rewrite parse_hex_padding.
  unfold Number_toString.
  destruct (Z.abs (finalHash code) <? 0) eqn:E; [apply Z.ltb_lt in E; lia|].
  unfold parse_hex. rewrite parse_hex_digits by (apply to_radix_digits; lia).
  apply to_radix_value; lia.
Qed.

(* ----------------------------------------------------------------- *)
(** *** Both loops are a polynomial in 31, modulo 2^32 *)

Lemma ToInt32_mod x : (ToInt32 x) mod 4294967296 = x mod 4294967296.
Proof.
  unfold ToInt32. rewrite land_mask32.
  destruct (x mod 4294967296 <? 2147483648).
  - apply Z.mod_mod. lia.
  - rewrite Zminus_mod, Z.mod_same, Z.sub_0_r, !Z.mod_mod by lia. reflexivity.
Qed.

Lemma ToInt32_congr x y :
  x mod 4294967296 = y mod 4294967296 -> ToInt32 x = ToInt32 y.
Proof. intros H. unfold ToInt32. rewrite !land_mask32, H. reflexivity. Qed.

Lemma ToInt32_small x : -2147483648 <= x < 2147483648 -> ToInt32 x = x.
Proof.
  intros Hx. unfold ToInt32. rewrite land_mask32.
  destruct (Z_lt_dec x 0) as [Hneg|Hpos].
  - assert (E : x mod 4294967296 = x + 4294967296).
    { symmetry. apply (Z.mod_unique_pos _ _ (-1)); lia. }
    rewrite E. destruct (x + 4294967296 <? 2147483648) eqn:E';
      [apply Z.ltb_lt in E'; lia | lia].
  - rewrite Z.mod_small by lia.
    destruct (x <? 2147483648) eqn:E'; [reflexivity | apply Z.ltb_ge in E'; lia].
Qed.

Lemma hash_step_poly h c : hash_step h c = ToInt32 (31 * h + c).
Proof.
  unfold hash_step, int32_and, int32_shl.
  rewrite Z.land_diag.
  rewrite (ToInt32_small (ToInt32 _)) by apply ToInt32_range.
  apply ToInt32_congr.
  rewrite Z.shiftl_mul_pow2 by lia. change (2 ^ 5) with 32.
  replace (31 * h + c) with (h * 32 - h + c) by lia.
  assert (E : ToInt32 (ToInt32 h * 32) mod 4294967296 = (h * 32) mod 4294967296).
  { rewrite ToInt32_mod, Zmult_mod, ToInt32_mod, <- Zmult_mod. reflexivity. }
  rewrite Zplus_mod, Zminus_mod, E, <- Zminus_mod, <- Zplus_mod. reflexivity.
Qed.

Lemma poly_congr s : forall x y,
  x mod 4294967296 = y mod 4294967296 ->
  (poly s x) mod 4294967296 = (poly s y) mod 4294967296.
Proof.
  unfold poly. induction s as [|c s IH]; intros x y H; cbn [fold_left]; [exact H|].
  apply IH.
  rewrite Zplus_mod, Zmult_mod, H, <- Zmult_mod, <- Zplus_mod. reflexivity.
Qed.

Lemma fold_hash_step_poly s : forall h,
  (fold_left hash_step s h) mod 4294967296 = (poly s h) mod 4294967296.
Proof.
  induction s as [|c s IH]; intros h; [reflexivity|].
  cbn [fold_left]. rewrite IH. unfold poly at 2. cbn [fold_left].
  fold (poly s (31 * h + c)).
  apply poly_congr. rewrite hash_step_poly. apply ToInt32_mod.
Qed.

Lemma hash_loop_poly s : hash_loop s = ToInt32 (poly s 0).
Proof.
  rewrite <- (ToInt32_small (hash_loop s)) by apply hash_loop_range.
  apply ToInt32_congr. apply fold_hash_step_poly.
Qed.

(* ----------------------------------------------------------------- *)
(** *** The machine-integer evaluation agrees with the model *)

Lemma mix_spec h c :
  Uint63.to_Z h < 4294967296 -> Uint63.to_Z c < 4294967296 ->
  Uint63.to_Z (mix h c) = (31 * Uint63.to_Z h + Uint63.to_Z c) mod 4294967296.
Proof.
  intros Hh Hc. unfold mix.
  pose proof (Uint63.to_Z_bounded h). pose proof (Uint63.to_Z_bounded c).
  rewrite Uint63.land_spec', Uint63.add_spec, Uint63.mul_spec.
  change (Uint63.to_Z 31) with 31. change (Uint63.to_Z 4294967295) with 4294967295.
  change wB with 9223372036854775808 in *.
  rewrite (Z.mod_small (_ * 31)) by lia.
  rewrite Z.mod_small by lia.
  rewrite land_mask32. f_equal. lia.
Qed.

Lemma fold_mix_spec s : forall h,
  Forall (fun c => Uint63.to_Z c < 4294967296) s ->
  Uint63.to_Z h < 4294967296 ->
  Uint63.to_Z (fold_left mix s h) =
  (poly (map Uint63.to_Z s) (Uint63.to_Z h)) mod 4294967296.
Proof.
  induction s as [|c s IH]; intros h Hall Hh.
  - simpl. unfold poly. simpl. pose proof (Uint63.to_Z_bounded h).
    rewrite Z.mod_small; lia.
  - inversion Hall as [|? ? Hc Hs]; subst. cbn [fold_left map].
    assert (Hm := mix_spec h c Hh Hc).
    rewrite IH.
    + unfold poly at 2. cbn [fold_left].
      fold (poly (map Uint63.to_Z s) (31 * Uint63.to_Z h + Uint63.to_Z c)).
      apply poly_congr. rewrite Hm. apply Z.mod_mod. lia.
    + exact Hs.
    + rewrite Hm. apply Z.mod_pos_bound. lia.
Qed.

Lemma fast_loop_spec s :
  Forall (fun c => Uint63.to_Z c < 4294967296) s ->
  Uint63.to_Z (fast_loop s) = (poly (map Uint63.to_Z s) 0) mod 4294967296.
Proof. intros H. unfold fast_loop. rewrite fold_mix_spec; [reflexivity | exact H | reflexivity]. Qed.

(** Six-digit codes, as lists. *)
Lemma six_digits_inv code :
  six_digits code = true ->
  exists c0 c1 c2 c3 c4 c5,
    code = [c0; c1; c2; c3; c4; c5] /\
    48 <= c0 <= 57 /\ 48 <= c1 <= 57 /\ 48 <= c2 <= 57 /\
    48 <= c3 <= 57 /\ 48 <= c4 <= 57 /\ 48 <= c5 <= 57.
Proof.
  unfold six_digits, regex_digits. intros H.
  apply andb_true_iff in H. destruct H as [Hlen H].
  apply andb_true_iff in H. destruct H as [_ Hall].
  apply Nat.eqb_eq in Hlen.
  destruct code as [|c0 [|c1 [|c2 [|c3 [|c4 [|c5 [|c6 r]]]]]]]; simpl in Hlen; try discriminate.
  exists c0, c1, c2, c3, c4, c5. split; [reflexivity|].
  simpl in Hall. unfold is_digit in Hall.
  repeat (apply andb_true_iff in Hall; destruct Hall as [?H Hall]).
  repeat match goal with
         | H : (_ && _)%bool = true |- _ => apply andb_true_iff in H; destruct H
         | H : (_ <=? _) = true |- _ => apply Z.leb_le in H
         end.
  lia.
Qed.

Lemma six_digits_hash_loop code :
  six_digits code = true ->
  hash_loop code = poly code 0 /\ 1000000000 <= poly code 0 < 2147483648.
Proof.
  intros H. destruct (six_digits_inv code H) as (c0&c1&c2&c3&c4&c5&->&?&?&?&?&?&?).
  assert (Hb : 1000000000 <= poly [c0; c1; c2; c3; c4; c5] 0 < 2147483648).
  { unfold poly. cbn [fold_left]. lia. }
  split; [|exact Hb]. rewrite hash_loop_poly. apply ToInt32_small. lia.
Qed.

Lemma to_radix_ten_digits h :
  1000000000 <= h < 10000000000 ->
  to_radix 10 h =
  map (fun k => (h / k) mod 10)
      [1000000000; 100000000; 10000000; 1000000; 100000; 10000; 1000; 100; 10; 1].
Proof.
  intros Hh.
  assert (D : forall k, 0 < k -> h / k / 10 = h / (k * 10))
    by (intros k Hk; apply Z.div_div; lia).
  assert (B : forall k, 0 < k -> k * 10 <= 1000000000 -> 10 <= h / k).
  { intros k Hk Hk'. apply Z.div_le_lower_bound; lia. }
  rewrite <- (Z.div_1_r h) at 1.
  do 9 (rewrite to_radix_big by (try lia; apply B; lia); rewrite D by lia;
        cbn [Z.mul Pos.mul Pos.add Pos.succ]).
  rewrite to_radix_small by (apply Z.div_lt_upper_bound; lia).
  cbn [map]. rewrite <- !app_assoc. cbn [app].
  rewrite Z.mod_small with (a := h / 1000000000)
    by (split; [apply Z.div_pos; lia | apply Z.div_lt_upper_bound; lia]).
  reflexivity.
Qed.

Lemma dec_digit_spec h k :
  0 < Uint63.to_Z k ->
  Uint63.to_Z (dec_digit h k) = digit_char ((Uint63.to_Z h / Uint63.to_Z k) mod 10).
Proof.
  intros Hk. unfold dec_digit.
  rewrite Uint63.add_spec, Uint63.mod_spec, Uint63.div_spec.
  change (Uint63.to_Z 10) with 10. change (Uint63.to_Z 48) with 48.
  change wB with 9223372036854775808.
  pose proof (Z.mod_pos_bound (Uint63.to_Z h / Uint63.to_Z k) 10 eq_refl) as Hd.
  rewrite Z.mod_small by lia. unfold digit_char.
  destruct (_ <? 10) eqn:E; [lia | apply Z.ltb_ge in E; lia].
Qed.

Lemma six_digits_of_digit63 code :
  Forall digit63 code -> List.length code = 6%nat ->
  six_digits (map Uint63.to_Z code) = true.
Proof.
  intros Hall Hlen. unfold six_digits, regex_digits.
  rewrite length_map, Hlen. simpl.
  apply forallb_forall. intros z Hz. apply in_map_iff in Hz.
  destruct Hz as [d [<- Hd]]. rewrite Forall_forall in Hall.
  specialize (Hall d Hd). unfold digit63 in Hall. unfold is_digit.
  apply andb_true_iff. split; apply Z.leb_le; lia.
Qed.

Lemma fast_loop_code code :
  Forall digit63 code -> List.length code = 6%nat ->
  Uint63.to_Z (fast_loop code) = hash_loop (map Uint63.to_Z code) /\
  1000000000 <= Uint63.to_Z (fast_loop code) < 2147483648.
Proof.
  intros Hall Hlen.
  destruct (six_digits_hash_loop _ (six_digits_of_digit63 code Hall Hlen)) as [E B].
  rewrite fast_loop_spec.
  - rewrite E, Z.mod_small by lia. split; [reflexivity | exact B].
  - eapply Forall_impl; [|exact Hall]. unfold digit63. intros; lia.
Qed.

Lemma fast_salted_spec code :
  Forall digit63 code -> List.length code = 6%nat ->
  map Uint63.to_Z (fast_salted code) = salted (map Uint63.to_Z code).
Proof.
  intros Hall Hlen. destruct (fast_loop_code code Hall Hlen) as [E B].
  unfold fast_salted, salted. rewrite !map_app, map_rev.
  f_equal. rewrite <- E. f_equal.
  unfold Number_toString.
  destruct (_ <? 0) eqn:Hneg; [apply Z.ltb_lt in Hneg; lia|].
  rewrite to_radix_ten_digits by lia.
  unfold pows10. cbn [map]. rewrite !dec_digit_spec by reflexivity. reflexivity.
Qed.

Lemma fast_salted_small code :
  Forall digit63 code -> List.length code = 6%nat ->
  Forall (fun c => Uint63.to_Z c < 4294967296) (fast_salted code).
Proof.
  intros Hall Hlen. unfold fast_salted.
  apply Forall_app; split; [|apply Forall_app; split; [|apply Forall_app; split]].
  - repeat (apply Forall_cons; [reflexivity|]). apply Forall_nil.
  - apply Forall_forall. intros x Hx. apply in_map_iff in Hx.
    destruct Hx as [k [<- Hk]].
    assert (Hpos : 0 < Uint63.to_Z k).
    { unfold pows10 in Hk. cbn [In] in Hk.
      repeat (destruct Hk as [<- | Hk]; [reflexivity|]). contradiction. }
    rewrite dec_digit_spec by exact Hpos.
    pose proof (Z.mod_pos_bound (Uint63.to_Z (fast_loop code) / Uint63.to_Z k) 10 eq_refl).
    unfold digit_char. destruct (_ <? 10); lia.
  - apply Forall_cons; [reflexivity | apply Forall_nil].
  - apply Forall_rev. eapply Forall_impl; [|exact Hall]. unfold digit63. intros; lia.
Qed.

Lemma fast_abs_spec code :
  Forall digit63 code -> List.length code = 6%nat ->
  Uint63.to_Z (fast_abs code) = Z.abs (finalHash (map Uint63.to_Z code)).
Proof.
  intros Hall Hlen. unfold fast_abs, finalHash.
  rewrite <- fast_salted_spec by assumption.
  rewrite hash_loop_poly.
  assert (Hm := fast_loop_spec _ (fast_salted_small code Hall Hlen)).
  set (m := fast_loop (fast_salted code)) in *.
  set (p := poly (map Uint63.to_Z (fast_salted code)) 0) in *.
  pose proof (Z.mod_pos_bound p 4294967296 eq_refl) as Hb.
  unfold ToInt32. rewrite land_mask32, <- Hm.
  destruct (Uint63.ltb m 2147483648) eqn:E.
  - apply Uint63.ltb_spec in E. change (Uint63.to_Z 2147483648) with 2147483648 in E.
    destruct (Uint63.to_Z m <? 2147483648) eqn:E'; [lia | apply Z.ltb_ge in E'; lia].
  - assert (~ Uint63.to_Z m < 2147483648) as E2.
    { intros C. assert (Uint63.ltb m 2147483648 = true) as C'
        by (apply Uint63.ltb_spec; exact C).
      congruence. }
    rewrite Uint63.sub_spec. change (Uint63.to_Z 4294967296) with 4294967296.
    change wB with 9223372036854775808.
    rewrite Z.mod_small by lia.
    destruct (Uint63.to_Z m <? 2147483648) eqn:E'; [apply Z.ltb_lt in E'; lia | lia].
Qed.

(* ----------------------------------------------------------------- *)
(** *** Enumerating the six-digit codes *)

Lemma in_extend d c l : In (d :: c) (extend l) <-> In d digits63 /\ In c l.
Proof.
  unfold extend. rewrite in_flat_map. split.
  - intros [c' [Hc' Hin]]. apply in_map_iff in Hin.
    destruct Hin as [d' [Heq Hd']]. inversion Heq; subst. split; assumption.
  - intros [Hd Hc]. exists c. split; [exact Hc|].
    apply in_map_iff. exists d. split; [reflexivity | exact Hd].
Qed.

Lemma in_extend_inv x l :
  In x (extend l) -> exists d c, x = d :: c /\ In d digits63 /\ In c l.
Proof.
  unfold extend. rewrite in_flat_map. intros [c [Hc Hin]].
  apply in_map_iff in Hin. destruct Hin as [d [<- Hd]].
  exists d, c. repeat split; assumption.
Qed.

Lemma in_iter_extend n : forall x,
  In x (Nat.iter n extend [[]]) <->
  List.length x = n /\ Forall (fun d => In d digits63) x.
Proof.
  induction n as [|n IH]; intros x.
  - simpl. split.
    + intros [<- | []]. split; [reflexivity | constructor].
    + intros [Hlen _]. destruct x; [left; reflexivity | discriminate].
  - cbn [Nat.iter]. split.
    + intros H. apply in_extend_inv in H. destruct H as (d & c & -> & Hd & Hc).
      apply IH in Hc. destruct Hc as [Hlen Hall].
      split; [simpl; congruence | constructor; assumption].
    + intros [Hlen Hall]. destruct x as [|d c]; [discriminate|].
      inversion Hall; subst. apply in_extend. split; [assumption|].
      apply IH. split; [simpl in Hlen; congruence | assumption].
Qed.

Lemma digits63_digit63 d : In d digits63 -> digit63 d.
Proof.
  intros H. unfold digits63 in H. cbn [In] in H. unfold digit63.
  repeat (destruct H as [<- | H]; [split; discriminate|]). contradiction.
Qed.

Lemma digit63_of_Z z : 48 <= z <= 57 ->
  In (Uint63.of_Z z) digits63 /\ Uint63.to_Z (Uint63.of_Z z) = z.
Proof.
  intros Hz.
  assert (C : z = 48 \/ z = 49 \/ z = 50 \/ z = 51 \/ z = 52 \/
              z = 53 \/ z = 54 \/ z = 55 \/ z = 56 \/ z = 57) by lia.
  unfold digits63. cbn [In].
  repeat (destruct C as [-> | C]; [split; [tauto | reflexivity]|]).
  subst z. split; [tauto | reflexivity].
Qed.

Lemma all_codes63_digit63 x :
  In x all_codes63 -> Forall digit63 x /\ List.length x = 6%nat.
Proof.
  intros H. change all_codes63 with (Nat.iter 6 extend [[]]) in H.
  apply in_iter_extend in H. destruct H as [Hlen Hall]. split; [|exact Hlen].
  eapply Forall_impl; [|exact Hall]. apply digits63_digit63.
Qed.

Lemma six_digits_enumerated code :
  six_digits code = true ->
  exists x, In x all_codes63 /\ map Uint63.to_Z x = code.
Proof.
  intros H. destruct (six_digits_inv code H) as (c0&c1&c2&c3&c4&c5&->&H0&H1&H2&H3&H4&H5).
  exists (map Uint63.of_Z [c0; c1; c2; c3; c4; c5]). split.
  - change all_codes63 with (Nat.iter 6 extend [[]]).
    apply in_iter_extend. split; [reflexivity|]. cbn [map].
    repeat (apply Forall_cons; [apply digit63_of_Z; assumption|]). apply Forall_nil.
  - cbn [map].
    rewrite (proj2 (digit63_of_Z c0 H0)), (proj2 (digit63_of_Z c1 H1)),
      (proj2 (digit63_of_Z c2 H2)), (proj2 (digit63_of_Z c3 H3)),
      (proj2 (digit63_of_Z c4 H4)), (proj2 (digit63_of_Z c5 H5)).
    reflexivity.
Qed.

(* ----------------------------------------------------------------- *)
(** *** No two six-digit codes share a digest *)

Lemma strictly_increasing_NoDup l : strictly_increasing l = true -> NoDup l.
Proof.
  assert (G : forall l a, strictly_increasing (a :: l) = true ->
              NoDup (a :: l) /\ forall b, In b (a :: l) -> Uint63.to_Z a <= Uint63.to_Z b).
  { clear l. induction l as [|b l IH]; intros a H.
    - split; [constructor; [intros []| constructor]|].
      intros b [<- | []]. lia.
    - cbn [strictly_increasing] in H. apply andb_true_iff in H. destruct H as [Hab Hrest].
      apply Uint63.ltb_spec in Hab. destruct (IH b Hrest) as [Hnd Hmin].
      split.
      + constructor; [|exact Hnd]. intros Hin. specialize (Hmin a Hin). lia.
      + intros c [<- | Hc]; [lia|]. specialize (Hmin c Hc). lia. }
  destruct l as [|a l]; [constructor|]. intros H. apply (G l a H).
Qed.

Lemma residue_covered h : exists k, In k residues /\ in_class k h = true.
Proof.
  exists (Uint63.mod h 8). split; [|apply Uint63.eqb_refl].
  pose proof (Z.mod_pos_bound (Uint63.to_Z h) 8 eq_refl) as Hb.
  assert (E : Uint63.to_Z (Uint63.mod h 8) = Uint63.to_Z h mod 8)
    by (rewrite Uint63.mod_spec; reflexivity).
  rewrite <- (Uint63.of_to_Z (Uint63.mod h 8)), E.
  set (z := Uint63.to_Z h mod 8) in *.
  assert (C : z = 0 \/ z = 1 \/ z = 2 \/ z = 3 \/ z = 4 \/ z = 5 \/ z = 6 \/ z = 7) by lia.
  unfold residues. cbn [In].
  clearbody z.
  repeat (destruct C as [-> | C]; [repeat (first [left; reflexivity | right])|]).
  rewrite C. repeat (first [left; reflexivity | right]).
Qed.

Lemma NoDup_filter_cons {A} (p : A -> bool) a l :
  NoDup (filter p (a :: l)) -> NoDup (filter p l).
Proof.
  cbn [filter]. destruct (p a); [|auto]. intros H. inversion H; assumption.
Qed.

Lemma NoDup_by_classes {A K} (p : K -> A -> bool) (ks : list K) (l : list A) :
  (forall x, exists k, In k ks /\ p k x = true) ->
  (forall k, In k ks -> NoDup (filter (p k) l)) ->
  NoDup l.
Proof.
  intros Hcov. induction l as [|a l IH]; intros Hcls; [constructor|].
  constructor.
  - intros Hin. destruct (Hcov a) as [k [Hk Hpa]].
    specialize (Hcls k Hk). cbn [filter] in Hcls. rewrite Hpa in Hcls.
    inversion Hcls as [|? ? Hnotin _]; subst. apply Hnotin.
    apply filter_In. split; assumption.
  - apply IH. intros k Hk. apply (NoDup_filter_cons (p k) a), Hcls, Hk.
Qed.

Lemma all_distinct_NoDup l : all_distinct l = true -> NoDup l.
Proof.
  intros H. unfold all_distinct in H. rewrite forallb_forall in H.
  apply (NoDup_by_classes in_class residues); [apply residue_covered|].
  intros k Hk. specialize (H k Hk). unfold class_distinct in H.
  apply strictly_increasing_NoDup in H.
  apply (Permutation_NoDup (l := IntSort.sort (filter (in_class k) l)));
    [apply Permutation_sym, IntSort.Permuted_sort | exact H].
Qed.

Lemma fast_abs_all_distinct : NoDup (map fast_abs all_codes63).
Proof. apply all_distinct_NoDup. vm_compute. reflexivity. Qed.

Lemma NoDup_map_injective {A B} (f : A -> B) (l : list A) :
  NoDup (map f l) -> forall x y, In x l -> In y l -> f x = f y -> x = y.
Proof.
  induction l as [|a l IH]; intros Hnd x y Hx Hy Hxy; [contradiction|].
  cbn [map] in Hnd. inversion Hnd as [|? ? Hnotin Hnd']; subst.
  destruct Hx as [<- | Hx], Hy as [<- | Hy].
  - reflexivity.
  - exfalso. apply Hnotin. rewrite Hxy. apply in_map. exact Hy.
  - exfalso. apply Hnotin. rewrite <- Hxy. apply in_map. exact Hx.
  - apply IH; assumption.
Qed.

(** C8: on the codes the system accepts (exactly six ASCII digits) the
    passcode hash has no collision: two distinct six-digit codes never have
    the same digest. *)
Theorem hashCode_collision_free (c1 c2 : jsstring) :
  six_digits c1 = true -> six_digits c2 = true -> c1 <> c2 ->
  hashCode c1 <> hashCode c2.
Proof.
  intros H1 H2 Hne Heq.
  destruct (six_digits_enumerated c1 H1) as [x1 [Hx1 E1]].
  destruct (six_digits_enumerated c2 H2) as [x2 [Hx2 E2]].
  destruct (all_codes63_digit63 x1 Hx1) as [D1 L1].
  destruct (all_codes63_digit63 x2 Hx2) as [D2 L2].
  assert (Habs : Z.abs (finalHash c1) = Z.abs (finalHash c2))
    by (rewrite <- !parse_hex_hashCode, Heq; reflexivity).
  rewrite <- E1, <- E2, <- !fast_abs_spec in Habs by assumption.
  apply Uint63.to_Z_inj in Habs.
  apply Hne. rewrite <- E1, <- E2. f_equal.
  exact (NoDup_map_injective fast_abs all_codes63 fast_abs_all_distinct x1 x2 Hx1 Hx2 Habs).
Qed.

Lemma hashCode_collision_free_witness :
  hashCode (units "000000") <> hashCode (units "123456").
Proof.
  apply hashCode_collision_free; [reflexivity | reflexivity | discriminate].
Defined.


(* ================================================================= *)
(** ** The monad and the store operations *)

Lemma str_eqb_eq a b : str_eqb a b = true <-> a = b.
Proof.
  unfold str_eqb. destruct (jsstring_eq_dec a b); split; intros; congruence.
Qed.

Lemma str_eqb_neq a b : str_eqb a b = false <-> a <> b.
Proof.
  unfold str_eqb. destruct (jsstring_eq_dec a b); split; intros; congruence.
Qed.

Lemma str_eqb_refl a : str_eqb a a = true.
Proof. apply str_eqb_eq. reflexivity. Qed.

Section Triples.
Context {A B : Type}.

Lemma triple_ret (P : World -> Prop) (a : A) (Q : Outcome A -> World -> Prop) :
  (forall w, P w -> Q (Returned a) w) -> triple P (ret a) Q.
Proof. intros H w Hw. apply H, Hw. Qed.

Lemma triple_throw (P : World -> Prop) (e : Exn) (Q : Outcome A -> World -> Prop) :
  (forall w, P w -> Q (Thrown e) w) -> triple P (throw e) Q.
Proof. intros H w Hw. apply H, Hw. Qed.

Lemma triple_bind (P : World -> Prop) (m : M A) (k : A -> M B)
      (R : Outcome A -> World -> Prop) (Q : Outcome B -> World -> Prop) :
  triple P m R ->
  (forall a, triple (R (Returned a)) (k a) Q) ->
  (forall e w, R (Thrown e) w -> Q (Thrown e) w) ->
  triple P (bind m k) Q.
Proof.
  intros Hm Hk He w Hw. specialize (Hm w Hw). unfold bind.
  destruct (m w) as [[a|e] w1]; simpl in *.
  - apply Hk, Hm.
  - apply He, Hm.
Qed.

Lemma triple_try_catch (P : World -> Prop) (m : M A) (h : Exn -> M A)
      (R Q : Outcome A -> World -> Prop) :
  triple P m R ->
  (forall a w, R (Returned a) w -> Q (Returned a) w) ->
  (forall e, triple (R (Thrown e)) (h e) Q) ->
  triple P (try_catch m h) Q.
Proof.
  intros Hm Hr Hh w Hw. specialize (Hm w Hw). unfold try_catch.
  destruct (m w) as [[a|e] w1]; simpl in *.
  - apply Hr, Hm.
  - apply Hh, Hm.
Qed.

Lemma triple_weaken (P P' : World -> Prop) (m : M A) (Q Q' : Outcome A -> World -> Prop) :
  triple P' m Q' ->
  (forall w, P w -> P' w) ->
  (forall r w, Q' r w -> Q r w) ->
  triple P m Q.
Proof. intros H HP HQ w Hw. apply HQ, H, HP, Hw. Qed.

Lemma triple_store_call (P : World -> Prop) (op : Db -> Outcome A * Db)
      (Q : Outcome A -> World -> Prop) :
  (forall w rest, P w -> faults w = true :: rest ->
     Q (Thrown StoreFault) (mkWorld (db w) rest (jar w))) ->
  (forall w, P w ->
     Q (fst (op (db w))) (mkWorld (snd (op (db w))) (tl (faults w)) (jar w))) ->
  triple P (store_call op) Q.
Proof.
  intros Hf Hn w Hw. unfold store_call.
  destruct (faults w) as [|[|] rest] eqn:E.
  - specialize (Hn w Hw). rewrite E in Hn. destruct (op (db w)); exact Hn.
  - apply (Hf w rest Hw E).
  - specialize (Hn w Hw). rewrite E in Hn. destruct (op (db w)); exact Hn.
Qed.

End Triples.

(** A store call on a quiet schedule just runs its operation. *)
Lemma quiet_nil : quiet [].
Proof. intros b []. Qed.

Lemma quiet_tl fl : quiet fl -> quiet (tl fl).
Proof. intros H b Hb. apply H. destruct fl; [contradiction | right; exact Hb]. Qed.

Lemma store_call_quiet {A} (op : Db -> Outcome A * Db) d fl j :
  quiet fl ->
  store_call op (mkWorld d fl j) = (fst (op d), mkWorld (snd (op d)) (tl fl) j).
Proof.
  intros Hq. unfold store_call. cbn [faults db jar]. destruct fl as [|b rest].
  - destruct (op d); reflexivity.
  - assert (b = false) by (apply Hq; left; reflexivity). subst b.
    destruct (op d); reflexivity.
Qed.

(** The store call whose turn is a fault throws and changes nothing. *)
Lemma store_call_fault {A} (op : Db -> Outcome A * Db) w rest :
  faults w = true :: rest ->
  store_call op w = (Thrown StoreFault, mkWorld (db w) rest (jar w)).
Proof. intros E. unfold store_call. rewrite E. reflexivity. Qed.

(** Either way of a store call. *)
Lemma store_call_cases {A} (op : Db -> Outcome A * Db) d fl j :
  (exists rest, fl = true :: rest /\
     store_call op (mkWorld d fl j) = (Thrown StoreFault, mkWorld d rest j)) \/
  store_call op (mkWorld d fl j) = (fst (op d), mkWorld (snd (op d)) (tl fl) j).
Proof.
  unfold store_call. cbn [faults db jar]. destruct fl as [|[|] rest].
  - right. destruct (op d); reflexivity.
  - left. exists rest. split; reflexivity.
  - right. destruct (op d); reflexivity.
Qed.

(** Symbolic execution of the next store call of the goal. *)
Ltac store_step :=
  match goal with
  | |- context [store_call ?op (mkWorld ?d ?fl ?j)] =>
      let H := fresh "Hcall" in
      let rest := fresh "rest" in
      destruct (store_call_cases op d fl j) as [[rest [? H]] | H];
      rewrite H; clear H; cbn [fst snd]; cbv beta iota
  end.

(* ================================================================= *)
(** ** Reading and printing uuids *)

Lemma xdigit_value_range c d : xdigit_value c = Some d -> 0 <= d < 16.
Proof.
  unfold xdigit_value.
  destruct ((48 <=? c) && (c <=? 57)) eqn:E1.
  { intros H. inversion H. apply andb_true_iff in E1. destruct E1 as [A B].
    apply Z.leb_le in A, B. lia. }
  destruct ((97 <=? c) && (c <=? 102)) eqn:E2.
  { intros H. inversion H. apply andb_true_iff in E2. destruct E2 as [A B].
    apply Z.leb_le in A, B. lia. }
  destruct ((65 <=? c) && (c <=? 70)) eqn:E3; [|discriminate].
  intros H. inversion H. apply andb_true_iff in E3. destruct E3 as [A B].
  apply Z.leb_le in A, B. lia.
Qed.

Lemma digit_cases d :
  0 <= d < 16 ->
  d = 0 \/ d = 1 \/ d = 2 \/ d = 3 \/ d = 4 \/ d = 5 \/ d = 6 \/ d = 7 \/
  d = 8 \/ d = 9 \/ d = 10 \/ d = 11 \/ d = 12 \/ d = 13 \/ d = 14 \/ d = 15.
Proof. lia. Qed.

Lemma xdigit_digit_char d : 0 <= d < 16 -> xdigit_value (digit_char d) = Some d.
Proof.
  intros H. apply digit_cases in H.
  repeat (destruct H as [-> | H]; [reflexivity|]). subst d. reflexivity.
Qed.

Lemma digit_char_not_hyphen d : 0 <= d < 16 -> (digit_char d =? 45) = false.
Proof.
  intros H. apply digit_cases in H.
  repeat (destruct H as [-> | H]; [reflexivity|]). subst d. reflexivity.
Qed.

Lemma digit_char_not_brace d : 0 <= d < 16 -> (digit_char d =? 123) = false.
Proof.
  intros H. apply digit_cases in H.
  repeat (destruct H as [-> | H]; [reflexivity|]). subst d. reflexivity.
Qed.

Lemma uuid_digits_spec n : forall i src ds tail,
  uuid_digits n i src = Some (ds, tail) ->
  List.length ds = (2 * n)%nat /\ Forall (fun d => 0 <= d < 16) ds.
Proof.
  induction n as [|n IH]; intros i src ds tail H; cbn [uuid_digits] in H.
  - inversion H. split; [reflexivity | constructor].
  - destruct src as [|c1 [|c2 rest]]; try discriminate.
    destruct (xdigit_value c1) as [d1|] eqn:E1; [|discriminate].
    destruct (xdigit_value c2) as [d2|] eqn:E2; [|discriminate].
    cbv zeta in H.
    destruct (uuid_digits n (i + 1) _) as [[ds' tail']|] eqn:E; [|discriminate].
    inversion H; subst. destruct (IH _ _ _ _ E) as [Hl Hf]. split.
    + cbn [List.length]. lia.
    + constructor; [apply (xdigit_value_range c1), E1|].
      constructor; [apply (xdigit_value_range c2), E2 | exact Hf].
Qed.

Lemma uuid_in_out ds :
  List.length ds = 32%nat -> Forall (fun d => 0 <= d < 16) ds ->
  uuid_in (uuid_out ds) = Some (uuid_out ds).
Proof.
  intros Hl Hf.
  do 32 (destruct ds as [|? ds]; [discriminate Hl|]).
  destruct ds; [|discriminate Hl]. clear Hl.
  repeat match goal with
         | H : Forall _ (_ :: _) |- _ => inversion H; subst; clear H
         end.
  unfold uuid_out. cbn [map firstn skipn app].
  unfold uuid_in. cbn [tl].
  rewrite digit_char_not_brace by assumption.
  repeat (cbn -[digit_char xdigit_value];
          rewrite ?xdigit_digit_char, ?digit_char_not_hyphen by assumption).
  reflexivity.
Qed.

(** An id as the store prints it stands for itself: for a row of the
    tables, the text of its own id addresses it. *)
Lemma uuid_in_printed id u : uuid_in id = Some u -> uuid_in u = Some u.
Proof.
  unfold uuid_in at 1.
  destruct (uuid_digits 16 0 _) as [[ds tail]|] eqn:E; [|discriminate].
  destruct (str_eqb tail _); [|discriminate].
  intros H. inversion H; subst u.
  destruct (uuid_digits_spec _ _ _ _ _ E) as [Hl Hf].
  apply uuid_in_out; assumption.
Qed.


(* ================================================================= *)
(** ** [deletePasscode]: the admin guard *)

Lemma select_passcodes_quiet p d fl j :
  quiet fl ->
  select_passcodes p (mkWorld d fl j) =
  (Returned (filter p (passcodes d)), mkWorld d (tl fl) j).
Proof. intros H. unfold select_passcodes. rewrite store_call_quiet by exact H. reflexivity. Qed.

Lemma select_passcodes_by_id_quiet id u d fl j :
  quiet fl -> uuid_in id = Some u ->
  select_passcodes_by_id id (mkWorld d fl j) =
  (Returned (filter (fun p => str_eqb (pc_id p) u) (passcodes d)), mkWorld d (tl fl) j).
Proof.
  intros H Hu. unfold select_passcodes_by_id. rewrite store_call_quiet by exact H.
  rewrite Hu. reflexivity.
Qed.

Lemma deletePasscode_quiet id u w :
  quiet (faults w) -> uuid_in id = Some u ->
  deletePasscode id w =
  if is_admin_row (find_passcode u (db w)) && Nat.leb (admin_count (db w)) 1
  then (Returned (failed "Cannot delete the last admin passcode"),
        mkWorld (db w) (tl (tl (faults w))) (jar w))
  else (Returned succeeded,
        mkWorld
          (mkDb (filter (fun p => negb (str_eqb (pc_id p) u)) (passcodes (db w)))
                (filter (fun s => negb (owned_by
                    (filter (fun p => str_eqb (pc_id p) u) (passcodes (db w))) s))
                  (sessions (db w))))
          (tl (tl (tl (faults w)))) (jar w)).
Proof.
  destruct w as [d fl j]. cbn [db faults jar]. intros Hq Hu. unfold deletePasscode, bind.
  rewrite select_passcodes_quiet by exact Hq.
  rewrite (select_passcodes_by_id_quiet id u) by (try apply quiet_tl; assumption).
  fold (find_passcode u d). fold (admin_count d).
  destruct (is_admin_row (find_passcode u d) && Nat.leb (admin_count d) 1);
    [reflexivity|].
  unfold delete_passcodes_by_id.
  rewrite store_call_quiet by (apply quiet_tl, quiet_tl; exact Hq).
  rewrite Hu. reflexivity.
Qed.

(** Whatever the store does, [deletePasscode] leaves the tables as they
    are or deletes the rows of the uuid its argument stands for, the guard
    having let it pass. *)
Lemma deletePasscode_cases id d fl j :
  db (snd (deletePasscode id (mkWorld d fl j))) = d \/
  exists u, uuid_in id = Some u /\
    is_admin_row (find_passcode u d) && Nat.leb (admin_count d) 1 = false /\
    db (snd (deletePasscode id (mkWorld d fl j))) =
    mkDb (filter (fun p => negb (str_eqb (pc_id p) u)) (passcodes d))
         (filter (fun s => negb (owned_by
                    (filter (fun p => str_eqb (pc_id p) u) (passcodes d)) s))
                 (sessions d)).
Proof.
  unfold deletePasscode, bind, select_passcodes, select_passcodes_by_id,
    delete_passcodes_by_id, ret.
  store_step; [left; reflexivity|].
  store_step; [left; reflexivity|].
  destruct (uuid_in id) as [u|] eqn:Hu; cbn [fst snd db]; [|left; reflexivity].
  fold (find_passcode u d). fold (admin_count d).
  destruct (is_admin_row (find_passcode u d) && Nat.leb (admin_count d) 1) eqn:G;
    [left; reflexivity|].
  store_step; [left; reflexivity|].
  cbn [fst snd db]. right. exists u. repeat split. exact G.
Qed.

(** A text the store does not read as a uuid: the lookup by id throws. *)
Lemma deletePasscode_refused id d fl j :
  uuid_in id = None ->
  db (snd (deletePasscode id (mkWorld d fl j))) = d /\
  jar (snd (deletePasscode id (mkWorld d fl j))) = j /\
  (exists ex, fst (deletePasscode id (mkWorld d fl j)) = Thrown ex) /\
  (quiet fl ->
   deletePasscode id (mkWorld d fl j) =
   (Thrown (InvalidTextRepresentation "uuid"), mkWorld d (tl (tl fl)) j)).
Proof.
  intros Hu.
  unfold deletePasscode, bind, select_passcodes, select_passcodes_by_id, ret.
  store_step.
  { repeat split; [eexists; reflexivity|].
    intros Hq. subst fl. specialize (Hq true (or_introl eq_refl)). discriminate. }
  store_step.
  { repeat split; [eexists; reflexivity|].
    intros Hq. apply quiet_tl in Hq. rewrite H in Hq.
    specialize (Hq true (or_introl eq_refl)). discriminate. }
  rewrite Hu. cbn [fst snd db jar]. repeat split. eexists; reflexivity.
Qed.

Lemma find_passcode_filtered id d :
  hd_error (filter (fun p => str_eqb (pc_id p) id)
              (filter (fun p => negb (str_eqb (pc_id p) id)) (passcodes d))) = None.
Proof.
  induction (passcodes d) as [|p l IH]; [reflexivity|].
  cbn [filter]. destruct (str_eqb (pc_id p) id) eqn:E; cbn [negb]; [exact IH|].
  cbn [filter]. rewrite E. exact IH.
Qed.

(** C3: with a quiet store, deleting an existing admin while at most one
    admin exists fails with 'Cannot delete the last admin passcode' and
    leaves the tables as they are; any other existing target is deleted (no
    row keeps its id, its sessions go with it) and the call succeeds; so
    deleting one of two admins succeeds.  The target is the row whose id
    is the uuid [u] that the text [id] stands for, in whatever spelling. *)
Theorem deletePasscode_last_admin (id u : jsstring) (w : World) (p : Passcode) :
  quiet (faults w) ->
  uuid_in id = Some u ->
  find_passcode u (db w) = Some p ->
  (pc_isAdmin p = true -> (admin_count (db w) <= 1)%nat ->
     fst (deletePasscode id w) = Returned (failed "Cannot delete the last admin passcode") /\
     db (snd (deletePasscode id w)) = db w) /\
  (~ (pc_isAdmin p = true /\ (admin_count (db w) <= 1)%nat) ->
     fst (deletePasscode id w) = Returned succeeded /\
     passcodes (db (snd (deletePasscode id w))) =
       filter (fun q => negb (str_eqb (pc_id q) u)) (passcodes (db w)) /\
     find_passcode u (db (snd (deletePasscode id w))) = None /\
     sessions (db (snd (deletePasscode id w))) =
       filter (fun s => negb (owned_by
                 (filter (fun q => str_eqb (pc_id q) u) (passcodes (db w))) s))
              (sessions (db w))) /\
  (pc_isAdmin p = true -> admin_count (db w) = 2%nat ->
     fst (deletePasscode id w) = Returned succeeded).
Proof.
  intros Hq Hu Hfind. rewrite (deletePasscode_quiet id u w Hq Hu), Hfind. cbn [is_admin_row].
  split; [|split].
  - intros Ha Hc. rewrite Ha. apply Nat.leb_le in Hc. rewrite Hc. cbn.
    split; [reflexivity | destruct (db w); reflexivity].
  - intros Hn.
    assert (E : pc_isAdmin p && Nat.leb (admin_count (db w)) 1 = false).
    { apply andb_false_iff. destruct (pc_isAdmin p); [right | left; reflexivity].
      apply Nat.leb_gt. destruct (Nat.leb (admin_count (db w)) 1) eqn:L.
      - apply Nat.leb_le in L. exfalso. apply Hn. split; [reflexivity | exact L].
      - apply Nat.leb_gt in L. exact L. }
    rewrite E. cbn [fst snd db passcodes sessions].
    repeat split. unfold find_passcode. cbn [passcodes].
    apply find_passcode_filtered.
  - intros Ha Hc. rewrite Ha, Hc. reflexivity.
Qed.

Lemma deletePasscode_last_admin_witness :
  let w := mkWorld (mkDb [admin_row "0a1b2c3d-0000-4000-8000-00000000000a" "111111";
                          admin_row "0a1b2c3d-0000-4000-8000-00000000000b" "222222"] [])
                   [] None in
  fst (deletePasscode (units "0A1B2C3D-0000-4000-8000-00000000000A") w) = Returned succeeded.
Proof.
  intros w.
  apply (deletePasscode_last_admin (units "0A1B2C3D-0000-4000-8000-00000000000A")
           (units "0a1b2c3d-0000-4000-8000-00000000000a") w
           (admin_row "0a1b2c3d-0000-4000-8000-00000000000a" "111111"));
    [apply quiet_nil | reflexivity | reflexivity | reflexivity | reflexivity].
Defined.

Example deletePasscode_sole_admin :
  let w := mkWorld (mkDb [admin_row "0a1b2c3d-0000-4000-8000-00000000000a" "111111";
                          guest_row "0a1b2c3d-0000-4000-8000-00000000000c" "222222"] [])
                   [] None in
  deletePasscode (units "0a1b2c3d-0000-4000-8000-00000000000a") w =
  (Returned (failed "Cannot delete the last admin passcode"), w).
Proof. vm_compute. reflexivity. Qed.

(* ================================================================= *)
(** ** [deletePasscode] on a missing target *)

Lemma find_passcode_none id d :
  find_passcode id d = None ->
  filter (fun p => str_eqb (pc_id p) id) (passcodes d) = [] /\
  filter (fun p => negb (str_eqb (pc_id p) id)) (passcodes d) = passcodes d.
Proof.
  unfold find_passcode. intros H.
  destruct (filter (fun p => str_eqb (pc_id p) id) (passcodes d)) as [|q l] eqn:E;
    [|discriminate].
  split; [reflexivity|].
  induction (passcodes d) as [|p l IH]; [reflexivity|].
  cbn [filter] in *. destruct (str_eqb (pc_id p) id); [discriminate|].
  cbn [negb]. f_equal. apply IH. exact E.
Qed.

Lemma filter_all {A} (l : list A) : filter (fun _ => true) l = l.
Proof. induction l as [|a l IH]; [reflexivity | cbn; rewrite IH; reflexivity]. Qed.





(* ================================================================= *)
(** ** [getSession] *)

Lemma getSession_run e d fl j :
  getSession e (mkWorld d fl j) =
  if falsy j then (Returned None, mkWorld d fl j)
  else match fl with
       | true :: rest => (Thrown StoreFault, mkWorld d rest j)
       | _ => (Returned (current_session d j (now e)), mkWorld d (tl fl) j)
       end.
Proof.
  unfold getSession, current_session, bind, cookie_get. cbn [jar].
  destruct j as [[|c token]|]; cbn [falsy]; try reflexivity.
  unfold select_sessions_join, store_call. cbn [faults db jar].
  destruct fl as [|[|] rest]; cbn [tl]; try reflexivity;
    destruct (filter _ (join_sessions d)) as [|[s p] l]; reflexivity.
Qed.

Lemma getSession_quiet e d fl j :
  quiet fl ->
  fst (getSession e (mkWorld d fl j)) = Returned (current_session d j (now e)).
Proof.
  intros Hq. rewrite getSession_run. unfold current_session.
  destruct (falsy j); [reflexivity|].
  destruct fl as [|[|] rest]; try reflexivity.
  specialize (Hq true (or_introl eq_refl)). discriminate.
Qed.

Lemma getSession_readonly e w :
  db (snd (getSession e w)) = db w /\ jar (snd (getSession e w)) = jar w.
Proof.
  destruct w as [d fl j]. rewrite getSession_run.
  destruct (falsy j); [split; reflexivity|].
  destruct fl as [|[|] rest]; split; reflexivity.
Qed.

Lemma in_join_sessions d s p :
  In (s, p) (join_sessions d) <->
  In s (sessions d) /\ In p (passcodes d) /\ ss_passcodeId s = pc_id p.
Proof.
  unfold join_sessions. rewrite in_flat_map. split.
  - intros [s' [Hs Hin]]. apply in_map_iff in Hin. destruct Hin as [p' [Heq Hp]].
    inversion Heq; subst. apply filter_In in Hp. destruct Hp as [Hp Hid].
    apply str_eqb_eq in Hid. repeat split; assumption.
  - intros [Hs [Hp Hid]]. exists s. split; [exact Hs|].
    apply in_map_iff. exists p. split; [reflexivity|].
    apply filter_In. split; [exact Hp | apply str_eqb_eq; exact Hid].
Qed.

Lemma session_matches_iff token t s :
  session_matches token t s = true <-> ss_token s = token /\ t < ss_expiresAt s.
Proof.
  unfold session_matches. rewrite andb_true_iff, str_eqb_eq, Z.ltb_lt. reflexivity.
Qed.

Lemma falsy_false j : falsy j = false <-> exists token, j = Some token /\ token <> [].
Proof.
  split.
  - destruct j as [[|c token]|]; cbn; intros H; try discriminate.
    exists (c :: token). split; [reflexivity | discriminate].
  - intros [token [-> Hne]]. destruct token; [contradiction | reflexivity].
Qed.

Lemma current_session_some d j t info :
  current_session d j t = Some info ->
  exists s p, live_session d j t s p /\
    info = mkSessionInfo true (pc_isAdmin p) (Some (pc_name p)).
Proof.
  unfold current_session. destruct (falsy j) eqn:Hf; [discriminate|].
  apply falsy_false in Hf. destruct Hf as [token [-> Hne]].
  destruct (filter _ (join_sessions d)) as [|[s p] l] eqn:E; [discriminate|].
  intros H. inversion H; subst. exists s, p. split; [|reflexivity].
  assert (Hin : In (s, p) (filter (fun sp => session_matches token t (fst sp)) (join_sessions d)))
    by (rewrite E; left; reflexivity).
  apply filter_In in Hin. destruct Hin as [Hj Hm]. cbn [fst] in Hm.
  apply in_join_sessions in Hj. destruct Hj as [Hs [Hp Hid]].
  apply session_matches_iff in Hm. destruct Hm as [Htok Hexp].
  exists token. repeat split; try assumption. symmetry. exact Hid.
Qed.

Lemma current_session_live d j t s p :
  live_session d j t s p -> exists info, current_session d j t = Some info.
Proof.
  intros [token (-> & Hne & Hs & Htok & Hexp & Hp & Hid)].
  unfold current_session.
  assert (Hf : falsy (Some token) = false)
    by (apply falsy_false; exists token; split; [reflexivity | exact Hne]).
  rewrite Hf.
  assert (Hin : In (s, p) (filter (fun sp => session_matches token t (fst sp)) (join_sessions d))).
  { apply filter_In. split.
    - apply in_join_sessions. repeat split; try assumption. symmetry. exact Hid.
    - cbn [fst]. apply session_matches_iff. split; assumption. }
  destruct (filter _ (join_sessions d)) as [|[s' p'] l]; [contradiction|].
  eexists. reflexivity.
Qed.

Lemma current_session_expires d j t t' :
  t <= t' -> current_session d j t = None -> current_session d j t' = None.
Proof.
  intros Hle Hnone.
  destruct (current_session d j t') as [info|] eqn:E; [|reflexivity].
  apply current_session_some in E. destruct E as (s & p & Hlive & _).
  destruct Hlive as [token (Hj & Hne & Hs & Htok & Hexp & Hp & Hid)].
  assert (Hlive : live_session d j t s p).
  { exists token. repeat split; try assumption. lia. }
  apply current_session_live in Hlive. destruct Hlive as [info' E']. congruence.
Qed.

(* ================================================================= *)
(** ** [login] and a failing [lastUsedAt] update *)

Lemma hasAnyPasscodes_run d fl j :
  hasAnyPasscodes (mkWorld d fl j) =
  match fl with
  | true :: rest => (Thrown StoreFault, mkWorld d rest j)
  | _ => (Returned (negb (Nat.eqb (List.length (passcodes d)) 0)), mkWorld d (tl fl) j)
  end.
Proof.
  unfold hasAnyPasscodes, bind, select_passcodes_limit, store_call, ret.
  cbn [faults db jar].
  destruct fl as [|[|] rest]; cbn [tl]; try reflexivity;
    destruct (passcodes d); reflexivity.
Qed.

(** C6 as the specification words it fails on this run: the lookup matches the guest's
    passcode, the update of [lastUsedAt] fails, and [login] throws; no
    session is created and the route answers 500. *)
Lemma login_update_fault_counterexample :
  let d := mkDb [guest_row "g1" "123456"] [] in
  let code := units "123456" in
  fst (login sample_env code (mkWorld d [false; true] None)) = Thrown StoreFault /\
  sessions (db (snd (login sample_env code (mkWorld d [false; true] None)))) = [] /\
  login_POST sample_env (Some (Some code)) (mkWorld d [false; false; true] None) =
    (Returned (json (ErrorBody (Some "Login failed"%string)) 500), mkWorld d [] None).
Proof. vm_compute. repeat split. Qed.

(** C6, as the code has it: when the digest lookup matches a passcode and
    the store write that updates its [lastUsedAt] fails, [login] does not
    swallow the failure: it throws at once, no session row is inserted, the
    tables and the cookie are as before, and the login route answers
    500 'Login failed'. *)
Theorem login_update_fault_propagates (e : Env) (code : jsstring) (d : Db)
    (j : option jsstring) (p : Passcode) (rest : list bool) :
  code <> [] ->
  hd_error (filter (fun q => str_eqb (pc_code q) (hashCode code)) (passcodes d)) = Some p ->
  login e code (mkWorld d (false :: true :: rest) j) =
    (Thrown StoreFault, mkWorld d rest j) /\
  login_POST e (Some (Some code)) (mkWorld d (false :: false :: true :: rest) j) =
    (Returned (json (ErrorBody (Some "Login failed"%string)) 500), mkWorld d rest j).
Proof.
  intros Hcode Hfind.
  assert (Hlogin : forall fl', login e code (mkWorld d (false :: true :: fl') j) =
                     (Thrown StoreFault, mkWorld d fl' j)).
  { intros fl'. unfold login, bind, select_passcodes, update_lastUsedAt, store_call.
    cbn [faults db jar fst snd tl].
    destruct (filter (fun q => str_eqb (pc_code q) (hashCode code)) (passcodes d))
      as [|q l]; [discriminate | reflexivity]. }
  split; [apply Hlogin|].
  unfold login_POST, try_catch, bind, request_json, ret.
  destruct code as [|c code]; [contradiction|]. cbn [falsy].
  rewrite hasAnyPasscodes_run. cbn [tl].
  assert (Hne : negb (Nat.eqb (List.length (passcodes d)) 0) = true).
  { destruct (passcodes d); [discriminate | reflexivity]. }
  rewrite Hne. cbn [negb]. unfold normal_login, bind. rewrite Hlogin. reflexivity.
Qed.

Lemma login_update_fault_propagates_witness :
  login sample_env (units "123456")
    (mkWorld (mkDb [guest_row "g1" "123456"] []) [false; true] None) =
  (Thrown StoreFault, mkWorld (mkDb [guest_row "g1" "123456"] []) [] None).
Proof.
  refine (proj1 (login_update_fault_propagates sample_env (units "123456")
           (mkDb [guest_row "g1" "123456"] []) None (guest_row "g1" "123456") [] _ _)).
  - discriminate.
  - vm_compute. reflexivity.
Defined.

(** With a store that answers, the same login succeeds and creates one session. *)
Example login_guest_succeeds :
  let d := mkDb [guest_row "g1" "123456"] [] in
  let r := login sample_env (units "123456") (mkWorld d [] None) in
  fst r = Returned (mkResult true (Some false) None) /\
  List.length (sessions (db (snd r))) = 1%nat.
Proof. vm_compute. split; reflexivity. Qed.

(* ================================================================= *)
(** ** The request authorizer *)

Lemma opt_str_eqb_eq a b : opt_str_eqb a b = true <-> a = Some b.
Proof.
  destruct a as [a|]; cbn; [|split; discriminate].
  rewrite str_eqb_eq. split; congruence.
Qed.

Lemma startsWith_app s prefix :
  startsWith s prefix = true <-> exists tail, s = prefix ++ tail.
Proof.
  revert s. induction prefix as [|p prefix IH]; intros s.
  - cbn. destruct s; split; intros; try reflexivity; eexists; reflexivity.
  - destruct s as [|c s]; cbn.
    + split; [discriminate | intros [tail H]; discriminate].
    + rewrite andb_true_iff, Z.eqb_eq, IH. split.
      * intros [-> [tail ->]]. exists tail. reflexivity.
      * intros [tail H]. inversion H; subst. split; [reflexivity | exists tail; reflexivity].
Qed.

Lemma bearer_candidate_iff request token :
  bearer_candidate request = Some token <->
  authorization request = Some (units "Bearer " ++ token).
Proof.
  unfold bearer_candidate. destruct (authorization request) as [h|]; [|split; discriminate].
  destruct (startsWith h (units "Bearer ")) eqn:E.
  - apply startsWith_app in E. destruct E as [tail ->].
    change (skipn 7 (units "Bearer " ++ tail)) with tail.
    split; intros H; inversion H; subst; reflexivity.
  - split; [discriminate|]. intros H. inversion H; subst.
    assert (startsWith (units "Bearer " ++ token) (units "Bearer ") = true)
      by (apply startsWith_app; exists token; reflexivity).
    congruence.
Qed.

Lemma validateApiToken_valid cfg request :
  valid (validateApiToken cfg request) = true <->
  falsy (API_AUTH_TOKEN cfg) = true \/
  exists token, API_AUTH_TOKEN cfg = Some token /\
    (bearer_candidate request = Some token \/ x_api_token request = Some token).
Proof.
  unfold validateApiToken. destruct (falsy (API_AUTH_TOKEN cfg)) eqn:Hf.
  - split; [left; reflexivity | reflexivity].
  - destruct (API_AUTH_TOKEN cfg) as [token|]; [|discriminate].
    destruct (opt_str_eqb (bearer_candidate request) token) eqn:E1.
    + apply opt_str_eqb_eq in E1. split; [|reflexivity].
      intros _. right. exists token. split; [reflexivity | left; exact E1].
    + destruct (opt_str_eqb (x_api_token request) token) eqn:E2.
      * apply opt_str_eqb_eq in E2. split; [|reflexivity].
        intros _. right. exists token. split; [reflexivity | right; exact E2].
      * cbn. split; [discriminate|]. intros [H | [t [Ht [H | H]]]]; [discriminate| |];
          inversion Ht; subst; apply opt_str_eqb_eq in H; congruence.
Qed.

(** C2: [validateRequest] is the ordered dual-mode check.  With no static
    token configured (unset or empty) it authorizes, whatever the headers
    and the session, and consults nothing.  With a token configured and an
    exactly equal candidate after ['Bearer '] in the [Authorization] header
    or in the [x-api-token] header it authorizes without touching the world
    (no session lookup).  Otherwise it is [getSession] that decides: it
    authorizes iff the session is authenticated and answers a 401 with an
    error body when it is not. *)
Theorem validateRequest_dual_mode (cfg : Config) (request : Request) (e : Env) (w : World) :
  (falsy (API_AUTH_TOKEN cfg) = true ->
     validateRequest cfg request e w = (Returned (mkValidation true None), w)) /\
  (forall token, API_AUTH_TOKEN cfg = Some token -> token <> [] ->
     authorization request = Some (units "Bearer " ++ token) \/
     x_api_token request = Some token ->
     validateRequest cfg request e w = (Returned (mkValidation true None), w)) /\
  (forall token, API_AUTH_TOKEN cfg = Some token -> token <> [] ->
     authorization request <> Some (units "Bearer " ++ token) ->
     x_api_token request <> Some token ->
     forall session w', getSession e w = (Returned session, w') ->
     (valid (returned_validation (validateRequest cfg request e w)) = true <->
        is_authenticated session = true) /\
     (is_authenticated session = true ->
        validateRequest cfg request e w = (Returned (mkValidation true None), w')) /\
     (is_authenticated session = false ->
        validateRequest cfg request e w =
        (Returned (mkValidation false
           (Some (json (ErrorBody
              (Some "Unauthorized - Please provide a valid API token or login"%string)) 401))),
         w'))).
Proof.
  split; [|split].
  - intros Hf. unfold validateRequest.
    assert (Hv : valid (validateApiToken cfg request) = true)
      by (apply validateApiToken_valid; left; exact Hf).
    rewrite Hv. reflexivity.
  - intros token Hcfg Hne Hcand. unfold validateRequest.
    assert (Hv : valid (validateApiToken cfg request) = true).
    { apply validateApiToken_valid. right. exists token. split; [exact Hcfg|].
      destruct Hcand as [H | H]; [left; apply bearer_candidate_iff; exact H | right; exact H]. }
    rewrite Hv. reflexivity.
  - intros token Hcfg Hne Hauth Hx session w' Hsess. unfold validateRequest.
    assert (Hv : valid (validateApiToken cfg request) = false).
    { destruct (valid (validateApiToken cfg request)) eqn:E; [|reflexivity].
      apply validateApiToken_valid in E. destruct E as [E | [t [Ht [E | E]]]].
      - rewrite Hcfg in E. destruct token; [contradiction | discriminate].
      - rewrite Hcfg in Ht. inversion Ht; subst. apply bearer_candidate_iff in E. contradiction.
      - rewrite Hcfg in Ht. inversion Ht; subst. contradiction. }
    rewrite Hv. unfold bind. rewrite Hsess.
    destruct (is_authenticated session); cbn; repeat split; intros; congruence.
Qed.


Lemma validateRequest_dual_mode_witness :
  let cfg := mkConfig (Some (units "T")) in
  let request := mkRequest (Some (units "Bearer T")) None None in
  validateRequest cfg request sample_env (mkWorld empty_db [] None) =
  (Returned (mkValidation true None), mkWorld empty_db [] None).
Proof.
  intros cfg request.
  refine (proj1 (proj2 (validateRequest_dual_mode cfg request sample_env
                          (mkWorld empty_db [] None))) (units "T") eq_refl _ _).
  - discriminate.
  - left. reflexivity.
Defined.

Example bearer_scheme_is_case_sensitive :
  let cfg := mkConfig (Some (units "T")) in
  let request := mkRequest (Some (units "bearer T")) None None in
  valid (validateApiToken cfg request) = false.
Proof. reflexivity. Qed.

Example invalid_token_valid_session :
  let cfg := mkConfig (Some (units "T")) in
  let request := mkRequest (Some (units "Bearer wrong")) None (Some (units "tok")) in
  let d := mkDb [guest_row "g1" "123456"]
             [session_row "s1" "g1" "tok" (now sample_env + 1000)] in
  fst (validateRequest cfg request sample_env (mkWorld d [] (cookie request))) =
  Returned (mkValidation true None).
Proof. reflexivity. Qed.

(* ================================================================= *)
(** ** The admin-only check of the passcode routes *)

Lemma handler_not_admin e c d fl j :
  is_admin_call c = true ->
  is_admin_session (current_session d j (now e)) = false ->
  exists response fl',
    handler e c (mkWorld d fl j) = (Returned response, mkWorld d fl' j) /\
    (status response = 401 \/ status response = 500) /\
    (quiet fl -> response = unauthorized).
Proof.
  intros Hc Hs.
  assert (G : forall (handler_body : option SessionInfo -> M Response) (msg : string),
    (forall w, handler_body (current_session d j (now e)) w = (Returned unauthorized, w)) ->
    (handler_body None = ret unauthorized) ->
    exists response fl',
      try_catch (session <- getSession e ;; handler_body session)
        (fun _ => ret (json (ErrorBody (Some msg)) 500)) (mkWorld d fl j) =
        (Returned response, mkWorld d fl' j) /\
      (status response = 401 \/ status response = 500) /\
      (quiet fl -> response = unauthorized)).
  { intros body msg Hbody Hnone. unfold try_catch, bind. rewrite getSession_run.
    destruct (falsy j) eqn:Hf.
    - rewrite Hnone. exists unauthorized, fl.
      split; [reflexivity | split; [left; reflexivity | reflexivity]].
    - destruct fl as [|[|] rest].
      + rewrite Hbody. exists unauthorized, [].
        split; [reflexivity | split; [left; reflexivity | reflexivity]].
      + exists (json (ErrorBody (Some msg)) 500), rest.
        split; [reflexivity | split; [right; reflexivity|]].
        intros Hq. specialize (Hq true (or_introl eq_refl)). discriminate.
      + rewrite Hbody. exists unauthorized, rest.
        split; [reflexivity | split; [left; reflexivity | reflexivity]]. }
  destruct c; try discriminate; cbn [handler];
    [unfold passcodes_GET | unfold passcodes_POST | unfold passcodes_DELETE];
    apply G; try reflexivity; intros w; rewrite Hs; reflexivity.
Qed.

Lemma admin_path_gated c :
  is_admin_call c = true ->
  startsWith (pathname_of c) (units "/api/") = true /\ exempt (pathname_of c) = false.
Proof.
  intros Hc. destruct c; try discriminate; (split; [reflexivity|]);
    unfold exempt; repeat (apply orb_false_iff; split);
    apply str_eqb_neq; cbn; intros H; discriminate H.
Qed.

(** C4: each of the three passcode-management handlers answers
    401 'Unauthorized' and does nothing else whenever [getSession] returns
    anything but an authenticated admin session.  Through the whole request
    path (middleware, then handler) the answer is 401 whatever static API
    token is configured and presented, and the tables are untouched: a valid
    API token alone never authorizes these operations.  (Should the store
    fail instead of answering, the answer is 401 or 500, never the
    operation.) *)
Theorem passcode_routes_require_admin_session (e : Env) (c : Call) :
  is_admin_call c = true ->
  (forall w session w', getSession e w = (Returned session, w') ->
     is_admin_session session = false ->
     handler e c w = (Returned unauthorized, w')) /\
  (forall cfg request fl d,
     is_admin_session (current_session d (cookie request) (now e)) = false ->
     snd (handle cfg request e fl c d) = d /\
     (status (fst (handle cfg request e fl c d)) = 401 \/
      status (fst (handle cfg request e fl c d)) = 500) /\
     (quiet fl -> status (fst (handle cfg request e fl c d)) = 401)).
Proof.
  intros Hc. split.
  - intros w session w' Hsess Hna.
    destruct c; try discriminate; cbn [handler];
      [unfold passcodes_GET | unfold passcodes_POST | unfold passcodes_DELETE];
      unfold try_catch, bind; rewrite Hsess, Hna; reflexivity.
  - intros cfg request fl d Hna.
    destruct (admin_path_gated c Hc) as [Hpre Hex].
    unfold handle, serve, middleware, bind. rewrite Hpre, Hex.
    unfold validateRequest.
    destruct (valid (validateApiToken cfg request)).
    + cbn [ret negb valid].
      destruct (handler_not_admin e c d fl (cookie request) Hc Hna)
        as (response & fl' & -> & Hst & Hq).
      cbn [fst snd db]. split; [reflexivity | split; [exact Hst|]].
      intros Hquiet. rewrite (Hq Hquiet). reflexivity.
    + unfold bind. rewrite getSession_run.
      destruct (falsy (cookie request)) eqn:Hf.
      * cbn. split; [reflexivity | split; [left; reflexivity | reflexivity]].
      * destruct fl as [|[|] rest].
        -- destruct (is_authenticated (current_session d (cookie request) (now e))) eqn:Ha.
           ++ cbn [ret negb valid tl].
              destruct (handler_not_admin e c d [] (cookie request) Hc Hna)
                as (response & fl' & -> & Hst & Hq).
              cbn [fst snd db]. split; [reflexivity | split; [exact Hst|]].
              intros Hquiet. rewrite (Hq quiet_nil). reflexivity.
           ++ cbn. split; [reflexivity | split; [left; reflexivity | reflexivity]].
        -- cbn. split; [reflexivity | split; [right; reflexivity|]].
           intros Hq. specialize (Hq true (or_introl eq_refl)). discriminate.
        -- destruct (is_authenticated (current_session d (cookie request) (now e))) eqn:Ha.
           ++ cbn [ret negb valid tl].
              destruct (handler_not_admin e c d rest (cookie request) Hc Hna)
                as (response & fl' & -> & Hst & Hq).
              cbn [fst snd db]. split; [reflexivity | split; [exact Hst|]].
              intros Hquiet. rewrite Hq; [reflexivity|].
              intros b Hb. apply Hquiet. right. exact Hb.
           ++ cbn. split; [reflexivity | split; [left; reflexivity | reflexivity]].
Qed.

Lemma passcode_routes_require_admin_session_witness :
  let cfg := mkConfig (Some (units "T")) in
  let request := mkRequest (Some (units "Bearer T")) None None in
  let d := mkDb [admin_row "a1" "111111"] [] in
  handle cfg request sample_env [] (DeletePasscodes (units "a1")) d = (unauthorized, d) /\
  handle cfg request sample_env [] (PostPasscodes
      (Some (mkCreateBody (Some (units "222222")) (Some (units "Eve")) (Some true)))) d =
    (unauthorized, d) /\
  snd (handle cfg request sample_env [] GetPasscodes d) = d.
Proof.
  intros cfg request d. split; [reflexivity | split; [reflexivity|]].
  apply (proj2 (passcode_routes_require_admin_session sample_env GetPasscodes eq_refl)
           cfg request [] d).
  reflexivity.
Defined.


(* ================================================================= *)
(** ** Predicates of the passcode table *)

Lemma same_rows_ids l l' : same_rows l l' -> map pc_id l' = map pc_id l.
Proof.
  unfold same_rows. intros H.
  assert (E : forall k, map pc_id k = map (fun r => fst (fst (fst (fst r)))) (map row_identity k))
    by (intros k; rewrite map_map; reflexivity).
  rewrite !E, H. reflexivity.
Qed.

Lemma same_rows_admins l l' : same_rows l l' -> map pc_isAdmin l' = map pc_isAdmin l.
Proof.
  unfold same_rows. intros H.
  assert (E : forall k, map pc_isAdmin k = map (fun r => snd (fst r)) (map row_identity k))
    by (intros k; rewrite map_map; reflexivity).
  rewrite !E, H. reflexivity.
Qed.

Lemma has_admin_map d : has_admin d <-> In true (map pc_isAdmin (passcodes d)).
Proof.
  unfold has_admin. rewrite in_map_iff. split; intros [p H]; exists p; tauto.
Qed.

Lemma pc_only_administered : pc_only administered.
Proof.
  intros d d' H [Hu Ha]. split.
  - unfold unique_ids in *. rewrite (same_rows_ids _ _ H). exact Hu.
  - apply has_admin_map. rewrite (same_rows_admins _ _ H). apply has_admin_map, Ha.
Qed.

Lemma pc_only_no_passcodes : pc_only no_passcodes.
Proof.
  intros d d' H E. unfold no_passcodes, same_rows in *. rewrite E in H.
  destruct (passcodes d'); [reflexivity | discriminate].
Qed.

Lemma admin_invariant_cases d : admin_invariant d <-> no_passcodes d \/ administered d.
Proof.
  unfold admin_invariant, administered, no_passcodes, last_admin, unique_ids. split.
  - intros [Hu Hl]. destruct (passcodes d) as [|p l] eqn:E; [left; reflexivity|].
    right. split; [exact Hu | apply Hl; discriminate].
  - intros [E | [Hu Ha]].
    + rewrite E. split; [constructor | intros C; contradiction].
    + split; [exact Hu | intros _; exact Ha].
Qed.

Lemma pc_only_admin_invariant : pc_only admin_invariant.
Proof.
  intros d d' H Hi. apply admin_invariant_cases. apply admin_invariant_cases in Hi.
  destruct Hi as [E | A]; [left; eapply pc_only_no_passcodes | right; eapply pc_only_administered];
    eassumption.
Qed.

Lemma same_rows_refl l : same_rows l l.
Proof. reflexivity. Qed.

Lemma same_rows_touch id t l : same_rows l (map (set_lastUsedAt id t) l).
Proof.
  unfold same_rows. rewrite map_map. apply map_ext. intros p.
  unfold set_lastUsedAt. destruct (str_eqb (pc_id p) id); reflexivity.
Qed.

Lemma NoDup_map_filter {A B} (f : A -> B) (p : A -> bool) l :
  NoDup (map f l) -> NoDup (map f (filter p l)).
Proof.
  induction l as [|a l IH]; intros H; [constructor|].
  cbn [map] in H. inversion H as [|? ? Hnotin Hnd]; subst.
  cbn [filter]. destruct (p a); [|apply IH, Hnd].
  cbn [map]. constructor; [|apply IH, Hnd].
  intros Hin. apply Hnotin. apply in_map_iff in Hin. destruct Hin as [x [Hx Hin]].
  apply filter_In in Hin. apply in_map_iff. exists x. tauto.
Qed.

Lemma existsb_id_false id l :
  existsb (fun p => str_eqb (pc_id p) id) l = false -> ~ In id (map pc_id l).
Proof.
  intros H Hin. apply in_map_iff in Hin. destruct Hin as [p [Hid Hp]].
  assert (existsb (fun p => str_eqb (pc_id p) id) l = true)
    by (apply existsb_exists; exists p; split; [exact Hp | apply str_eqb_eq; exact Hid]).
  congruence.
Qed.

(** With unique ids, the row found by id is the only row of that id. *)
Lemma find_passcode_unique d p :
  unique_ids d -> In p (passcodes d) -> find_passcode (pc_id p) d = Some p.
Proof.
  unfold unique_ids, find_passcode. induction (passcodes d) as [|q l IH]; intros Hu Hin;
    [contradiction|].
  cbn [map] in Hu. inversion Hu as [|? ? Hnotin Hnd]; subst. cbn [filter].
  destruct Hin as [-> | Hin].
  - rewrite str_eqb_refl. reflexivity.
  - destruct (str_eqb (pc_id q) (pc_id p)) eqn:E; [|apply IH; assumption].
    apply str_eqb_eq in E. exfalso. apply Hnotin. rewrite E. apply in_map. exact Hin.
Qed.

(** Two admin rows: one of them has another id than [id]. *)
Lemma other_admin d id :
  unique_ids d -> (2 <= admin_count d)%nat ->
  exists q, In q (passcodes d) /\ pc_isAdmin q = true /\ pc_id q <> id.
Proof.
  unfold unique_ids, admin_count. intros Hu Hc.
  assert (Hnd : NoDup (map pc_id (filter pc_isAdmin (passcodes d))))
    by (apply NoDup_map_filter; exact Hu).
  destruct (filter pc_isAdmin (passcodes d)) as [|a [|b l]] eqn:E; cbn in Hc; try lia.
  assert (Ha : In a (filter pc_isAdmin (passcodes d))) by (rewrite E; left; reflexivity).
  assert (Hb : In b (filter pc_isAdmin (passcodes d))) by (rewrite E; right; left; reflexivity).
  apply filter_In in Ha. apply filter_In in Hb.
  cbn [map] in Hnd. inversion Hnd as [|? ? Hnotin _]; subst.
  destruct (jsstring_eq_dec (pc_id a) id) as [Heq | Hne].
  - exists b. repeat split; try tauto. intros Hbid. apply Hnotin. left. congruence.
  - exists a. repeat split; tauto.
Qed.

Lemma delete_keeps_administered d id sessions' :
  administered d ->
  is_admin_row (find_passcode id d) && Nat.leb (admin_count d) 1 = false ->
  administered
    (mkDb (filter (fun p => negb (str_eqb (pc_id p) id)) (passcodes d)) sessions').
Proof.
  intros [Hu [p0 [Hp0 Hadm0]]] Hguard. split.
  - unfold unique_ids. cbn [passcodes]. apply NoDup_map_filter. exact Hu.
  - assert (G : exists q, In q (passcodes d) /\ pc_isAdmin q = true /\ pc_id q <> id).
    { destruct (jsstring_eq_dec (pc_id p0) id) as [Heq | Hne];
        [|exists p0; repeat split; assumption].
      rewrite <- Heq in Hguard. rewrite (find_passcode_unique d p0 Hu Hp0) in Hguard.
      cbn [is_admin_row] in Hguard. rewrite Hadm0 in Hguard. cbn [andb] in Hguard.
      apply Nat.leb_gt in Hguard. rewrite <- Heq. apply other_admin; [exact Hu | lia]. }
    destruct G as [q [Hq [Hadm Hne]]]. exists q. split; [|exact Hadm].
    cbn [passcodes]. apply filter_In. split; [exact Hq|].
    apply negb_true_iff, str_eqb_neq. exact Hne.
Qed.

Lemma insert_keeps_administered d row :
  administered d ->
  existsb (fun p => str_eqb (pc_id p) (pc_id row)) (passcodes d) = false ->
  administered (mkDb (passcodes d ++ [row]) (sessions d)).
Proof.
  intros [Hu [p0 [Hp0 Hadm0]]] Hfresh. split.
  - unfold unique_ids in *. cbn [passcodes]. rewrite map_app. cbn [map].
    apply NoDup_app; [exact Hu | constructor; [intros [] | constructor] |].
    intros x Hx [<- | []]. apply (existsb_id_false _ _ Hfresh), Hx.
  - exists p0. split; [cbn [passcodes]; apply in_or_app; left; exact Hp0 | exact Hadm0].
Qed.

Lemma insert_admin_administered d row :
  no_passcodes d -> pc_isAdmin row = true ->
  administered (mkDb (passcodes d ++ [row]) (sessions d)).
Proof.
  unfold no_passcodes. intros E Hadm. split.
  - unfold unique_ids. cbn [passcodes]. rewrite E. cbn. constructor; [intros [] | constructor].
  - exists row. split; [cbn [passcodes]; rewrite E; left; reflexivity | exact Hadm].
Qed.


(* ================================================================= *)
(** ** What each operation keeps *)

Section Keeps.
Context {A B : Type} (I : Db -> Prop).

Lemma keeps_ret (a : A) : keeps I (ret a).
Proof. intros w H. exact H. Qed.

Lemma keeps_throw (e : Exn) : keeps I (@throw A e).
Proof. intros w H. exact H. Qed.

Lemma keeps_bind (m : M A) (k : A -> M B) :
  keeps I m -> (forall a, keeps I (k a)) -> keeps I (bind m k).
Proof.
  intros Hm Hk. unfold keeps.
  apply (triple_bind _ m k (fun _ w' => I (db w'))); [exact Hm | exact Hk | auto].
Qed.

Lemma keeps_try_catch (m : M A) (h : Exn -> M A) :
  keeps I m -> (forall e, keeps I (h e)) -> keeps I (try_catch m h).
Proof.
  intros Hm Hh. unfold keeps.
  apply (triple_try_catch _ m h (fun _ w' => I (db w'))); [exact Hm | auto | exact Hh].
Qed.

Lemma keeps_store_call (op : Db -> Outcome A * Db) :
  (forall d, I d -> I (snd (op d))) -> keeps I (store_call op).
Proof.
  intros H. apply triple_store_call.
  - intros w rest Hw _. exact Hw.
  - intros w Hw. cbn [db]. apply H, Hw.
Qed.

Lemma keeps_readonly (m : M A) : readonly m -> keeps I m.
Proof. intros H w Hw. rewrite H. exact Hw. Qed.

End Keeps.

Lemma keeps_request_json {A} I (parsed : option A) : keeps I (request_json parsed).
Proof. destruct parsed; [apply keeps_ret | apply keeps_throw]. Qed.

Lemma readonly_select_passcodes p : readonly (select_passcodes p).
Proof.
  intros [d fl j]. unfold select_passcodes. store_step; reflexivity.
Qed.

Lemma readonly_hasAnyPasscodes : readonly hasAnyPasscodes.
Proof.
  intros [d fl j]. rewrite hasAnyPasscodes_run. destruct fl as [|[|] rest]; reflexivity.
Qed.

Lemma readonly_getSession e : readonly (getSession e).
Proof. intros w. apply getSession_readonly. Qed.

Lemma readonly_listPasscodes : readonly listPasscodes.
Proof. intros [d fl j]. unfold listPasscodes. store_step; reflexivity. Qed.

Lemma readonly_validateRequest cfg request e : readonly (validateRequest cfg request e).
Proof.
  intros w. unfold validateRequest. destruct (valid (validateApiToken cfg request));
    [reflexivity|].
  unfold bind. pose proof (readonly_getSession e w) as H.
  destruct (getSession e w) as [[session|ex] w']; cbn [snd] in *; [|exact H].
  destruct (is_authenticated session); exact H.
Qed.

Lemma readonly_middleware cfg request pathname e :
  readonly (middleware cfg request pathname e).
Proof.
  intros w. unfold middleware. destruct (startsWith pathname (units "/api/")); [|reflexivity].
  destruct (exempt pathname); [reflexivity|].
  unfold bind. pose proof (readonly_validateRequest cfg request e w) as H.
  destruct (validateRequest cfg request e w) as [[auth|ex] w']; cbn [snd] in *; [|exact H].
  destruct (negb (valid auth)); exact H.
Qed.

(** [login] only touches [lastUsedAt] and the sessions. *)
Lemma keeps_login I e code : pc_only I -> keeps I (login e code).
Proof.
  intros Hpc. unfold login.
  apply keeps_bind; [apply keeps_readonly, readonly_select_passcodes|].
  intros [|passcode rows]; [apply keeps_ret|].
  apply keeps_bind.
  { apply keeps_store_call. intros d Hd. cbn [snd].
    apply (Hpc d); [|exact Hd]. cbn [passcodes]. apply same_rows_touch. }
  intros _. apply keeps_bind.
  { apply keeps_store_call. intros d Hd.
    repeat match goal with |- context [if ?b then _ else _] => destruct b end;
      cbn [snd]; try exact Hd.
    apply (Hpc d); [reflexivity | exact Hd]. }
  intros _. apply keeps_bind; [|intros; apply keeps_ret].
  intros w Hw. exact Hw.
Qed.

(** [logout] only touches the sessions. *)
Lemma keeps_logout I : pc_only I -> keeps I logout.
Proof.
  intros Hpc. unfold logout.
  apply keeps_bind; [intros w Hw; exact Hw|]. intros token.
  apply keeps_bind; [|intros _ w Hw; exact Hw].
  destruct (falsy token); [apply keeps_ret|].
  destruct token as [token|]; [|apply keeps_ret].
  apply keeps_store_call. intros d Hd. cbn [snd].
  apply (Hpc d); [reflexivity | exact Hd].
Qed.

Lemma keeps_createPasscode_administered e code name adm :
  keeps administered (createPasscode e code name adm).
Proof.
  unfold createPasscode. destruct (negb (six_digits code)); [apply keeps_ret|].
  apply keeps_bind; [apply keeps_readonly, readonly_select_passcodes|].
  intros [|existing rows]; [|apply keeps_ret].
  apply keeps_bind; [|intros; apply keeps_ret].
  apply keeps_store_call. intros d Hd.
  destruct (existsb _ (passcodes d)) eqn:E; cbn [snd]; [exact Hd|].
  apply insert_keeps_administered; assumption.
Qed.

(** The first passcode, created as an admin, establishes the invariant. *)
Lemma createPasscode_first_admin e code name :
  triple (fun w => no_passcodes (db w)) (createPasscode e code name true)
         (fun _ w' => admin_invariant (db w')).
Proof.
  assert (W : forall d, no_passcodes d -> admin_invariant d)
    by (intros d Hd; apply admin_invariant_cases; left; exact Hd).
  unfold createPasscode. destruct (negb (six_digits code)).
  { apply triple_ret. intros w Hw. apply W, Hw. }
  eapply triple_bind with (R := fun _ w' => no_passcodes (db w')).
  - apply (keeps_readonly no_passcodes), readonly_select_passcodes.
  - intros [|existing rows]; [|apply triple_ret; intros w Hw; apply W, Hw].
    eapply triple_bind with (R := fun _ w' => admin_invariant (db w')).
    + apply triple_store_call.
      * intros w rest Hw _. apply W, Hw.
      * intros w Hw. cbn [db].
        destruct (existsb _ (passcodes (db w))); cbn [snd]; [apply W, Hw|].
        apply admin_invariant_cases. right.
        apply insert_admin_administered; [exact Hw | reflexivity].
    + intros _. apply triple_ret. auto.
    + auto.
  - intros ex w Hw. apply W, Hw.
Qed.

Lemma keeps_deletePasscode_administered id : keeps administered (deletePasscode id).
Proof.
  intros [d fl j] HI. cbn [db] in HI. unfold keeps, triple. cbn [db].
  destruct (deletePasscode_cases id d fl j) as [-> | (u & _ & G & ->)]; [exact HI|].
  apply delete_keeps_administered; assumption.
Qed.

Lemma keeps_deletePasscode_no_passcodes id : keeps no_passcodes (deletePasscode id).
Proof.
  intros [d fl j] HI. cbn [db] in HI. unfold no_passcodes in HI.
  destruct (deletePasscode_cases id d fl j) as [-> | (u & _ & _ & ->)]; [exact HI|].
  unfold no_passcodes. cbn [passcodes]. rewrite HI. reflexivity.
Qed.


(* ================================================================= *)
(** ** The handlers keep the invariant *)

Lemma current_session_admin d j t :
  is_admin_session (current_session d j t) = true -> has_admin d.
Proof.
  destruct (current_session d j t) as [info|] eqn:E; [|discriminate].
  apply current_session_some in E. destruct E as (s & p & Hlive & ->).
  cbn. intros Hadm. destruct Hlive as [token (_ & _ & _ & _ & _ & Hp & _)].
  exists p. split; assumption.
Qed.

Lemma keeps_normal_login I e code : pc_only I -> keeps I (normal_login e code).
Proof.
  intros Hpc. unfold normal_login. apply keeps_bind; [apply keeps_login, Hpc|].
  intros result. destruct (negb (success result)); apply keeps_ret.
Qed.

Lemma keeps_login_POST_normal I e parsed : pc_only I -> keeps I (login_POST_normal e parsed).
Proof.
  intros Hpc. unfold login_POST_normal.
  apply keeps_try_catch; [|intros; apply keeps_ret].
  apply keeps_bind; [apply keeps_request_json|]. intros code.
  destruct (falsy code); [apply keeps_ret|].
  destruct code as [code|]; [|apply keeps_ret].
  apply keeps_bind; [apply keeps_readonly, readonly_hasAnyPasscodes|].
  intros _. apply keeps_normal_login, Hpc.
Qed.

Lemma keeps_first_run_setup_administered e code :
  keeps administered (first_run_setup e code).
Proof.
  unfold first_run_setup. destruct (negb (six_digits code)); [apply keeps_ret|].
  apply keeps_bind; [apply keeps_createPasscode_administered|]. intros _.
  apply keeps_bind; [apply keeps_login, pc_only_administered|]. intros _.
  apply keeps_ret.
Qed.

Lemma first_run_setup_establishes e code :
  triple (fun w => no_passcodes (db w)) (first_run_setup e code)
         (fun _ w' => admin_invariant (db w')).
Proof.
  unfold first_run_setup. destruct (negb (six_digits code)).
  { apply triple_ret. intros w Hw. apply admin_invariant_cases. left. exact Hw. }
  eapply triple_bind; [apply createPasscode_first_admin | | auto].
  intros r. cbv beta. apply (keeps_bind admin_invariant);
    [apply keeps_login, pc_only_admin_invariant | intros; apply keeps_ret].
Qed.

Lemma keeps_login_POST_administered e parsed : keeps administered (login_POST e parsed).
Proof.
  unfold login_POST. apply keeps_try_catch; [|intros; apply keeps_ret].
  apply keeps_bind; [apply keeps_request_json|]. intros code.
  destruct (falsy code); [apply keeps_ret|].
  destruct code as [code|]; [|apply keeps_ret].
  apply keeps_bind; [apply keeps_readonly, readonly_hasAnyPasscodes|].
  intros has. destruct (negb has).
  - apply keeps_first_run_setup_administered.
  - apply keeps_normal_login, pc_only_administered.
Qed.

Lemma keeps_login_POST_invariant e parsed : keeps admin_invariant (login_POST e parsed).
Proof.
  unfold login_POST. apply keeps_try_catch; [|intros; apply keeps_ret].
  apply keeps_bind; [apply keeps_request_json|]. intros code.
  destruct (falsy code); [apply keeps_ret|].
  destruct code as [code|]; [|apply keeps_ret].
  apply keeps_bind; [apply keeps_readonly, readonly_hasAnyPasscodes|].
  intros has. destruct (negb has); [|apply keeps_normal_login, pc_only_admin_invariant].
  intros w Hw. apply admin_invariant_cases in Hw. destruct Hw as [E | Ha].
  - apply (first_run_setup_establishes e code w E).
  - apply admin_invariant_cases. right.
    apply (keeps_first_run_setup_administered e code w Ha).
Qed.

Lemma keeps_status_GET I e : keeps I (status_GET e).
Proof.
  unfold status_GET. apply keeps_try_catch; [|intros; apply keeps_ret].
  apply keeps_bind; [apply keeps_readonly, readonly_hasAnyPasscodes|].
  intros has. destruct (negb has); [apply keeps_ret|].
  apply keeps_bind; [apply keeps_readonly, readonly_getSession|].
  intros [s|]; apply keeps_ret.
Qed.

Lemma keeps_logout_POST I : pc_only I -> keeps I logout_POST.
Proof.
  intros Hpc. unfold logout_POST.
  apply keeps_bind; [apply keeps_logout, Hpc | intros; apply keeps_ret].
Qed.

Lemma keeps_admin_handler_administered e c :
  is_admin_call c = true -> keeps administered (handler e c).
Proof.
  intros Hc. destruct c; try discriminate; cbn [handler].
  - unfold passcodes_GET. apply keeps_try_catch; [|intros; apply keeps_ret].
    apply keeps_bind; [apply keeps_readonly, readonly_getSession|]. intros session.
    destruct (negb (is_admin_session session)); [apply keeps_ret|].
    apply keeps_bind; [apply keeps_readonly, readonly_listPasscodes | intros; apply keeps_ret].
  - unfold passcodes_POST. apply keeps_try_catch; [|intros; apply keeps_ret].
    apply keeps_bind; [apply keeps_readonly, readonly_getSession|]. intros session.
    destruct (negb (is_admin_session session)); [apply keeps_ret|].
    apply keeps_bind; [apply keeps_request_json|]. intros b.
    destruct (falsy (b_code b) || falsy (b_name b)); [apply keeps_ret|].
    apply keeps_bind; [apply keeps_createPasscode_administered|].
    intros result. destruct (negb (success result)); apply keeps_ret.
  - unfold passcodes_DELETE. apply keeps_try_catch; [|intros; apply keeps_ret].
    apply keeps_bind; [apply keeps_readonly, readonly_getSession|]. intros session.
    destruct (negb (is_admin_session session)); [apply keeps_ret|].
    apply keeps_bind; [apply keeps_deletePasscode_administered|].
    intros result. destruct (negb (success result)); apply keeps_ret.
Qed.

(** Without an admin passcode nobody holds an admin session, so the
    admin routes leave the tables alone. *)
Lemma admin_handler_needs_admin e c d fl j :
  is_admin_call c = true -> ~ has_admin d ->
  db (snd (handler e c (mkWorld d fl j))) = d.
Proof.
  intros Hc Hno.
  assert (Hs : is_admin_session (current_session d j (now e)) = false).
  { destruct (is_admin_session (current_session d j (now e))) eqn:E; [|reflexivity].
    exfalso. apply Hno. apply (current_session_admin d j (now e) E). }
  destruct (handler_not_admin e c d fl j Hc Hs) as (response & fl' & -> & _).
  reflexivity.
Qed.

Lemma no_passcodes_no_admin d : no_passcodes d -> ~ has_admin d.
Proof. unfold no_passcodes. intros E [p [Hp _]]. rewrite E in Hp. contradiction. Qed.

Lemma keeps_handler_administered e c : keeps administered (handler e c).
Proof.
  destruct (is_admin_call c) eqn:Hc; [apply keeps_admin_handler_administered, Hc|].
  destruct c; try discriminate; cbn [handler].
  - apply keeps_login_POST_administered.
  - apply keeps_status_GET.
  - apply keeps_logout_POST, pc_only_administered.
Qed.

Lemma keeps_handler_invariant e c : keeps admin_invariant (handler e c).
Proof.
  destruct (is_admin_call c) eqn:Hc.
  - intros [d fl j] Hw. cbn [db] in Hw.
    apply admin_invariant_cases in Hw. destruct Hw as [E | Ha].
    + rewrite (admin_handler_needs_admin e c d fl j Hc (no_passcodes_no_admin d E)).
      apply admin_invariant_cases. left. exact E.
    + apply admin_invariant_cases. right.
      apply (keeps_admin_handler_administered e c Hc (mkWorld d fl j) Ha).
  - destruct c; try discriminate; cbn [handler].
    + apply keeps_login_POST_invariant.
    + apply keeps_status_GET.
    + apply keeps_logout_POST, pc_only_admin_invariant.
Qed.

Lemma keeps_serve I cfg request e c :
  keeps I (handler e c) -> keeps I (serve cfg request e c).
Proof.
  intros H. unfold serve.
  apply keeps_bind; [apply keeps_readonly, readonly_middleware|].
  intros [response|]; [apply keeps_ret | exact H].
Qed.

Lemma handle_db cfg request e fl c d :
  snd (handle cfg request e fl c d) =
  db (snd (serve cfg request e c (mkWorld d fl (cookie request)))).
Proof.
  unfold handle. destruct (serve cfg request e c _) as [[response|ex] w]; reflexivity.
Qed.

Lemma handle_keeps I cfg request e fl c d :
  keeps I (handler e c) -> I d -> I (snd (handle cfg request e fl c d)).
Proof.
  intros Hk Hd. rewrite handle_db.
  apply (keeps_serve I cfg request e c Hk (mkWorld d fl (cookie request)) Hd).
Qed.

Lemma step_invariant d d' : admin_invariant d -> step d d' -> admin_invariant d'.
Proof.
  intros Hd Hs. revert Hd. destruct Hs. intros Hd.
  apply handle_keeps; [apply keeps_handler_invariant | exact Hd].
Qed.

Lemma step_administered d d' : administered d -> step d d' -> administered d'.
Proof.
  intros Hd Hs. revert Hd. destruct Hs. intros Hd.
  apply handle_keeps; [apply keeps_handler_administered | exact Hd].
Qed.

Lemma reachable_invariant d0 d :
  admin_invariant d0 -> reachable_from d0 d -> admin_invariant d.
Proof.
  intros H0 Hr. induction Hr as [|d d' _ IH Hs]; [exact H0|].
  eapply step_invariant; eassumption.
Qed.

Lemma reachable_administered d0 d :
  administered d0 -> reachable_from d0 d -> administered d.
Proof.
  intros H0 Hr. induction Hr as [|d d' _ IH Hs]; [exact H0|].
  eapply step_administered; eassumption.
Qed.

Lemma empty_db_invariant : admin_invariant empty_db.
Proof. apply admin_invariant_cases. left. reflexivity. Qed.

Lemma keeps_invariant_split {A} (m : M A) :
  keeps no_passcodes m -> keeps administered m -> keeps admin_invariant m.
Proof.
  intros Hn Ha w Hw. apply admin_invariant_cases.
  apply admin_invariant_cases in Hw. destruct Hw as [E | H]; [left; apply Hn | right; apply Ha];
    assumption.
Qed.

(** The exported functions of [auth.ts], taken one by one. *)
Lemma library_operations_keep_invariant :
  (forall e code, keeps admin_invariant (login e code)) /\
  keeps admin_invariant logout /\
  (forall id, keeps admin_invariant (deletePasscode id)) /\
  (forall e code name adm w,
     admin_invariant (db w) -> adm = true \/ has_admin (db w) ->
     admin_invariant (db (snd (createPasscode e code name adm w)))).
Proof.
  split; [|split; [|split]].
  - intros e code. apply keeps_login, pc_only_admin_invariant.
  - apply keeps_logout, pc_only_admin_invariant.
  - intros id. apply keeps_invariant_split;
      [apply keeps_deletePasscode_no_passcodes | apply keeps_deletePasscode_administered].
  - intros e code name adm w Hw Hadm.
    apply admin_invariant_cases in Hw. destruct Hw as [E | Ha].
    + destruct Hadm as [-> | Hadm]; [|exfalso; exact (no_passcodes_no_admin _ E Hadm)].
      apply (createPasscode_first_admin e code name w E).
    + apply admin_invariant_cases. right.
      apply (keeps_createPasscode_administered e code name adm w Ha).
Qed.

(** C1: the last-admin invariant.  Every state reached from the empty store
    by requests to the boundary (login and first-run setup, session status,
    logout, listing, creating and deleting passcodes), under any clock,
    generated identifiers, tokens and store faults, has an admin passcode as
    soon as it has a passcode; and each operation preserves the predicate,
    from any state in which passcode ids are unique (the primary key).  The
    same holds of the functions [login], [logout] and [deletePasscode] on
    their own, and of [createPasscode] as the boundary calls it: for an
    admin passcode (first run) or while an admin exists (behind the
    admin-session check). *)
Theorem last_admin_invariant :
  (forall d, reachable_from empty_db d -> unique_ids d /\ last_admin d) /\
  (forall d d', unique_ids d -> last_admin d -> step d d' ->
     unique_ids d' /\ last_admin d') /\
  (forall cfg request e fl c d, unique_ids d -> last_admin d ->
     last_admin (snd (handle cfg request e fl c d))) /\
  ((forall e code, keeps admin_invariant (login e code)) /\
   keeps admin_invariant logout /\
   (forall id, keeps admin_invariant (deletePasscode id)) /\
   (forall e code name adm w,
      admin_invariant (db w) -> adm = true \/ has_admin (db w) ->
      admin_invariant (db (snd (createPasscode e code name adm w))))).
Proof.
  split; [|split; [|split]].
  - intros d Hr. apply (reachable_invariant empty_db d empty_db_invariant Hr).
  - intros d d' Hu Hl Hs. apply (step_invariant d d' (conj Hu Hl) Hs).
  - intros cfg request e fl c d Hu Hl.
    apply (step_invariant d _ (conj Hu Hl) (step_handle cfg request e fl c d)).
  - exact library_operations_keep_invariant.
Qed.

Lemma last_admin_invariant_witness :
  let d1 := snd (handle (mkConfig None) (mkRequest None None None) sample_env []
                   (PostLogin (Some (Some (units "000000")))) empty_db) in
  unique_ids d1 /\ last_admin d1.
Proof.
  intros d1. apply (proj1 last_admin_invariant).
  apply (reach_step empty_db empty_db); [apply reach_here | apply step_handle].
Defined.

(** First run: with no passcode, logging in with "000000" creates the admin
    passcode named "Admin", opens a session and answers [isAdmin: true]. *)
Example first_run_creates_admin :
  handle (mkConfig None) (mkRequest None None None) sample_env []
    (PostLogin (Some (Some (units "000000")))) empty_db =
  (json (LoginBody (Some true) (Some "Admin passcode created successfully"%string)) 200,
   mkDb [mkPasscode (units "p-new") (units "24b2262d") (units "Admin") true
           1700000000000 (Some 1700000000000)]
        [mkSession (units "s-new") (units "p-new") (generateToken (fun i => i))
           (1700000000000 + 2592000000) 1700000000000]).
Proof. vm_compute. reflexivity. Qed.

(** Called directly on an empty store, outside the boundary, [createPasscode]
    would accept a first passcode that is not an admin: it is the admin-session
    check of the route that rules this call out. *)
Example createPasscode_unguarded :
  passcodes (db (snd (createPasscode sample_env (units "123456") (units "Guest") false
                        (mkWorld empty_db [] None)))) =
  [mkPasscode (units "p-new") (units "5441bfaf") (units "Guest") false 1700000000000 None].
Proof. vm_compute. reflexivity. Qed.

(* ================================================================= *)
(** ** The first-run branch is taken at most once *)

Lemma login_POST_after_setup e parsed d fl j :
  passcodes d <> [] ->
  login_POST e parsed (mkWorld d fl j) = login_POST_normal e parsed (mkWorld d fl j).
Proof.
  intros Hne. unfold login_POST, login_POST_normal, try_catch, bind.
  destruct parsed as [code|]; [|reflexivity]. cbn [request_json ret].
  destruct (falsy code); [reflexivity|].
  destruct code as [code|]; [|reflexivity].
  rewrite hasAnyPasscodes_run.
  destruct fl as [|[|] rest]; try reflexivity;
    (destruct (passcodes d); [contradiction | reflexivity]).
Qed.

Lemma pc_only_same_rows l0 : pc_only (fun d => same_rows l0 (passcodes d)).
Proof. unfold pc_only, same_rows. intros d d' H H0. congruence. Qed.

Lemma same_rows_nonempty l l' : l <> [] -> same_rows l l' -> l' <> [].
Proof. unfold same_rows. intros Hne H ->. destruct l; [contradiction | discriminate]. Qed.

Lemma keeps_login_POST_rows l0 e parsed :
  l0 <> [] -> keeps (fun d => same_rows l0 (passcodes d)) (login_POST e parsed).
Proof.
  intros Hne [d fl j] Hw. cbn [db] in Hw.
  rewrite login_POST_after_setup by (eapply same_rows_nonempty; eassumption).
  apply (keeps_login_POST_normal _ e parsed (pc_only_same_rows l0) (mkWorld d fl j) Hw).
Qed.

Lemma admin_count_same_rows d d' :
  same_rows (passcodes d) (passcodes d') -> admin_count d' = admin_count d.
Proof.
  intros H. apply same_rows_admins in H. unfold admin_count.
  assert (E : forall l, List.length (filter pc_isAdmin l) =
                        List.length (filter (fun b : bool => b) (map pc_isAdmin l))).
  { induction l as [|p l IH]; [reflexivity|]. cbn [map filter].
    destruct (pc_isAdmin p); cbn [List.length]; rewrite IH; reflexivity. }
  rewrite !E, H. reflexivity.
Qed.

Lemma administered_nonempty d : administered d -> passcodes d <> [].
Proof. intros [_ [p [Hp _]]] E. rewrite E in Hp. contradiction. Qed.

(** C7: once a state with a passcode has been reached from the empty store,
    every later state still has a passcode (indeed an admin), so that in
    every later call of the login route [hasAnyPasscodes] answers [true]
    (unless the store fails) and the route runs exactly as the route without
    its first-run branch: it inserts no passcode, the passcode rows keep
    their identity, and the number of admins does not change. *)
Theorem first_run_setup_once (d1 d2 : Db) :
  reachable_from empty_db d1 -> passcodes d1 <> [] -> reachable_from d1 d2 ->
  passcodes d2 <> [] /\ has_admin d2 /\
  (forall fl j,
     fst (hasAnyPasscodes (mkWorld d2 fl j)) = Returned true \/
     fst (hasAnyPasscodes (mkWorld d2 fl j)) = Thrown StoreFault) /\
  (forall e parsed fl j,
     login_POST e parsed (mkWorld d2 fl j) = login_POST_normal e parsed (mkWorld d2 fl j)) /\
  (forall cfg request e fl parsed,
     same_rows (passcodes d2)
       (passcodes (snd (handle cfg request e fl (PostLogin parsed) d2))) /\
     admin_count (snd (handle cfg request e fl (PostLogin parsed) d2)) = admin_count d2).
Proof.
  intros Hr1 Hne1 Hr2.
  assert (Ha1 : administered d1).
  { pose proof (reachable_invariant empty_db d1 empty_db_invariant Hr1) as Hi.
    apply admin_invariant_cases in Hi. destruct Hi as [E | Ha]; [contradiction | exact Ha]. }
  assert (Ha2 : administered d2) by (apply (reachable_administered d1 d2 Ha1 Hr2)).
  pose proof (administered_nonempty d2 Ha2) as Hne2.
  split; [exact Hne2|]. split; [apply Ha2|]. split; [|split].
  - intros fl j. rewrite hasAnyPasscodes_run.
    destruct fl as [|[|] rest]; [left | right; reflexivity | left];
      (destruct (passcodes d2); [contradiction | reflexivity]).
  - intros e parsed fl j. apply login_POST_after_setup. exact Hne2.
  - intros cfg request e fl parsed.
    assert (Hrows : same_rows (passcodes d2)
              (passcodes (snd (handle cfg request e fl (PostLogin parsed) d2)))).
    { apply (handle_keeps (fun d => same_rows (passcodes d2) (passcodes d)));
        [apply keeps_login_POST_rows; exact Hne2 | apply same_rows_refl]. }
    split; [exact Hrows | apply admin_count_same_rows; exact Hrows].
Qed.

Lemma first_run_setup_once_witness :
  let first := handle (mkConfig None) (mkRequest None None None) sample_env []
                 (PostLogin (Some (Some (units "000000")))) in
  let d1 := snd (first empty_db) in
  admin_count (snd (handle (mkConfig None) (mkRequest None None None)
                      (mkEnv 1700000000001 (units "p-2") (units "s-2") (fun i => i)) []
                      (PostLogin (Some (Some (units "111111")))) d1)) = admin_count d1.
Proof.
  intros first d1.
  assert (H1 : reachable_from empty_db d1)
    by (apply (reach_step empty_db empty_db); [apply reach_here | apply step_handle]).
  assert (H2 : passcodes d1 <> []) by (vm_compute; discriminate).
  destruct (first_run_setup_once d1 d1 H1 H2 (reach_here d1)) as (_ & _ & _ & _ & H).
  apply H.
Defined.

(** A second first-run attempt is an ordinary failed login. *)
Example second_setup_attempt :
  let d1 := snd (handle (mkConfig None) (mkRequest None None None) sample_env []
                   (PostLogin (Some (Some (units "000000")))) empty_db) in
  handle (mkConfig None) (mkRequest None None None)
    (mkEnv 1700000000001 (units "p-2") (units "s-2") (fun i => i)) []
    (PostLogin (Some (Some (units "111111")))) d1 =
  (json (ErrorBody (Some "Invalid passcode"%string)) 401, d1).
Proof. vm_compute. reflexivity. Qed.

(** Round trip: the admin of the first run, holding its session cookie,
    creates the guest passcode "123456"; logging in with it then answers
    [isAdmin: false]. *)
Example admin_creates_guest_who_logs_in :
  let anyone := mkRequest None None None in
  let d1 := snd (handle (mkConfig None) anyone sample_env []
                   (PostLogin (Some (Some (units "000000")))) empty_db) in
  let admin := mkRequest None None (Some (generateToken (fun i => i))) in
  let e2 := mkEnv 1700000000001 (units "p-2") (units "s-2") (fun i => i + 1)%nat in
  let created := handle (mkConfig None) admin e2 []
                   (PostPasscodes (Some (mkCreateBody (Some (units "123456"))
                                           (Some (units "Guest")) (Some false)))) d1 in
  let e3 := mkEnv 1700000000002 (units "p-3") (units "s-3") (fun i => i + 2)%nat in
  fst created = json SuccessBody 200 /\
  fst (handle (mkConfig None) anyone e3 [] (PostLogin (Some (Some (units "123456"))))
         (snd created)) = json (LoginBody (Some false) None) 200.
Proof. vm_compute. split; reflexivity. Qed.


(* ================================================================= *)
(** ** Session rows are created by login and never altered *)

Lemma keeps_cookie_get I : keeps I cookie_get.
Proof. intros w Hw. exact Hw. Qed.

Lemma keeps_cookie_set I value : keeps I (cookie_set value).
Proof. intros w Hw. exact Hw. Qed.

Lemma keeps_cookie_delete I : keeps I cookie_delete.
Proof. intros w Hw. exact Hw. Qed.

(** Walks through a computation down to its store calls. *)
Ltac keeps_walk :=
  repeat first
    [ apply keeps_ret
    | apply keeps_throw
    | apply keeps_cookie_get
    | apply keeps_cookie_set
    | apply keeps_cookie_delete
    | apply keeps_bind; [|intro]
    | apply keeps_try_catch; [|intro]
    | match goal with
      | |- keeps _ (if ?b then _ else _) => destruct b
      | |- keeps _ (match ?x with _ => _ end) => destruct x
      end ].

Lemma keeps_serve_sessions_from d0 cfg request e c :
  keeps (sessions_from d0 e) (serve cfg request e c).
Proof.
  unfold serve, middleware, validateRequest, handler.
  unfold login_POST, status_GET, logout_POST, passcodes_GET, passcodes_POST,
    passcodes_DELETE, first_run_setup, normal_login.
  unfold login, getSession, logout, hasAnyPasscodes, createPasscode, listPasscodes,
    deletePasscode, request_json.
  unfold select_passcodes, select_passcodes_limit, select_passcodes_by_id, update_lastUsedAt,
    insert_passcode, insert_session, delete_sessions_by_token, delete_passcodes_by_id,
    select_sessions_join.
  destruct c; keeps_walk;
    apply keeps_store_call; intros d H; cbv beta;
    try match goal with
        | |- context [match uuid_in ?i with _ => _ end] => destruct (uuid_in i)
        end;
    repeat match goal with |- context [if ?b then _ else _] => destruct b end;
    cbn [snd]; try exact H;
    intros s Hs; cbn [sessions] in Hs;
    first
      [ apply H; exact Hs
      | apply filter_In in Hs; apply H; apply Hs
      | apply in_app_or in Hs; destruct Hs as [Hs | [<- | []]];
        [apply H; exact Hs | right; reflexivity] ].
Qed.

Lemma handle_sessions_from cfg request e fl c d s :
  In s (sessions (snd (handle cfg request e fl c d))) ->
  In s (sessions d) \/ ss_expiresAt s = now e + SESSION_DURATION_MS.
Proof.
  rewrite handle_db.
  apply (keeps_serve_sessions_from d cfg request e c (mkWorld d fl (cookie request))).
  intros s' Hs'. left. exact Hs'.
Qed.

(** C5: when the store answers, [getSession] returns an authenticated
    result exactly when the cookie presents a token, a session row has that
    very token and an expiry strictly after the current time, and the
    passcode owning the row is joined; the result carries that passcode's
    admin flag and name.  Otherwise it returns absent.  A session expiring
    at the current instant is refused, one expiring a second later is
    accepted, and a session found invalid stays invalid at every later time:
    a row past its expiry matches at no later time, and no request alters
    the expiry of a row (the session rows after a request are rows from
    before it or rows of a login of that request, expiring 30 days after
    it).  The tables are not modified by [getSession]. *)
Theorem getSession_valid_iff (e : Env) (w : World) :
  quiet (faults w) ->
  ((exists info, fst (getSession e w) = Returned (Some info)) <->
   (exists s p, live_session (db w) (jar w) (now e) s p)) /\
  (forall info, fst (getSession e w) = Returned (Some info) ->
     authenticated info = true /\
     exists s p, live_session (db w) (jar w) (now e) s p /\
       isAdmin info = pc_isAdmin p /\ name info = Some (pc_name p)) /\
  ((~ exists s p, live_session (db w) (jar w) (now e) s p) ->
     fst (getSession e w) = Returned None) /\
  (forall token s, ss_expiresAt s = now e -> session_matches token (now e) s = false) /\
  (forall s, ss_expiresAt s = now e + 1000 ->
     session_matches (ss_token s) (now e) s = true) /\
  (forall e', now e <= now e' -> fst (getSession e w) = Returned None ->
     fst (getSession e' w) = Returned None) /\
  (forall token s t', ss_expiresAt s <= now e -> now e <= t' ->
     session_matches token t' s = false) /\
  (forall cfg request e' fl c s,
     In s (sessions (snd (handle cfg request e' fl c (db w)))) ->
     In s (sessions (db w)) \/ ss_expiresAt s = now e' + SESSION_DURATION_MS) /\
  db (snd (getSession e w)) = db w.
Proof.
  intros Hq. destruct w as [d fl j]. cbn [db jar faults] in *.
  rewrite (getSession_quiet e d fl j Hq).
  split; [|split; [|split; [|split; [|split; [|split; [|split; [|split]]]]]]].
  - split.
    + intros [info H]. assert (H' : current_session d j (now e) = Some info) by congruence.
      apply current_session_some in H'. destruct H' as (s & p & Hlive & _).
      exists s, p. exact Hlive.
    + intros (s & p & Hlive). apply current_session_live in Hlive.
      destruct Hlive as [info E]. exists info. rewrite E. reflexivity.
  - intros info H. assert (H' : current_session d j (now e) = Some info) by congruence.
    apply current_session_some in H'. destruct H' as (s & p & Hlive & ->).
    split; [reflexivity|]. exists s, p. repeat split. exact Hlive.
  - intros Hno. destruct (current_session d j (now e)) as [info|] eqn:E; [|reflexivity].
    exfalso. apply Hno. apply current_session_some in E.
    destruct E as (s & p & Hlive & _). exists s, p. exact Hlive.
  - intros token s Hs. unfold session_matches. rewrite Hs, Z.ltb_irrefl.
    apply andb_false_r.
  - intros s Hs. apply session_matches_iff. split; [reflexivity | lia].
  - intros e' Hle H. assert (H' : current_session d j (now e) = None) by congruence.
    rewrite (getSession_quiet e' d fl j Hq).
    rewrite (current_session_expires d j (now e) (now e') Hle H'). reflexivity.
  - intros token s t' Hexp Hle. unfold session_matches.
    assert (E : (t' <? ss_expiresAt s) = false) by (apply Z.ltb_ge; lia).
    rewrite E. apply andb_false_r.
  - intros cfg request e' fl0 c s Hs. apply (handle_sessions_from cfg request e' fl0 c d s Hs).
  - apply (getSession_readonly e (mkWorld d fl j)).
Qed.

Lemma getSession_valid_iff_witness :
  let d := mkDb [admin_row "a1" "111111"]
             [session_row "s1" "a1" "tok" (now sample_env + 1000)] in
  fst (getSession sample_env (mkWorld d [] (Some (units "tok")))) =
    Returned (Some (mkSessionInfo true true (Some (units "Admin")))) /\
  fst (getSession sample_env (mkWorld d [] None)) = Returned None.
Proof.
  intros d. split.
  - reflexivity.
  - destruct (getSession_valid_iff sample_env (mkWorld d [] None) quiet_nil)
      as (_ & _ & Hnone & _).
    apply Hnone. intros (s & p & token & Hj & _). discriminate.
Defined.

Example getSession_expired_now :
  let d := mkDb [admin_row "a1" "111111"]
             [session_row "s1" "a1" "tok" (now sample_env)] in
  fst (getSession sample_env (mkWorld d [] (Some (units "tok")))) = Returned None.
Proof. reflexivity. Qed.



(* ================================================================= *)
(** ** More of [auth.ts]: session tokens *)

Lemma token_chars_length : List.length token_chars = 62%nat.
Proof. reflexivity. Qed.

Lemma token_chars_NoDup : NoDup token_chars.
Proof.
  assert (G : forall l : list Z,
            (fix distinct (l : list Z) : bool :=
               match l with
               | [] => true
               | a :: t => negb (existsb (Z.eqb a) t) && distinct t
               end) l = true -> NoDup l).
  { induction l as [|a l IH]; intros H; [constructor|].
    apply andb_true_iff in H. destruct H as [Ha Hl]. constructor; [|apply IH, Hl].
    intros Hin. apply negb_true_iff in Ha.
    assert (existsb (Z.eqb a) l = true)
      by (apply existsb_exists; exists a; split; [exact Hin | apply Z.eqb_refl]).
    congruence. }
  apply G. vm_compute. reflexivity.
Qed.

Lemma generateToken_nth rnd i :
  (i < 64)%nat ->
  nth i (generateToken rnd) 0 = nth (rnd i mod 62)%nat token_chars 0.
Proof.
  intros Hi. unfold generateToken.
  rewrite (nth_indep _ 0 ((fun i => nth (rnd i mod 62)%nat token_chars 0) 0%nat))
    by (rewrite length_map, length_seq; exact Hi).
  rewrite (map_nth (fun i => nth (rnd i mod 62)%nat token_chars 0)).
  rewrite seq_nth by exact Hi. reflexivity.
Qed.

Lemma generateToken_length rnd : List.length (generateToken rnd) = 64%nat.
Proof. unfold generateToken. rewrite length_map, length_seq. reflexivity. Qed.

Lemma generateToken_not_falsy rnd : falsy (Some (generateToken rnd)) = false.
Proof.
  pose proof (generateToken_length rnd) as H.
  destruct (generateToken rnd); [discriminate | reflexivity].
Qed.

(** X1: whatever the random draws, [generateToken] returns 64 characters of
    its 62-character alphabet (so the token is never an empty, falsy cookie
    value), and two runs return the same token only if they drew the same
    index at each of the 64 positions. *)
Theorem generateToken_shape (rnd : nat -> nat) :
  List.length (generateToken rnd) = 64%nat /\
  Forall (fun c => In c token_chars) (generateToken rnd) /\
  falsy (Some (generateToken rnd)) = false /\
  (forall rnd', generateToken rnd = generateToken rnd' ->
     forall i, (i < 64)%nat -> (rnd i mod 62 = rnd' i mod 62)%nat).
Proof.
  split; [apply generateToken_length|]. split; [|split; [apply generateToken_not_falsy|]].
  - unfold generateToken. apply Forall_forall. intros c Hc.
    apply in_map_iff in Hc. destruct Hc as [i [<- _]].
    apply nth_In. rewrite token_chars_length. apply Nat.mod_upper_bound. discriminate.
  - intros rnd' Heq i Hi.
    assert (E : nth (rnd i mod 62)%nat token_chars 0 = nth (rnd' i mod 62)%nat token_chars 0)
      by (rewrite <- !generateToken_nth by exact Hi; rewrite Heq; reflexivity).
    apply (proj1 (NoDup_nth token_chars 0) token_chars_NoDup);
      try (rewrite token_chars_length; apply Nat.mod_upper_bound; discriminate).
    exact E.
Qed.

Lemma generateToken_shape_witness :
  List.length (generateToken (random sample_env)) = 64%nat.
Proof. exact (proj1 (generateToken_shape (random sample_env))). Defined.


(* ================================================================= *)
(** ** More of [auth.ts]: [login] *)

Lemma login_cases e code d fl j :
  let r := login e code (mkWorld d fl j) in
  (sessions (db (snd r)) = sessions d /\ jar (snd r) = j /\
   same_rows (passcodes d) (passcodes (db (snd r))) /\
   (forall res, fst r = Returned res -> success res = false)) \/
  (exists p rows fl',
     lookup_code code d = p :: rows /\
     r = (Returned (mkResult true (Some (pc_isAdmin p)) None),
          mkWorld (mkDb (map (set_lastUsedAt (pc_id p) (now e)) (passcodes d))
                        (sessions d ++ [new_session e p]))
                  fl' (Some (generateToken (random e)))) /\
     existsb (fun s => str_eqb (ss_token s) (generateToken (random e))) (sessions d) = false).
Proof.
  cbv zeta. unfold login, bind, select_passcodes, update_lastUsedAt, insert_session,
    cookie_set, ret.
  store_step.
  { left. cbn. repeat split; discriminate. }
  fold (lookup_code code d). cbn [db].
  destruct (lookup_code code d) as [|p rows] eqn:E.
  { left. cbn. repeat split. intros res H. inversion H. reflexivity. }
  store_step.
  { left. cbn. repeat split; discriminate. }
  cbn [db passcodes sessions].
  store_step.
  { left. cbn [fst snd db sessions passcodes jar].
    split; [reflexivity | split; [reflexivity | split; [apply same_rows_touch | discriminate]]]. }
  cbn [db passcodes sessions ss_id ss_token ss_passcodeId].
  destruct (existsb (fun s => str_eqb (ss_id s) (fresh_session_id e)) (sessions d)).
  { left. cbn [fst snd db sessions passcodes jar].
    split; [reflexivity | split; [reflexivity | split; [apply same_rows_touch | discriminate]]]. }
  destruct (existsb (fun s => str_eqb (ss_token s) (generateToken (random e))) (sessions d))
    eqn:Etok.
  { left. cbn [fst snd db sessions passcodes jar].
    split; [reflexivity | split; [reflexivity | split; [apply same_rows_touch | discriminate]]]. }
  destruct (negb (existsb _ (map (set_lastUsedAt (pc_id p) (now e)) (passcodes d)))).
  { left. cbn [fst snd db sessions passcodes jar].
    split; [reflexivity | split; [reflexivity | split; [apply same_rows_touch | discriminate]]]. }
  right. exists p, rows. eexists. split; [reflexivity|]. split; [|reflexivity].
  cbn [fst snd db faults jar]. reflexivity.
Qed.

Lemma lookup_code_in code d p rows :
  lookup_code code d = p :: rows -> In p (passcodes d) /\ pc_code p = hashCode code.
Proof.
  intros E. assert (H : In p (lookup_code code d)) by (rewrite E; left; reflexivity).
  apply filter_In in H. destruct H as [Hin Hc]. apply str_eqb_eq in Hc. split; assumption.
Qed.

(** X2: under any store faults, one call of [login] leaves the session
    table as it was or appends exactly one row to it: the session of the
    first passcode whose digest matches, expiring 30 days after the call,
    with the cookie set to its token.  The row is appended exactly when the
    call returns success; a call that fails or throws creates no session and
    sets no cookie.  The passcode rows keep their identity either way. *)
Theorem login_session_effect (e : Env) (code : jsstring) (w : World) :
  same_rows (passcodes (db w)) (passcodes (db (snd (login e code w)))) /\
  ((sessions (db (snd (login e code w))) = sessions (db w) /\
    jar (snd (login e code w)) = jar w /\
    (forall res, fst (login e code w) = Returned res -> success res = false)) \/
   (exists p,
      In p (passcodes (db w)) /\ pc_code p = hashCode code /\
      fst (login e code w) = Returned (mkResult true (Some (pc_isAdmin p)) None) /\
      sessions (db (snd (login e code w))) = sessions (db w) ++ [new_session e p] /\
      jar (snd (login e code w)) = Some (generateToken (random e)))).
Proof.
  destruct w as [d fl j]. cbn [db jar].
  destruct (login_cases e code d fl j) as [(Hs & Hj & Hr & Hf) | (p & rows & fl' & Hl & Hrun & _)].
  - split; [exact Hr|]. left. repeat split; assumption.
  - cbv zeta in Hrun. rewrite Hrun. cbn [fst snd db sessions passcodes jar].
    split; [apply same_rows_touch|]. right. exists p.
    destruct (lookup_code_in code d p rows Hl) as [Hin Hc].
    repeat split; assumption.
Qed.

Lemma login_session_effect_witness :
  same_rows
    (passcodes (db (mkWorld (mkDb [guest_row "g1" "123456"] []) [] None)))
    (passcodes (db (snd (login sample_env (units "123456")
                           (mkWorld (mkDb [guest_row "g1" "123456"] []) [] None))))).
Proof.
  exact (proj1 (login_session_effect sample_env (units "123456")
                  (mkWorld (mkDb [guest_row "g1" "123456"] []) [] None))).
Defined.

Lemma unique_ids_inj d p q :
  unique_ids d -> In p (passcodes d) -> In q (passcodes d) -> pc_id p = pc_id q -> p = q.
Proof.
  intros Hu Hp Hq Hid.
  pose proof (find_passcode_unique d p Hu Hp) as Ep.
  pose proof (find_passcode_unique d q Hu Hq) as Eq.
  rewrite Hid in Ep. congruence.
Qed.

Lemma set_lastUsedAt_same id t p :
  pc_id (set_lastUsedAt id t p) = pc_id p /\
  pc_isAdmin (set_lastUsedAt id t p) = pc_isAdmin p /\
  pc_name (set_lastUsedAt id t p) = pc_name p /\
  pc_code (set_lastUsedAt id t p) = pc_code p.
Proof. unfold set_lastUsedAt. destruct (str_eqb (pc_id p) id); repeat split. Qed.

Lemma existsb_token_false token l s :
  existsb (fun s => str_eqb (ss_token s) token) l = false -> In s l -> ss_token s <> token.
Proof.
  intros H Hin Heq.
  assert (existsb (fun s => str_eqb (ss_token s) token) l = true)
    by (apply existsb_exists; exists s; split; [exact Hin | apply str_eqb_eq; exact Heq]).
  congruence.
Qed.

Lemma current_session_after_login e d p t :
  unique_ids d -> In p (passcodes d) ->
  existsb (fun s => str_eqb (ss_token s) (generateToken (random e))) (sessions d) = false ->
  current_session
    (mkDb (map (set_lastUsedAt (pc_id p) (now e)) (passcodes d))
          (sessions d ++ [new_session e p]))
    (Some (generateToken (random e))) t =
  if t <? now e + SESSION_DURATION_MS
  then Some (mkSessionInfo true (pc_isAdmin p) (Some (pc_name p)))
  else None.
Proof.
  intros Hu Hp Hfresh.
  set (d' := mkDb (map (set_lastUsedAt (pc_id p) (now e)) (passcodes d))
                  (sessions d ++ [new_session e p])).
  set (tok := generateToken (random e)) in *.
  assert (Honly : forall s q, live_session d' (Some tok) t s q ->
            s = new_session e p /\ pc_isAdmin q = pc_isAdmin p /\ pc_name q = pc_name p).
  { intros s q [token (Hj & _ & Hs & Htok & _ & Hq & Hid)].
    assert (Et : token = tok) by congruence. rewrite Et in Htok. clear Et Hj.
    cbn [d' sessions passcodes] in Hs, Hq.
    apply in_app_or in Hs. destruct Hs as [Hs | [<- | []]].
    - exfalso. apply (existsb_token_false tok (sessions d) s Hfresh Hs Htok).
    - split; [reflexivity|]. apply in_map_iff in Hq. destruct Hq as [q0 [<- Hq0]].
      destruct (set_lastUsedAt_same (pc_id p) (now e) q0) as (Ei & Ea & En & _).
      rewrite Ei in Hid. cbn [new_session ss_passcodeId] in Hid.
      rewrite (unique_ids_inj d q0 p Hu Hq0 Hp Hid) in *. split; assumption. }
  destruct (t <? now e + SESSION_DURATION_MS) eqn:Et.
  - apply Z.ltb_lt in Et.
    assert (Hlive : live_session d' (Some tok) t (new_session e p)
                      (set_lastUsedAt (pc_id p) (now e) p)).
    { exists tok. split; [reflexivity|]. split.
      - intros C. pose proof (generateToken_length (random e)) as L.
        fold tok in L. rewrite C in L. discriminate.
      - cbn [d' sessions passcodes new_session ss_token ss_expiresAt ss_passcodeId].
        repeat split.
        + apply in_or_app. right. left. reflexivity.
        + exact Et.
        + apply in_map. exact Hp.
        + apply set_lastUsedAt_same. }
    apply current_session_live in Hlive. destruct Hlive as [info E]. rewrite E.
    apply current_session_some in E. destruct E as (s & q & Hl & ->).
    destruct (Honly s q Hl) as (_ & -> & ->). reflexivity.
  - apply Z.ltb_ge in Et.
    destruct (current_session d' (Some tok) t) as [info|] eqn:E; [|reflexivity].
    apply current_session_some in E. destruct E as (s & q & Hl & _).
    destruct (Honly s q Hl) as (-> & _).
    destruct Hl as [token (_ & _ & _ & _ & Hexp & _)].
    cbn [new_session ss_expiresAt] in Hexp. lia.
Qed.

(** X3: login then validate.  After a [login] that returned success, with
    passcode ids unique, [getSession] presented with the cookie that login
    set returns the authenticated session of the matched passcode (its
    admin flag, which login also returned, and its name) at every time
    before [now + 30 days], and returns absent from that instant on. *)
Theorem login_then_getSession (e : Env) (code : jsstring) (w w' : World) (res : Result) :
  unique_ids (db w) ->
  login e code w = (Returned res, w') -> success res = true ->
  exists p,
    In p (passcodes (db w)) /\ pc_code p = hashCode code /\
    res_isAdmin res = Some (pc_isAdmin p) /\
    forall e' fl, quiet fl ->
      fst (getSession e' (mkWorld (db w') fl (jar w'))) =
      Returned (if now e' <? now e + SESSION_DURATION_MS
                then Some (mkSessionInfo true (pc_isAdmin p) (Some (pc_name p)))
                else None).
Proof.
  destruct w as [d fl j]. cbn [db]. intros Hu Hrun Hok.
  destruct (login_cases e code d fl j) as [(_ & _ & _ & Hf) | (p & rows & fl' & Hl & Hr & Hfresh)].
  - cbv zeta in Hf. rewrite Hrun in Hf. specialize (Hf res eq_refl). congruence.
  - cbv zeta in Hr. rewrite Hrun in Hr. inversion Hr; subst res w'. clear Hr.
    destruct (lookup_code_in code d p rows Hl) as [Hin Hc].
    exists p. split; [exact Hin|]. split; [exact Hc|]. split; [reflexivity|].
    intros e' fl0 Hq. cbn [db jar]. rewrite getSession_quiet by exact Hq.
    rewrite (current_session_after_login e d p (now e') Hu Hin Hfresh). reflexivity.
Qed.

Lemma login_then_getSession_witness :
  let w := mkWorld (mkDb [guest_row "g1" "123456"] []) [] None in
  let w' := snd (login sample_env (units "123456") w) in
  fst (getSession sample_env (mkWorld (db w') [] (jar w'))) =
  Returned (Some (mkSessionInfo true false (Some (units "Guest")))).
Proof.
  intros w w'.
  assert (Hu : unique_ids (db w)).
  { unfold unique_ids. cbn [w db passcodes map]. constructor; [intros [] | constructor]. }
  assert (Hrun : login sample_env (units "123456") w =
                 (Returned (mkResult true (Some false) None), w'))
    by (vm_compute; reflexivity).
  destruct (login_then_getSession sample_env (units "123456") w w' _ Hu Hrun eq_refl)
    as (p & Hin & _ & _ & Hget).
  rewrite (Hget sample_env [] quiet_nil).
  destruct Hin as [<- | []]. reflexivity.
Defined.


(* ================================================================= *)
(** ** More of [auth.ts]: [logout] *)

Lemma logout_run d fl j :
  logout (mkWorld d fl j) =
  if falsy j then (Returned tt, mkWorld d fl None)
  else match fl with
       | true :: rest => (Thrown StoreFault, mkWorld d rest j)
       | _ => (Returned tt,
               mkWorld (mkDb (passcodes d)
                         (filter (fun s => negb (str_eqb (ss_token s) (or_empty j))) (sessions d)))
                       (tl fl) None)
       end.
Proof.
  unfold logout, bind, cookie_get, cookie_delete, ret. cbn [jar].
  destruct j as [[|c token]|]; cbn [falsy]; try reflexivity.
  unfold delete_sessions_by_token, store_call. cbn [faults db jar or_empty].
  destruct fl as [|[|] rest]; reflexivity.
Qed.

Lemma filter_filter_same {A} (p : A -> bool) l : filter p (filter p l) = filter p l.
Proof.
  induction l as [|a l IH]; [reflexivity|]. cbn [filter].
  destruct (p a) eqn:E; [cbn [filter]; rewrite E, IH; reflexivity | exact IH].
Qed.

Lemma no_session_no_current d token t :
  (forall s, In s (sessions d) -> ss_token s <> token) ->
  current_session d (Some token) t = None.
Proof.
  intros H. destruct (current_session d (Some token) t) as [info|] eqn:E; [|reflexivity].
  apply current_session_some in E. destruct E as (s & p & [tok (Hj & _ & Hs & Htok & _)] & _).
  assert (Et : tok = token) by congruence. rewrite Et in Htok.
  exfalso. exact (H s Hs Htok).
Qed.

(** X4: when the store answers, [logout] with a session cookie returns
    normally, clears the cookie and deletes exactly the session rows carrying
    that token, leaving the passcodes and every other session in place; from
    then on [getSession] presented with the old token returns absent, at any
    time. *)
Theorem logout_invalidates (w : World) (token : jsstring) :
  jar w = Some token -> token <> [] -> quiet (faults w) ->
  fst (logout w) = Returned tt /\
  jar (snd (logout w)) = None /\
  passcodes (db (snd (logout w))) = passcodes (db w) /\
  (forall s, In s (sessions (db (snd (logout w)))) <->
             In s (sessions (db w)) /\ ss_token s <> token) /\
  (forall e fl, quiet fl ->
     fst (getSession e (mkWorld (db (snd (logout w))) fl (Some token))) = Returned None).
Proof.
  destruct w as [d fl j]. cbn [jar db faults]. intros -> Hne Hq.
  rewrite logout_run.
  assert (Hf : falsy (Some token) = false) by (destruct token; [contradiction | reflexivity]).
  rewrite Hf.
  assert (Hrun : match fl with
                 | true :: rest => (Thrown StoreFault, mkWorld d rest (Some token))
                 | _ => (Returned tt,
                         mkWorld (mkDb (passcodes d)
                           (filter (fun s => negb (str_eqb (ss_token s) token)) (sessions d)))
                           (tl fl) None)
                 end =
                 (Returned tt,
                  mkWorld (mkDb (passcodes d)
                    (filter (fun s => negb (str_eqb (ss_token s) token)) (sessions d)))
                    (tl fl) None)).
  { destruct fl as [|[|] rest]; try reflexivity.
    specialize (Hq true (or_introl eq_refl)). discriminate. }
  cbn [or_empty]. rewrite Hrun. cbn [fst snd db jar passcodes sessions].
  assert (Hmem : forall s,
            In s (filter (fun s => negb (str_eqb (ss_token s) token)) (sessions d)) <->
            In s (sessions d) /\ ss_token s <> token).
  { intros s. rewrite filter_In, negb_true_iff, str_eqb_neq. reflexivity. }
  split; [reflexivity|]. split; [reflexivity|]. split; [reflexivity|].
  split; [exact Hmem|].
  intros e fl0 Hq0. rewrite getSession_quiet by exact Hq0. f_equal.
  apply no_session_no_current. cbn [sessions]. intros s Hs. apply Hmem in Hs. tauto.
Qed.

Lemma logout_invalidates_witness :
  let d := mkDb [admin_row "a1" "111111"]
             [session_row "s1" "a1" "tok" 9999999999999; session_row "s2" "a1" "other" 9999999999999] in
  sessions (db (snd (logout (mkWorld d [] (Some (units "tok")))))) =
  [session_row "s2" "a1" "other" 9999999999999] /\
  fst (logout (mkWorld d [] (Some (units "tok")))) = Returned tt.
Proof.
  intros d. split; [reflexivity|].
  apply (logout_invalidates (mkWorld d [] (Some (units "tok"))) (units "tok") eq_refl);
    [discriminate | apply quiet_nil].
Defined.

(** X5: [logout] without a cookie (or with an empty one) does not call the
    store at all and changes nothing; and logging out again with a token
    already logged out changes the tables no further and does not fail. *)
Theorem logout_idempotent (w : World) :
  (falsy (jar w) = true ->
     logout w = (Returned tt, mkWorld (db w) (faults w) None)) /\
  (forall fl2, quiet (faults w) -> quiet fl2 ->
     fst (logout (mkWorld (db (snd (logout w))) fl2 (jar w))) = Returned tt /\
     db (snd (logout (mkWorld (db (snd (logout w))) fl2 (jar w)))) = db (snd (logout w))).
Proof.
  destruct w as [d fl j]. cbn [jar db faults]. split.
  - intros Hf. rewrite logout_run, Hf. reflexivity.
  - intros fl2 Hq Hq2. rewrite !logout_run. destruct (falsy j) eqn:Hf.
    + split; reflexivity.
    + assert (Q : forall (f : list bool) (d0 : Db), quiet f ->
                match f with
                | true :: rest => (Thrown StoreFault, mkWorld d0 rest j)
                | _ => (Returned tt,
                        mkWorld (mkDb (passcodes d0)
                          (filter (fun s => negb (str_eqb (ss_token s) (or_empty j))) (sessions d0)))
                          (tl f) None)
                end =
                (Returned tt,
                 mkWorld (mkDb (passcodes d0)
                   (filter (fun s => negb (str_eqb (ss_token s) (or_empty j))) (sessions d0)))
                   (tl f) None)).
      { intros f d0 Hf0. destruct f as [|[|] rest]; try reflexivity.
        specialize (Hf0 true (or_introl eq_refl)). discriminate. }
      rewrite (Q fl d Hq). cbn [snd db]. rewrite (Q fl2 _ Hq2).
      cbn [fst snd db passcodes sessions]. split; [reflexivity|].
      rewrite filter_filter_same. reflexivity.
Qed.

Lemma logout_idempotent_witness :
  let d := mkDb [admin_row "a1" "111111"] [session_row "s1" "a1" "tok" 9999999999999] in
  let w := mkWorld d [] (Some (units "tok")) in
  db (snd (logout (mkWorld (db (snd (logout w))) [] (jar w)))) = db (snd (logout w)).
Proof.
  intros d w.
  apply (proj2 (logout_idempotent w) [] quiet_nil quiet_nil).
Defined.


(* ================================================================= *)
(** ** More of [auth.ts]: [createPasscode] *)

Lemma createPasscode_cases e code name adm d fl j :
  let r := createPasscode e code name adm (mkWorld d fl j) in
  (db (snd r) = d /\ jar (snd r) = j /\ fst r <> Returned succeeded) \/
  (six_digits code = true /\ lookup_code code d = [] /\
   existsb (fun p => str_eqb (pc_id p) (fresh_passcode_id e)) (passcodes d) = false /\
   exists fl',
     r = (Returned succeeded,
          mkWorld (mkDb (passcodes d ++ [new_passcode e code name adm]) (sessions d)) fl' j)).
Proof.
  cbv zeta. unfold createPasscode.
  destruct (six_digits code) eqn:E6; cbn [negb].
  2:{ left. cbn. repeat split. discriminate. }
  unfold bind, select_passcodes, insert_passcode, ret.
  store_step.
  { left. cbn. repeat split. discriminate. }
  fold (lookup_code code d). cbn [db].
  destruct (lookup_code code d) as [|p rows] eqn:El.
  2:{ left. cbn. repeat split. discriminate. }
  store_step.
  { left. cbn. repeat split. discriminate. }
  cbn [db pc_id].
  destruct (existsb (fun p => str_eqb (pc_id p) (fresh_passcode_id e)) (passcodes d)) eqn:Eid.
  { left. cbn. repeat split. discriminate. }
  right. repeat split. eexists. reflexivity.
Qed.

Lemma lookup_code_app code d row :
  lookup_code code (mkDb (passcodes d ++ [row]) (sessions d)) =
  lookup_code code d ++ (if str_eqb (pc_code row) (hashCode code) then [row] else []).
Proof. unfold lookup_code. cbn [passcodes]. rewrite filter_app. reflexivity. Qed.

Lemma createPasscode_existing e code name adm d fl j p rows :
  six_digits code = true -> quiet fl -> lookup_code code d = p :: rows ->
  createPasscode e code name adm (mkWorld d fl j) =
  (Returned (failed "This passcode already exists"), mkWorld d (tl fl) j).
Proof.
  intros E6 Hq El. unfold createPasscode. rewrite E6. cbn [negb].
  unfold bind. rewrite select_passcodes_quiet by exact Hq.
  fold (lookup_code code d). rewrite El. reflexivity.
Qed.

(** X6: when [createPasscode] returns success it has appended exactly one
    row, with the given name and flag and never used yet; what it stores as
    [code] is the digest of the code, which differs from the code itself
    (eight characters against six); the code was six digits and no row
    carried its digest before; and from then on any further [createPasscode] with
    the same code, whatever the name and flag, answers 'This passcode
    already exists' and changes nothing. *)
Theorem createPasscode_once (e : Env) (code name : jsstring) (adm : bool) (w w1 : World) :
  createPasscode e code name adm w = (Returned succeeded, w1) ->
  six_digits code = true /\
  lookup_code code (db w) = [] /\
  passcodes (db w1) = passcodes (db w) ++ [new_passcode e code name adm] /\
  pc_code (new_passcode e code name adm) = hashCode code /\
  pc_code (new_passcode e code name adm) <> code /\
  pc_lastUsedAt (new_passcode e code name adm) = None /\
  sessions (db w1) = sessions (db w) /\
  (forall e' name' adm' fl' j', quiet fl' ->
     createPasscode e' code name' adm' (mkWorld (db w1) fl' j') =
     (Returned (failed "This passcode already exists"), mkWorld (db w1) (tl fl') j')).
Proof.
  destruct w as [d fl j]. cbn [db]. intros Hrun.
  destruct (createPasscode_cases e code name adm d fl j)
    as [(_ & _ & Hne) | (E6 & El & _ & fl1 & Hr)]; cbv zeta in *.
  - rewrite Hrun in Hne. exfalso. apply Hne. reflexivity.
  - rewrite Hrun in Hr. inversion Hr; subst w1. cbn [db passcodes sessions].
    split; [exact E6|]. split; [exact El|]. split; [reflexivity|]. split; [reflexivity|].
    split.
    { cbn [new_passcode pc_code]. intros Heq.
      pose proof (hashCode_length code) as Hl. rewrite Heq in Hl.
      unfold six_digits in E6. apply andb_true_iff in E6. destruct E6 as [E6 _].
      apply Nat.eqb_eq in E6. lia. }
    split; [reflexivity|]. split; [reflexivity|].
    intros e' name' adm' fl' j' Hq.
    apply (createPasscode_existing e' code name' adm' _ fl' j'
             (new_passcode e code name adm) []); [exact E6 | exact Hq |].
    rewrite lookup_code_app, El. cbn [new_passcode pc_code app].
    rewrite str_eqb_refl. reflexivity.
Qed.

Lemma createPasscode_once_witness :
  let w := mkWorld (mkDb [admin_row "a1" "111111"] []) [] None in
  let w1 := snd (createPasscode sample_env (units "123456") (units "Guest") false w) in
  createPasscode sample_env (units "123456") (units "Twin") true (mkWorld (db w1) [] None) =
  (Returned (failed "This passcode already exists"), mkWorld (db w1) [] None).
Proof.
  intros w w1.
  assert (Hrun : createPasscode sample_env (units "123456") (units "Guest") false w =
                 (Returned succeeded, w1)) by (vm_compute; reflexivity).
  destruct (createPasscode_once _ _ _ _ _ _ Hrun) as (_ & _ & _ & _ & _ & _ & _ & H).
  apply (H sample_env (units "Twin") true [] None quiet_nil).
Defined.

Lemma login_quiet e code d fl j p rows :
  quiet fl -> lookup_code code d = p :: rows ->
  existsb (fun s => str_eqb (ss_id s) (fresh_session_id e)) (sessions d) = false ->
  existsb (fun s => str_eqb (ss_token s) (generateToken (random e))) (sessions d) = false ->
  login e code (mkWorld d fl j) =
  (Returned (mkResult true (Some (pc_isAdmin p)) None),
   mkWorld (mkDb (map (set_lastUsedAt (pc_id p) (now e)) (passcodes d))
                 (sessions d ++ [new_session e p]))
           (tl (tl (tl fl))) (Some (generateToken (random e)))).
Proof.
  intros Hq El Hid Htok. unfold login, bind.
  rewrite select_passcodes_quiet by exact Hq. fold (lookup_code code d). rewrite El.
  unfold update_lastUsedAt. rewrite store_call_quiet by (apply quiet_tl; exact Hq).
  cbn [fst snd]. unfold insert_session.
  rewrite store_call_quiet by (apply quiet_tl, quiet_tl; exact Hq).
  cbn [sessions passcodes ss_id ss_token ss_passcodeId]. rewrite Hid, Htok.
  assert (Hfk : existsb (fun q => str_eqb (pc_id q) (pc_id p))
                  (map (set_lastUsedAt (pc_id p) (now e)) (passcodes d)) = true).
  { apply existsb_exists. exists (set_lastUsedAt (pc_id p) (now e) p). split.
    - apply in_map. apply (lookup_code_in code d p rows El).
    - apply str_eqb_eq. apply set_lastUsedAt_same. }
  rewrite Hfk. reflexivity.
Qed.

Lemma login_no_match e code d fl j :
  quiet fl -> lookup_code code d = [] ->
  login e code (mkWorld d fl j) =
  (Returned (failed "Invalid passcode"), mkWorld d (tl fl) j).
Proof.
  intros Hq El. unfold login, bind.
  rewrite select_passcodes_quiet by exact Hq. fold (lookup_code code d). rewrite El.
  reflexivity.
Qed.

(** X7: create then log in.  After a successful [createPasscode] for a code,
    a [login] with that code, with the store answering and the generated
    session id and token not yet in use, returns success with exactly the
    admin flag given at creation, marks the new passcode as used now and
    opens its session. *)
Theorem createPasscode_then_login (e : Env) (code name : jsstring) (adm : bool)
    (w w1 : World) (e2 : Env) (fl2 : list bool) (j2 : option jsstring) :
  createPasscode e code name adm w = (Returned succeeded, w1) ->
  quiet fl2 ->
  existsb (fun s => str_eqb (ss_id s) (fresh_session_id e2)) (sessions (db w1)) = false ->
  existsb (fun s => str_eqb (ss_token s) (generateToken (random e2))) (sessions (db w1)) = false ->
  fst (login e2 code (mkWorld (db w1) fl2 j2)) = Returned (mkResult true (Some adm) None) /\
  sessions (db (snd (login e2 code (mkWorld (db w1) fl2 j2)))) =
    sessions (db w) ++ [new_session e2 (new_passcode e code name adm)] /\
  In (mkPasscode (fresh_passcode_id e) (hashCode code) name adm (now e) (Some (now e2)))
     (passcodes (db (snd (login e2 code (mkWorld (db w1) fl2 j2))))).
Proof.
  destruct w as [d fl j]. cbn [db]. intros Hrun Hq Hid Htok.
  destruct (createPasscode_cases e code name adm d fl j)
    as [(_ & _ & Hne) | (E6 & El & _ & fl1 & Hr)]; cbv zeta in *.
  { rewrite Hrun in Hne. exfalso. apply Hne. reflexivity. }
  rewrite Hrun in Hr. inversion Hr; subst w1. cbn [db] in *.
  assert (El1 : lookup_code code (mkDb (passcodes d ++ [new_passcode e code name adm]) (sessions d))
                = [new_passcode e code name adm]).
  { rewrite lookup_code_app, El. cbn [new_passcode pc_code app].
    rewrite str_eqb_refl. reflexivity. }
  rewrite (login_quiet e2 code _ fl2 j2 _ [] Hq El1 Hid Htok).
  cbn [fst snd db sessions passcodes new_passcode pc_isAdmin pc_id].
  split; [reflexivity|]. split; [reflexivity|].
  rewrite map_app. apply in_or_app. right. cbn [map]. left.
  unfold set_lastUsedAt. cbn [pc_id]. rewrite str_eqb_refl. reflexivity.
Qed.

Lemma createPasscode_then_login_witness :
  let w := mkWorld (mkDb [admin_row "a1" "111111"] []) [] None in
  let w1 := snd (createPasscode sample_env (units "123456") (units "Guest") false w) in
  fst (login sample_env (units "123456") (mkWorld (db w1) [] None)) =
  Returned (mkResult true (Some false) None).
Proof.
  intros w w1.
  assert (Hrun : createPasscode sample_env (units "123456") (units "Guest") false w =
                 (Returned succeeded, w1)) by (vm_compute; reflexivity).
  assert (Hid : existsb (fun s => str_eqb (ss_id s) (fresh_session_id sample_env))
                  (sessions (db w1)) = false) by (vm_compute; reflexivity).
  assert (Htok : existsb (fun s => str_eqb (ss_token s) (generateToken (random sample_env)))
                   (sessions (db w1)) = false) by (vm_compute; reflexivity).
  exact (proj1 (createPasscode_then_login _ _ _ _ _ _ sample_env [] None
                  Hrun quiet_nil Hid Htok)).
Defined.


(* ================================================================= *)
(** ** More of the login route *)

Lemma hasAnyPasscodes_quiet d fl j :
  quiet fl ->
  hasAnyPasscodes (mkWorld d fl j) =
  (Returned (negb (Nat.eqb (List.length (passcodes d)) 0)), mkWorld d (tl fl) j).
Proof.
  intros Hq. rewrite hasAnyPasscodes_run. destruct fl as [|[|] rest]; try reflexivity.
  specialize (Hq true (or_introl eq_refl)). discriminate.
Qed.

Lemma six_digits_nonempty code : six_digits code = true -> falsy (Some code) = false.
Proof. destruct code; [discriminate | reflexivity]. Qed.

(** X8: what the login route refuses, and how.  A body without a usable
    [code] is answered 400 'Passcode is required' and a body that does not
    parse 500 'Login failed', both without any store call.  Once passcodes
    exist, a code whose digest matches no row is answered 401 'Invalid
    passcode' (whether or not it has six digits) after two reads.  While no
    passcode exists, a code that is not six digits is answered 400 and the
    store stays empty, so the setup can be tried again. *)
Theorem login_POST_refusals (e : Env) (d : Db) (fl : list bool) (j : option jsstring) :
  (forall code, falsy code = true ->
     login_POST e (Some code) (mkWorld d fl j) =
     (Returned (json (ErrorBody (Some "Passcode is required"%string)) 400), mkWorld d fl j)) /\
  login_POST e None (mkWorld d fl j) =
    (Returned (json (ErrorBody (Some "Login failed"%string)) 500), mkWorld d fl j) /\
  (forall code, falsy (Some code) = false -> passcodes d <> [] -> quiet fl ->
     lookup_code code d = [] ->
     login_POST e (Some (Some code)) (mkWorld d fl j) =
     (Returned (json (ErrorBody (Some "Invalid passcode"%string)) 401),
      mkWorld d (tl (tl fl)) j)) /\
  (forall code, falsy (Some code) = false -> passcodes d = [] -> quiet fl ->
     six_digits code = false ->
     login_POST e (Some (Some code)) (mkWorld d fl j) =
     (Returned (json (ErrorBody (Some "Passcode must be exactly 6 digits"%string)) 400),
      mkWorld d (tl fl) j)).
Proof.
  split; [|split; [|split]].
  - intros code Hf. unfold login_POST, try_catch, bind, request_json, ret.
    rewrite Hf. reflexivity.
  - reflexivity.
  - intros code Hf Hne Hq El. unfold login_POST, try_catch, bind, request_json, ret.
    rewrite Hf, hasAnyPasscodes_quiet by exact Hq.
    assert (Hn : negb (Nat.eqb (List.length (passcodes d)) 0) = true)
      by (destruct (passcodes d); [contradiction | reflexivity]).
    rewrite Hn. cbn [negb]. unfold normal_login, bind.
    rewrite login_no_match by (try apply quiet_tl; assumption). reflexivity.
  - intros code Hf He Hq E6. unfold login_POST, try_catch, bind, request_json, ret.
    rewrite Hf, hasAnyPasscodes_quiet by exact Hq. rewrite He. cbn [List.length Nat.eqb negb].
    unfold first_run_setup. rewrite E6. reflexivity.
Qed.

Lemma login_POST_refusals_witness :
  login_POST sample_env (Some (Some (units "12345")))
    (mkWorld (mkDb [admin_row "a1" "111111"] []) [] None) =
  (Returned (json (ErrorBody (Some "Invalid passcode"%string)) 401),
   mkWorld (mkDb [admin_row "a1" "111111"] []) [] None).
Proof.
  refine (proj1 (proj2 (proj2 (login_POST_refusals sample_env
            (mkDb [admin_row "a1" "111111"] []) [] None))) (units "12345") eq_refl _ quiet_nil _).
  - discriminate.
  - vm_compute. reflexivity.
Defined.

(** X9: first-run setup.  On the empty store, with the store answering, the
    login route called with any six-digit code creates the passcode named
    "Admin" with the admin flag and the digest of the code, logs it in (one
    session, expiring in 30 days, cookie set, passcode marked as used) and
    answers 200 with [isAdmin: true]. *)
Theorem login_POST_first_run (e : Env) (code : jsstring) (fl : list bool)
    (j : option jsstring) :
  six_digits code = true -> quiet fl ->
  login_POST e (Some (Some code)) (mkWorld empty_db fl j) =
  (Returned (json (LoginBody (Some true)
                     (Some "Admin passcode created successfully"%string)) 200),
   mkWorld
     (mkDb [mkPasscode (fresh_passcode_id e) (hashCode code) (units "Admin") true
              (now e) (Some (now e))]
           [mkSession (fresh_session_id e) (fresh_passcode_id e) (generateToken (random e))
              (now e + SESSION_DURATION_MS) (now e)])
     (tl (tl (tl (tl (tl (tl fl)))))) (Some (generateToken (random e)))).
Proof.
  intros E6 Hq. unfold empty_db, login_POST, try_catch, bind, request_json, ret.
  rewrite (six_digits_nonempty code E6), hasAnyPasscodes_quiet by exact Hq.
  cbn [passcodes List.length Nat.eqb negb].
  unfold first_run_setup, bind. rewrite E6. cbn [negb].
  unfold createPasscode. rewrite E6. cbn [negb]. unfold bind.
  rewrite select_passcodes_quiet by (apply quiet_tl; exact Hq).
  cbn [passcodes filter]. cbv beta iota. unfold insert_passcode.
  rewrite store_call_quiet by (apply quiet_tl, quiet_tl; exact Hq).
  cbn [passcodes sessions existsb fst snd app ret].
  rewrite (login_quiet e code _ _ j (new_passcode e code (units "Admin") true) []).
  - cbn [passcodes sessions map app new_passcode new_session pc_id]. unfold set_lastUsedAt.
    cbn [pc_id pc_code pc_name pc_isAdmin pc_createdAt]. rewrite str_eqb_refl. reflexivity.
  - repeat apply quiet_tl. exact Hq.
  - unfold lookup_code. cbn [passcodes filter pc_code]. rewrite str_eqb_refl. reflexivity.
  - reflexivity.
  - reflexivity.
Qed.

Lemma login_POST_first_run_witness :
  fst (login_POST sample_env (Some (Some (units "424242"))) (mkWorld empty_db [] None)) =
  Returned (json (LoginBody (Some true)
                    (Some "Admin passcode created successfully"%string)) 200).
Proof.
  rewrite (login_POST_first_run sample_env (units "424242") [] None eq_refl quiet_nil).
  reflexivity.
Defined.


(* ================================================================= *)
(** ** Integrity of the two tables in every reachable state *)

Lemma same_rows_codes l l' : same_rows l l' -> map pc_code l' = map pc_code l.
Proof.
  unfold same_rows. intros H.
  assert (E : forall k, map pc_code k = map (fun r => snd (fst (fst (fst r)))) (map row_identity k))
    by (intros k; rewrite map_map; reflexivity).
  rewrite !E, H. reflexivity.
Qed.

Lemma pc_only_credentials_wf : pc_only credentials_wf.
Proof.
  intros d d' H [Hn Hd]. pose proof (same_rows_codes _ _ H) as Hc. split.
  - unfold codes_distinct in *. rewrite Hc. exact Hn.
  - intros p Hp.
    assert (Hin : In (pc_code p) (map pc_code (passcodes d)))
      by (rewrite <- Hc; apply in_map; exact Hp).
    apply in_map_iff in Hin. destruct Hin as [q [Hq Hqin]].
    destruct (Hd q Hqin) as [c [E6 Ec]]. exists c. split; [exact E6 | congruence].
Qed.

Lemma lookup_code_nil code d :
  lookup_code code d = [] -> ~ In (hashCode code) (map pc_code (passcodes d)).
Proof.
  intros El Hin. apply in_map_iff in Hin. destruct Hin as [p [Hc Hp]].
  assert (H : In p (lookup_code code d))
    by (apply filter_In; split; [exact Hp | apply str_eqb_eq; exact Hc]).
  rewrite El in H. contradiction.
Qed.

Lemma keeps_createPasscode_credentials e code name adm :
  keeps credentials_wf (createPasscode e code name adm).
Proof.
  intros [d fl j] [Hn Hd]. cbn [db] in *.
  destruct (createPasscode_cases e code name adm d fl j)
    as [(-> & _ & _) | (E6 & El & _ & fl1 & ->)]; cbv zeta; [split; assumption|].
  cbn [snd db]. split.
  - unfold codes_distinct in *. cbn [passcodes]. rewrite map_app. cbn [map new_passcode pc_code].
    apply NoDup_app; [exact Hn | constructor; [intros [] | constructor] |].
    intros x Hx [<- | []]. exact (lookup_code_nil code d El Hx).
  - intros p Hp. cbn [passcodes] in Hp. apply in_app_or in Hp.
    destruct Hp as [Hp | [<- | []]]; [apply Hd, Hp|].
    exists code. split; [exact E6 | reflexivity].
Qed.

Lemma deletePasscode_db id w :
  db (snd (deletePasscode id w)) = db w \/
  exists u, uuid_in id = Some u /\
    passcodes (db (snd (deletePasscode id w))) =
      filter (fun p => negb (str_eqb (pc_id p) u)) (passcodes (db w)) /\
    sessions (db (snd (deletePasscode id w))) =
      filter (fun s => negb (owned_by
                (filter (fun p => str_eqb (pc_id p) u) (passcodes (db w))) s))
             (sessions (db w)).
Proof.
  destruct w as [d fl j]. cbn [db].
  destruct (deletePasscode_cases id d fl j) as [H | (u & Hu & _ & H)]; [left; exact H|].
  right. exists u. rewrite H. repeat split. exact Hu.
Qed.

Lemma keeps_deletePasscode_credentials id : keeps credentials_wf (deletePasscode id).
Proof.
  intros w [Hn Hd]. unfold keeps, triple.
  destruct (deletePasscode_db id w) as [-> | (u & _ & Hp & _)]; [split; assumption|].
  split.
  - unfold codes_distinct in *. rewrite Hp. apply NoDup_map_filter. exact Hn.
  - intros p Hin. rewrite Hp in Hin. apply filter_In in Hin. apply Hd, Hin.
Qed.

(** Any predicate of the passcode rows kept by [createPasscode] and
    [deletePasscode] is kept by every request. *)
Lemma keeps_serve_general (I : Db -> Prop) :
  pc_only I ->
  (forall e code name adm, keeps I (createPasscode e code name adm)) ->
  (forall id, keeps I (deletePasscode id)) ->
  forall cfg request e c, keeps I (serve cfg request e c).
Proof.
  intros Hpc Hcreate Hdelete cfg request e c.
  unfold serve, handler, login_POST, status_GET, logout_POST, passcodes_GET, passcodes_POST,
    passcodes_DELETE, first_run_setup, normal_login.
  destruct c;
    repeat first
      [ apply keeps_ret
      | apply keeps_throw
      | apply keeps_request_json
      | apply keeps_readonly, readonly_middleware
      | apply keeps_readonly, readonly_getSession
      | apply keeps_readonly, readonly_hasAnyPasscodes
      | apply keeps_readonly, readonly_listPasscodes
      | apply keeps_login; exact Hpc
      | apply keeps_logout; exact Hpc
      | apply Hcreate
      | apply Hdelete
      | apply keeps_bind; [|intro]
      | apply keeps_try_catch; [|intro]
      | match goal with
        | |- keeps _ (if ?b then _ else _) => destruct b
        | |- keeps _ (match ?x with _ => _ end) => destruct x
        end ].
Qed.

Lemma reachable_keeps (I : Db -> Prop) d0 d :
  (forall cfg request e c, keeps I (serve cfg request e c)) ->
  I d0 -> reachable_from d0 d -> I d.
Proof.
  intros Hk H0 Hr. induction Hr as [|d d' _ IH Hs]; [exact H0|].
  revert IH. destruct Hs as [cfg request e fl c d]. intros IH. rewrite handle_db.
  apply (Hk cfg request e c (mkWorld d fl (cookie request)) IH).
Qed.

(** X10: in every state reached from the empty store, no two passcode rows
    carry the same digest and every stored digest is the digest of a
    six-digit code (both creation paths check the format and the duplicate
    before inserting); hence the digest lookup of [login] never finds more
    than one row.  Each request preserves this. *)
Theorem credentials_integrity :
  (forall d, reachable_from empty_db d ->
     credentials_wf d /\
     forall code, (List.length (lookup_code code d) <= 1)%nat) /\
  (forall cfg request e fl c d, credentials_wf d ->
     credentials_wf (snd (handle cfg request e fl c d))).
Proof.
  assert (K : forall cfg request e c, keeps credentials_wf (serve cfg request e c)).
  { apply keeps_serve_general;
      [apply pc_only_credentials_wf | apply keeps_createPasscode_credentials
      | apply keeps_deletePasscode_credentials]. }
  split.
  - intros d Hr.
    assert (Hw : credentials_wf d).
    { apply (reachable_keeps credentials_wf empty_db d K); [|exact Hr].
      split; [constructor | intros p []]. }
    split; [exact Hw|]. intros code. destruct Hw as [Hn _].
    unfold lookup_code, codes_distinct in *.
    induction (passcodes d) as [|p l IH]; [cbn; lia|].
    cbn [map] in Hn. inversion Hn as [|? ? Hnotin Hn']; subst. cbn [filter].
    destruct (str_eqb (pc_code p) (hashCode code)) eqn:E; [|apply IH, Hn'].
    apply str_eqb_eq in E.
    assert (El : filter (fun q => str_eqb (pc_code q) (hashCode code)) l = []).
    { destruct (filter (fun q => str_eqb (pc_code q) (hashCode code)) l) as [|q l'] eqn:F;
        [reflexivity|].
      assert (Hq : In q (filter (fun q => str_eqb (pc_code q) (hashCode code)) l))
        by (rewrite F; left; reflexivity).
      apply filter_In in Hq. destruct Hq as [Hq Hc]. apply str_eqb_eq in Hc.
      exfalso. apply Hnotin. rewrite E, <- Hc. apply in_map. exact Hq. }
    rewrite El. cbn. lia.
  - intros cfg request e fl c d Hw. rewrite handle_db.
    apply (K cfg request e c (mkWorld d fl (cookie request)) Hw).
Qed.

Lemma credentials_integrity_witness :
  credentials_wf (snd (handle (mkConfig None) (mkRequest None None None) sample_env []
                         (PostLogin (Some (Some (units "000000")))) empty_db)).
Proof.
  apply (proj2 credentials_integrity). split; [constructor | intros p []].
Defined.

Lemma existsb_false_notin {A} (f : A -> jsstring) (x : jsstring) (l : list A) :
  existsb (fun a => str_eqb (f a) x) l = false -> ~ In x (map f l).
Proof.
  intros H Hin. apply in_map_iff in Hin. destruct Hin as [a [Ha Hin]].
  assert (existsb (fun a => str_eqb (f a) x) l = true)
    by (apply existsb_exists; exists a; split; [exact Hin | apply str_eqb_eq; exact Ha]).
  congruence.
Qed.

Lemma integrity_update d id t :
  session_integrity d ->
  session_integrity (mkDb (map (set_lastUsedAt id t) (passcodes d)) (sessions d)).
Proof.
  intros (Ho & Ht & Hi & Hl). split; [|split; [|split]]; try assumption.
  intros s Hs. destruct (Ho s Hs) as [p [Hp Hid]].
  exists (set_lastUsedAt id t p). split; [apply in_map; exact Hp|].
  rewrite <- Hid. apply set_lastUsedAt_same.
Qed.

Lemma integrity_insert_passcode d row :
  session_integrity d ->
  session_integrity (mkDb (passcodes d ++ [row]) (sessions d)).
Proof.
  intros (Ho & Ht & Hi & Hl). split; [|split; [|split]]; try assumption.
  intros s Hs. destruct (Ho s Hs) as [p [Hp Hid]].
  exists p. split; [apply in_or_app; left; exact Hp | exact Hid].
Qed.

Lemma integrity_insert_session d row :
  session_integrity d ->
  existsb (fun s => str_eqb (ss_id s) (ss_id row)) (sessions d) = false ->
  existsb (fun s => str_eqb (ss_token s) (ss_token row)) (sessions d) = false ->
  negb (existsb (fun p => str_eqb (pc_id p) (ss_passcodeId row)) (passcodes d)) = false ->
  List.length (ss_token row) = 64%nat ->
  session_integrity (mkDb (passcodes d) (sessions d ++ [row])).
Proof.
  intros (Ho & Ht & Hi & Hl) Eid Etok Efk Elen. cbn [sessions passcodes].
  split; [|split; [|split]]; cbn [sessions passcodes].
  - intros s Hs. apply in_app_or in Hs. destruct Hs as [Hs | [<- | []]]; [apply Ho, Hs|].
    apply negb_false_iff, existsb_exists in Efk. destruct Efk as [p [Hp Hid]].
    apply str_eqb_eq in Hid. exists p. split; assumption.
  - rewrite map_app. cbn [map].
    apply NoDup_app; [exact Ht | constructor; [intros [] | constructor] |].
    intros x Hx [<- | []]. exact (existsb_false_notin ss_token _ _ Etok Hx).
  - rewrite map_app. cbn [map].
    apply NoDup_app; [exact Hi | constructor; [intros [] | constructor] |].
    intros x Hx [<- | []]. exact (existsb_false_notin ss_id _ _ Eid Hx).
  - intros s Hs. apply in_app_or in Hs. destruct Hs as [Hs | [<- | []]]; [apply Hl, Hs | exact Elen].
Qed.

Lemma integrity_delete_sessions d (keep : Session -> bool) :
  session_integrity d ->
  session_integrity (mkDb (passcodes d) (filter keep (sessions d))).
Proof.
  intros (Ho & Ht & Hi & Hl). split; [|split; [|split]]; cbn [sessions passcodes].
  - intros s Hs. apply filter_In in Hs. apply Ho, Hs.
  - apply NoDup_map_filter. exact Ht.
  - apply NoDup_map_filter. exact Hi.
  - intros s Hs. apply filter_In in Hs. apply Hl, Hs.
Qed.

Lemma integrity_delete_passcodes d id :
  session_integrity d ->
  session_integrity
    (mkDb (filter (fun p => negb (str_eqb (pc_id p) id)) (passcodes d))
          (filter (fun s => negb (owned_by
                     (filter (fun p => str_eqb (pc_id p) id) (passcodes d)) s))
                  (sessions d))).
Proof.
  intros (Ho & Ht & Hi & Hl). split; [|split; [|split]]; cbn [sessions passcodes].
  - intros s Hs. apply filter_In in Hs. destruct Hs as [Hs Hkeep].
    destruct (Ho s Hs) as [p [Hp Hid]]. exists p. split; [|exact Hid].
    apply filter_In. split; [exact Hp|].
    destruct (str_eqb (pc_id p) id) eqn:E; [|reflexivity].
    exfalso. apply negb_true_iff in Hkeep.
    assert (owned_by (filter (fun p => str_eqb (pc_id p) id) (passcodes d)) s = true).
    { unfold owned_by. apply existsb_exists. exists p. split.
      - apply filter_In. split; assumption.
      - apply str_eqb_eq. exact Hid. }
    congruence.
  - apply NoDup_map_filter. exact Ht.
  - apply NoDup_map_filter. exact Hi.
  - intros s Hs. apply filter_In in Hs. apply Hl, Hs.
Qed.

Lemma keeps_serve_session_integrity cfg request e c :
  keeps session_integrity (serve cfg request e c).
Proof.
  unfold serve, middleware, validateRequest, handler.
  unfold login_POST, status_GET, logout_POST, passcodes_GET, passcodes_POST,
    passcodes_DELETE, first_run_setup, normal_login.
  unfold login, getSession, logout, hasAnyPasscodes, createPasscode, listPasscodes,
    deletePasscode, request_json.
  unfold select_passcodes, select_passcodes_limit, select_passcodes_by_id, update_lastUsedAt,
    insert_passcode, insert_session, delete_sessions_by_token, delete_passcodes_by_id,
    select_sessions_join.
  destruct c; keeps_walk;
    apply keeps_store_call; intros d H; cbv beta;
    try match goal with
        | |- context [match uuid_in ?i with _ => _ end] => destruct (uuid_in i)
        end;
    repeat match goal with
           | |- context [if ?b then _ else _] => let E := fresh "E" in destruct b eqn:E
           end;
    cbn [snd]; try exact H;
    first
      [ apply integrity_update; exact H
      | apply integrity_insert_passcode; exact H
      | apply integrity_delete_sessions; exact H
      | apply integrity_delete_passcodes; exact H
      | apply integrity_insert_session;
        [exact H | assumption | assumption | assumption | apply generateToken_length] ].
Qed.

(** X11: in every state reached from the empty store, every session row
    belongs to an existing passcode (deleting a passcode takes its sessions
    with it), session ids and tokens are pairwise distinct, and every token
    has 64 characters; so a presented cookie matches at most one session row.
    Each request preserves this. *)
Theorem sessions_integrity :
  (forall d, reachable_from empty_db d ->
     session_integrity d /\
     forall token, (List.length (filter (fun s => str_eqb (ss_token s) token) (sessions d))
                    <= 1)%nat) /\
  (forall cfg request e fl c d, session_integrity d ->
     session_integrity (snd (handle cfg request e fl c d))).
Proof.
  split.
  - intros d Hr.
    assert (Hw : session_integrity d).
    { apply (reachable_keeps session_integrity empty_db d keeps_serve_session_integrity);
        [|exact Hr].
      split; [intros s [] | split; [constructor | split; [constructor | intros s []]]]. }
    split; [exact Hw|]. intros token. destruct Hw as (_ & Hn & _).
    induction (sessions d) as [|s l IH]; [cbn; lia|].
    cbn [map] in Hn. inversion Hn as [|? ? Hnotin Hn']; subst. cbn [filter].
    destruct (str_eqb (ss_token s) token) eqn:E; [|apply IH, Hn'].
    apply str_eqb_eq in E.
    assert (El : filter (fun q => str_eqb (ss_token q) token) l = []).
    { destruct (filter (fun q => str_eqb (ss_token q) token) l) as [|q l'] eqn:F;
        [reflexivity|].
      assert (Hq : In q (filter (fun q => str_eqb (ss_token q) token) l))
        by (rewrite F; left; reflexivity).
      apply filter_In in Hq. destruct Hq as [Hq Hc]. apply str_eqb_eq in Hc.
      exfalso. apply Hnotin. rewrite E, <- Hc. apply in_map. exact Hq. }
    rewrite El. cbn. lia.
  - intros cfg request e fl c d Hw. rewrite handle_db.
    apply (keeps_serve_session_integrity cfg request e c (mkWorld d fl (cookie request)) Hw).
Qed.

Lemma sessions_integrity_witness :
  session_integrity (snd (handle (mkConfig None) (mkRequest None None None) sample_env []
                            (PostLogin (Some (Some (units "000000")))) empty_db)).
Proof.
  apply (proj2 sessions_integrity).
  split; [intros s [] | split; [constructor | split; [constructor | intros s []]]].
Defined.

(* ================================================================= *)
(** ** The session-status route *)

Lemma current_session_authenticated d j t info :
  current_session d j t = Some info -> authenticated info = true.
Proof.
  intros H. apply current_session_some in H. destruct H as (s & p & _ & ->). reflexivity.
Qed.

Lemma current_session_none_iff d j t :
  current_session d j t = None <-> ~ exists s p, live_session d j t s p.
Proof.
  split.
  - intros Hn (s & p & Hl). apply current_session_live in Hl. destruct Hl as [i Hi].
    congruence.
  - intros Hn. destruct (current_session d j t) as [i|] eqn:E; [|reflexivity].
    exfalso. apply Hn. apply current_session_some in E.
    destruct E as (s & p & Hl & _). exists s, p. exact Hl.
Qed.

(** X12: the status route never throws and never changes the tables or the
    cookie; it answers 200, or 500 with [authenticated: false] when a store
    call fails.  With the store answering it answers 200 and reports
    [needsSetup] exactly when the passcode table is empty, and
    [authenticated] exactly when the cookie names a session that has not
    expired; the two are never reported together. *)
Theorem status_GET_reports (e : Env) (d : Db) (fl : list bool) (j : option jsstring) :
  (exists authed setup info st,
     fst (status_GET e (mkWorld d fl j)) = Returned (json (StatusBody authed setup info) st) /\
     (st = 200 \/ st = 500 /\ authed = false /\ setup = false /\ info = None) /\
     (quiet fl ->
        st = 200 /\
        (setup = true <-> passcodes d = []) /\
        (authed = true <-> exists s p, live_session d j (now e) s p) /\
        (setup = true -> authed = false))) /\
  db (snd (status_GET e (mkWorld d fl j))) = d /\
  jar (snd (status_GET e (mkWorld d fl j))) = j.
Proof.
  unfold status_GET, try_catch, bind, ret. rewrite hasAnyPasscodes_run.
  destruct fl as [|[|] rest].
  2:{ cbn [fst snd db jar]. split; [|split; reflexivity].
      exists false, false, None, 500. split; [reflexivity|]. split; [right; auto|].
      intros Hq. specialize (Hq true (or_introl eq_refl)). discriminate. }
  all: cbn [tl].
  all: destruct (passcodes d) as [|p0 ps] eqn:Ep; cbn [List.length Nat.eqb negb fst snd db jar].
  all: try (split; [|split; reflexivity];
            exists false, true, None, 200; split; [reflexivity|]; split; [left; reflexivity|];
            intros _; split; [reflexivity|]; split; [tauto|]; split; [|reflexivity];
            split; [discriminate|];
            intros (s & p & token & _ & _ & _ & _ & _ & Hp & _); rewrite Ep in Hp;
            contradiction).
  all: rewrite getSession_run.
  all: destruct (falsy j) eqn:Hf.
  all: try match goal with
       | |- context [match ?l with [] => _ | _ => _ end] =>
           match l with
           | ?b :: ?r => idtac
           | [] => idtac
           | _ => destruct l as [|[|] ?]
           end
       end.
  all: cbn [tl fst snd db jar].
  all: try (split; [|split; reflexivity];
            exists false, false, None, 500; split; [reflexivity|]; split; [right; auto|];
            intros Hq; specialize (Hq true (or_intror (or_introl eq_refl))); discriminate).
  (* the cookie is missing or empty *)
  all: try (split; [|split; reflexivity];
            exists false, false, None, 200; split; [reflexivity|]; split; [left; reflexivity|];
            intros _; split; [reflexivity|]; split; [split; discriminate|];
            split; [|discriminate]; split; [discriminate|];
            intros (s & p & token & Hj & Hne & _);
            assert (falsy j = false) by (apply falsy_false; exists token; auto);
            congruence).
  (* the session lookup ran *)
  all: destruct (current_session d j (now e)) as [info|] eqn:Ec; cbn [fst snd db jar].
  all: split; [|split; reflexivity].
  all: try (exists (authenticated info), false, (Some info), 200;
            split; [reflexivity|]; split; [left; reflexivity|];
            intros _; split; [reflexivity|]; split; [split; discriminate|];
            split; [|discriminate];
            rewrite (current_session_authenticated _ _ _ _ Ec);
            split; [intros _|reflexivity];
            apply current_session_some in Ec; destruct Ec as (s & p & Hl & _);
            exists s, p; exact Hl).
  all: exists false, false, None, 200;
       split; [reflexivity|]; split; [left; reflexivity|];
       intros _; split; [reflexivity|]; split; [split; discriminate|];
       split; [|discriminate]; split; [discriminate|];
       intros Hl; apply current_session_none_iff in Ec; contradiction.
Qed.

Lemma status_GET_reports_witness :
  exists authed setup info st,
    fst (status_GET sample_env (mkWorld empty_db [] None)) =
      Returned (json (StatusBody authed setup info) st) /\
    st = 200 /\ (setup = true <-> passcodes empty_db = []) /\ authed = false.
Proof.
  destruct (status_GET_reports sample_env empty_db [] None)
    as [(authed & setup & info & st & Hr & _ & Hq) _].
  destruct (Hq quiet_nil) as (Hst & Hsetup & _ & Hno).
  exists authed, setup, info, st.
  split; [exact Hr|]. split; [exact Hst|]. split; [exact Hsetup|].
  apply Hno, Hsetup. reflexivity.
Defined.

(* ================================================================= *)
(** ** More of [auth.ts]: [listPasscodes] *)

Lemma insert_by_createdAt_perm p l : Permutation (p :: l) (insert_by_createdAt p l).
Proof.
  induction l as [|q l IH]; cbn [insert_by_createdAt]; [apply Permutation_refl|].
  destruct (pc_createdAt p <? pc_createdAt q); [apply Permutation_refl|].
  eapply Permutation_trans; [apply perm_swap|]. apply perm_skip. exact IH.
Qed.

Lemma order_by_createdAt_perm l : Permutation l (order_by_createdAt l).
Proof.
  induction l as [|p l IH]; cbn; [constructor|].
  eapply Permutation_trans; [apply perm_skip; exact IH|]. apply insert_by_createdAt_perm.
Qed.

Lemma ascending_cons a l :
  ascending (a :: l) = true <->
  (match l with [] => True | b :: _ => a <= b end) /\ ascending l = true.
Proof.
  destruct l as [|b l]; cbn [ascending]; [tauto|].
  rewrite andb_true_iff, Z.leb_le. tauto.
Qed.

Lemma insert_by_createdAt_ascending p l :
  ascending (map pc_createdAt l) = true ->
  ascending (map pc_createdAt (insert_by_createdAt p l)) = true.
Proof.
  induction l as [|q l IH]; [reflexivity|].
  intros H. cbn [insert_by_createdAt].
  destruct (pc_createdAt p <? pc_createdAt q) eqn:E.
  - change (ascending (pc_createdAt p :: map pc_createdAt (q :: l)) = true).
    apply ascending_cons. split; [|exact H]. cbn [map]. apply Z.ltb_lt in E. lia.
  - apply Z.ltb_ge in E. cbn [map] in H |- *. apply ascending_cons in H.
    destruct H as [Hh Ht]. apply ascending_cons. split; [|apply IH, Ht].
    destruct l as [|r l]; cbn [insert_by_createdAt map]; [exact E|].
    destruct (pc_createdAt p <? pc_createdAt r); cbn [map]; [exact E | exact Hh].
Qed.

Lemma order_by_createdAt_ascending l :
  ascending (map pc_createdAt (order_by_createdAt l)) = true.
Proof.
  induction l as [|p l IH]; [reflexivity|]. cbn. apply insert_by_createdAt_ascending, IH.
Qed.

Lemma map_view_createdAt l : map pv_createdAt (map view l) = map pc_createdAt l.
Proof. rewrite map_map. reflexivity. Qed.

(** X13: [listPasscodes] changes nothing; when the store answers, it
    returns one view per passcode row (each row exactly once, none left
    out), in ascending order of [createdAt]; a row's view carries its id,
    name, admin flag and dates.  When the store fails it throws. *)
Theorem listPasscodes_sorted_complete (d : Db) (fl : list bool) (j : option jsstring) :
  snd (listPasscodes (mkWorld d fl j)) = mkWorld d (tl fl) j /\
  (hd false fl = true -> fst (listPasscodes (mkWorld d fl j)) = Thrown StoreFault) /\
  (hd false fl = false ->
   exists rows,
     fst (listPasscodes (mkWorld d fl j)) = Returned rows /\
     Permutation (map view (passcodes d)) rows /\
     ascending (map pv_createdAt rows) = true /\
     List.length rows = List.length (passcodes d)).
Proof.
  unfold listPasscodes, store_call. cbn [faults db jar].
  destruct fl as [|[|] rest]; cbn [hd tl fst snd].
  2:{ split; [reflexivity|]. split; [reflexivity | discriminate]. }
  all: split; [reflexivity|]; split; [discriminate|]; intros _;
    exists (map view (order_by_createdAt (passcodes d)));
    split; [reflexivity|]; split; [apply Permutation_map, order_by_createdAt_perm|];
    split; [rewrite map_view_createdAt; apply order_by_createdAt_ascending|];
    rewrite length_map; symmetry; apply Permutation_length, order_by_createdAt_perm.
Qed.

Lemma listPasscodes_sorted_complete_witness :
  exists rows,
    fst (listPasscodes (mkWorld (mkDb [admin_row "a1" "111111"; guest_row "g1" "222222"] [])
                          [] None)) = Returned rows /\
    List.length rows = 2%nat.
Proof.
  destruct (listPasscodes_sorted_complete
              (mkDb [admin_row "a1" "111111"; guest_row "g1" "222222"] []) [] None)
    as (_ & _ & H).
  destruct (H eq_refl) as (rows & Hr & _ & _ & Hl).
  exists rows. split; [exact Hr | exact Hl].
Defined.

(* ================================================================= *)
(** ** The passcode-creation route and the middleware *)

Lemma createPasscode_outcomes e code name adm d fl j :
  let r := createPasscode e code name adm (mkWorld d fl j) in
  (db (snd r) = d /\ jar (snd r) = j /\
   forall res, fst r = Returned res -> success res = false) \/
  (six_digits code = true /\ lookup_code code d = [] /\
   exists fl',
     r = (Returned succeeded,
          mkWorld (mkDb (passcodes d ++ [new_passcode e code name adm]) (sessions d)) fl' j)).
Proof.
  cbv zeta. unfold createPasscode.
  destruct (six_digits code) eqn:E6; cbn [negb].
  2:{ left. cbn. repeat split. intros res H. inversion H. reflexivity. }
  unfold bind, select_passcodes, insert_passcode, ret.
  store_step.
  { left. cbn. repeat split. discriminate. }
  fold (lookup_code code d). cbn [db].
  destruct (lookup_code code d) as [|p rows] eqn:El.
  2:{ left. cbn. repeat split. intros res H. inversion H. reflexivity. }
  store_step.
  { left. cbn. repeat split. discriminate. }
  cbn [db pc_id].
  destruct (existsb (fun p => str_eqb (pc_id p) (fresh_passcode_id e)) (passcodes d)) eqn:Eid.
  { left. cbn. repeat split. discriminate. }
  right. repeat split. eexists. reflexivity.
Qed.

Lemma falsy_some s : falsy s = false -> exists v, s = Some v /\ v <> [].
Proof. apply falsy_false. Qed.

(** X14: the passcode-creation route never throws and never touches the
    cookie or the session table.  It answers 200 only when the caller's
    cookie names a live session of an admin passcode, the body carries a
    non-empty name and a six-digit code whose digest no row carries; the
    tables then gain exactly one passcode row, with the digest of the code,
    that name, no use date, and the admin flag of the body, which is false
    when the body has none.  With any other answer the tables are as they
    were. *)
Theorem passcodes_POST_effect (e : Env) (parsed : option CreateBody) (d : Db)
    (fl : list bool) (j : option jsstring) :
  exists response,
    fst (passcodes_POST e parsed (mkWorld d fl j)) = Returned response /\
    jar (snd (passcodes_POST e parsed (mkWorld d fl j))) = j /\
    sessions (db (snd (passcodes_POST e parsed (mkWorld d fl j)))) = sessions d /\
    (status response = 200 ->
       exists b code name info,
         parsed = Some b /\ b_code b = Some code /\ b_name b = Some name /\
         name <> [] /\ six_digits code = true /\ lookup_code code d = [] /\
         current_session d j (now e) = Some info /\ isAdmin info = true /\
         passcodes (db (snd (passcodes_POST e parsed (mkWorld d fl j)))) =
           passcodes d ++
           [new_passcode e code name (match b_isAdmin b with Some a => a | None => false end)]) /\
    (status response <> 200 ->
       db (snd (passcodes_POST e parsed (mkWorld d fl j))) = d).
Proof.
  unfold passcodes_POST, try_catch, bind. rewrite getSession_run.
  destruct (falsy j) eqn:Hf.
  { cbn. eexists. repeat split; try reflexivity. intros H; discriminate H. }
  destruct fl as [|[|] rest]; cbn [tl].
  2:{ cbn. eexists. repeat split; try reflexivity. intros H; discriminate H. }
  all: destruct (current_session d j (now e)) as [info|] eqn:Ec; cbn [is_admin_session];
    [|cbn; eexists; repeat split; try reflexivity; intros H; discriminate H].
  all: destruct (authenticated info && isAdmin info) eqn:Ea; cbn [negb];
    [|cbn; eexists; repeat split; try reflexivity; intros H; discriminate H].
  all: apply andb_true_iff in Ea; destruct Ea as [_ Ea].
  all: destruct parsed as [b|]; cbn [request_json];
    [|cbn; eexists; repeat split; try reflexivity; intros H; discriminate H].
  all: unfold ret; cbv beta iota.
  all: destruct (falsy (b_code b)) eqn:Hc; cbn [orb];
    [cbn; eexists; repeat split; try reflexivity; intros H; discriminate H|].
  all: destruct (falsy (b_name b)) eqn:Hn;
    [cbn; eexists; repeat split; try reflexivity; intros H; discriminate H|].
  all: destruct (falsy_some _ Hc) as [code [Hcode _]];
    destruct (falsy_some _ Hn) as [name [Hname Hne]].
  all: rewrite Hcode, Hname; cbn [or_empty].
  all: match goal with
       | |- context [createPasscode ?e' ?code' ?name' ?adm (mkWorld ?d' ?fl' ?j')] =>
           destruct (createPasscode_outcomes e' code' name' adm d' fl' j')
             as [(Hd & Hj & Hres) | (E6 & El & fl'' & Hr)]
       end.
  all: try (rewrite Hr; cbn; eexists; repeat split; try reflexivity;
            [intros _; exists b, code, name, info; rewrite Hcode, Hname;
             repeat split; assumption
            |intros H; exfalso; apply H; reflexivity]).
  all: match goal with
       | |- context [createPasscode ?e' ?code' ?name' ?adm ?w] =>
           destruct (createPasscode e' code' name' adm w) as [[res|x] w'] eqn:Er;
           cbn [fst snd] in Hd, Hj, Hres |- *
       end.
  all: try (rewrite (Hres res eq_refl); cbn; eexists; repeat split;
            [exact Hj | rewrite Hd; reflexivity | intros H; discriminate H
            | intros _; exact Hd]).
  all: cbn; eexists; repeat split;
    [exact Hj | rewrite Hd; reflexivity | intros H; discriminate H | intros _; exact Hd].
Qed.

Lemma passcodes_POST_effect_witness :
  exists response,
    fst (passcodes_POST sample_env None (mkWorld empty_db [] None)) = Returned response /\
    db (snd (passcodes_POST sample_env None (mkWorld empty_db [] None))) = empty_db.
Proof.
  destruct (passcodes_POST_effect sample_env None empty_db [] None)
    as (response & Hr & _ & _ & _ & Hd).
  exists response. split; [exact Hr|]. apply Hd.
  cbn in Hr. inversion Hr. cbn. discriminate.
Defined.

Lemma validateRequest_run cfg request e d fl j :
  validateRequest cfg request e (mkWorld d fl j) =
  if valid (validateApiToken cfg request) then (Returned (mkValidation true None), mkWorld d fl j)
  else if falsy j then
    (Returned (mkValidation false
       (Some (json (ErrorBody
          (Some "Unauthorized - Please provide a valid API token or login"%string)) 401))),
     mkWorld d fl j)
  else match fl with
       | true :: rest => (Thrown StoreFault, mkWorld d rest j)
       | _ =>
           (Returned
              (if is_authenticated (current_session d j (now e))
               then mkValidation true None
               else mkValidation false
                      (Some (json (ErrorBody
                         (Some "Unauthorized - Please provide a valid API token or login"%string))
                         401))),
            mkWorld d (tl fl) j)
       end.
Proof.
  unfold validateRequest. destruct (valid (validateApiToken cfg request)); [reflexivity|].
  unfold bind. rewrite getSession_run. destruct (falsy j); [reflexivity|].
  destruct fl as [|[|] rest]; cbn [tl]; try reflexivity;
    destruct (is_authenticated (current_session d j (now e))); reflexivity.
Qed.

Lemma is_authenticated_current d j t :
  is_authenticated (current_session d j t) = true <-> exists s p, live_session d j t s p.
Proof.
  destruct (current_session d j t) as [info|] eqn:E; cbn [is_authenticated].
  - rewrite (current_session_authenticated _ _ _ _ E). split; [intros _|reflexivity].
    apply current_session_some in E. destruct E as (s & p & Hl & _). exists s, p. exact Hl.
  - split; [discriminate|]. intros Hl. apply current_session_none_iff in E. contradiction.
Qed.

(** X15: the middleware never changes the tables or the cookie.  A path
    outside [/api/], and the login, setup and status paths, pass without any
    store call, whatever the request carries.  Any other [/api/] path, with
    the store answering, passes exactly when the request carries the
    configured API token (or none is configured) or its cookie names a live
    session; otherwise the answer is the 401 of [validateRequest] and the
    route is not reached. *)
Theorem middleware_gate (cfg : Config) (request : Request) (pathname : jsstring)
    (e : Env) (d : Db) (fl : list bool) (j : option jsstring) :
  db (snd (middleware cfg request pathname e (mkWorld d fl j))) = d /\
  jar (snd (middleware cfg request pathname e (mkWorld d fl j))) = j /\
  (startsWith pathname (units "/api/") = false \/ exempt pathname = true ->
     middleware cfg request pathname e (mkWorld d fl j) = (Returned None, mkWorld d fl j)) /\
  (startsWith pathname (units "/api/") = true -> exempt pathname = false -> quiet fl ->
     (fst (middleware cfg request pathname e (mkWorld d fl j)) = Returned None <->
      valid (validateApiToken cfg request) = true \/
      exists s p, live_session d j (now e) s p) /\
     (fst (middleware cfg request pathname e (mkWorld d fl j)) <> Returned None ->
      fst (middleware cfg request pathname e (mkWorld d fl j)) =
      Returned (Some (json (ErrorBody
        (Some "Unauthorized - Please provide a valid API token or login"%string)) 401)))).
Proof.
  unfold middleware, bind.
  destruct (startsWith pathname (units "/api/")) eqn:Ea.
  2:{ cbn. repeat split; try reflexivity; discriminate. }
  destruct (exempt pathname) eqn:Ee.
  { cbn. repeat split; try reflexivity; discriminate. }
  rewrite validateRequest_run.
  destruct (valid (validateApiToken cfg request)) eqn:Ev.
  { cbn. split; [reflexivity|]. split; [reflexivity|].
    split; [intros [H|H]; discriminate H|]. intros _ _ _.
    split; [split; [intros _; left; reflexivity | reflexivity]|].
    intros H. exfalso. apply H. reflexivity. }
  destruct (falsy j) eqn:Hf.
  { cbn. split; [reflexivity|]. split; [reflexivity|].
    split; [intros [H|H]; discriminate H|]. intros _ _ _.
    split; [|reflexivity]. split; [discriminate|].
    intros [H | (s & p & token & Hj & Hne & _)]; [discriminate H|].
    assert (falsy j = false) by (apply falsy_false; exists token; auto). congruence. }
  destruct fl as [|[|] rest]; cbn [tl].
  2:{ cbn. split; [reflexivity|]. split; [reflexivity|].
      split; [intros [H|H]; discriminate H|]. intros _ _ Hq.
      specialize (Hq true (or_introl eq_refl)). discriminate. }
  all: destruct (is_authenticated (current_session d j (now e))) eqn:Ec; cbn;
    (split; [reflexivity|]); (split; [reflexivity|]);
    (split; [intros [H|H]; discriminate H|]); intros _ _ _.
  all: try (split; [split; [intros _; right; apply is_authenticated_current, Ec | reflexivity]|];
            intros H; exfalso; apply H; reflexivity).
  all: split; [|reflexivity]; split; [discriminate|];
    intros [H | H]; [discriminate H|]; apply is_authenticated_current in H; congruence.
Qed.

Lemma middleware_gate_witness :
  fst (middleware (mkConfig (Some (units "secret"))) (mkRequest None None None)
         (units "/api/tasks") sample_env (mkWorld empty_db [] None)) =
  Returned (Some (json (ErrorBody
    (Some "Unauthorized - Please provide a valid API token or login"%string)) 401)).
Proof.
  destruct (middleware_gate (mkConfig (Some (units "secret"))) (mkRequest None None None)
              (units "/api/tasks") sample_env empty_db [] None) as (_ & _ & _ & H).
  destruct (H eq_refl eq_refl quiet_nil) as [_ H2].
  apply H2. cbn. discriminate.
Defined.

(* ================================================================= *)
(** ** [verifyApiToken] *)

Lemma String_split_nonempty sep s : String_split sep s <> [].
Proof.
  destruct s as [|c s]; cbn; [discriminate|].
  destruct (c =? sep); [discriminate|]. destruct (String_split sep s); discriminate.
Qed.

(** The first segment has no separator, and the rest of the string is split
    after it. *)
Lemma String_split_first sep s :
  exists seg segs,
    String_split sep s = seg :: segs /\ ~ In sep seg /\
    (segs = [] /\ s = seg \/
     exists r, s = seg ++ sep :: r /\ segs = String_split sep r).
Proof.
  induction s as [|c s IH].
  - exists [], []. split; [reflexivity|]. split; [intros []|]. left. split; reflexivity.
  - cbn [String_split]. destruct (c =? sep) eqn:E.
    + apply Z.eqb_eq in E. subst c. exists [], (String_split sep s).
      split; [reflexivity|]. split; [intros []|]. right. exists s. split; reflexivity.
    + apply Z.eqb_neq in E. destruct IH as (seg & segs & Hs & Hn & Hc). rewrite Hs.
      exists (c :: seg), segs. split; [reflexivity|].
      split; [intros [H|H]; [congruence | contradiction]|].
      destruct Hc as [[-> ->] | (r & -> & ->)].
      * left. split; reflexivity.
      * right. exists r. split; reflexivity.
Qed.

Lemma String_split_app sep a r :
  ~ In sep a -> String_split sep (a ++ sep :: r) = a :: String_split sep r.
Proof.
  induction a as [|c a IH]; intros Hn.
  - cbn. rewrite Z.eqb_refl. reflexivity.
  - cbn [app String_split].
    assert (E : (c =? sep) = false) by (apply Z.eqb_neq; intros ->; apply Hn; left; reflexivity).
    rewrite E, IH by (intros H; apply Hn; right; exact H). reflexivity.
Qed.

Lemma String_split_plain sep a : ~ In sep a -> String_split sep a = [a].
Proof.
  induction a as [|c a IH]; intros Hn; [reflexivity|].
  cbn [String_split].
  assert (E : (c =? sep) = false) by (apply Z.eqb_neq; intros ->; apply Hn; left; reflexivity).
  rewrite E, IH by (intros H; apply Hn; right; exact H). reflexivity.
Qed.

Lemma Bearer_no_space : ~ In 32 (units "Bearer").
Proof. cbn. intros H. repeat (destruct H as [H|H]; [discriminate H|]). exact H. Qed.

(** What [verifyApiToken] accepts when a token is configured. *)
Lemma verifyApiToken_true_iff apiToken request :
  apiToken <> [] ->
  (verifyApiToken (Some apiToken) request = true <->
   ~ In 32 apiToken /\
   exists rest,
     authorization request = Some (units "Bearer " ++ apiToken ++ rest) /\
     (rest = [] \/ exists r, rest = 32 :: r)).
Proof.
  intros Hne. unfold verifyApiToken.
  assert (Hf : falsy (Some apiToken) = false) by (destruct apiToken; [contradiction|reflexivity]).
  rewrite Hf. destruct (authorization request) as [h|]; cbn [falsy].
  2:{ split; [discriminate|]. intros [_ (rest & H & _)]. discriminate H. }
  destruct h as [|c0 h0].
  { split; [discriminate|]. intros [_ (rest & H & _)]. discriminate H. }
  remember (c0 :: h0) as h eqn:Eh. cbv zeta.
  destruct (String_split_first 32 h) as (seg & segs & Hs & Hn & Hc). rewrite Hs.
  cbn [nth_error opt_str_eqb].
  destruct (str_eqb seg (units "Bearer")) eqn:Eb; cbn [negb orb].
  - apply str_eqb_eq in Eb. subst seg.
    destruct Hc as [[-> Hh] | (r & Hh & ->)].
    + cbn [nth_error falsy]. split; [discriminate|].
      intros [_ (rest & H & _)]. exfalso.
      assert (H1 : h = units "Bearer " ++ apiToken ++ rest) by congruence.
      rewrite Hh in H1. cbn in H1. discriminate H1.
    + destruct (String_split_first 32 r) as (tok & segs' & Hs' & Hn' & Hc').
      rewrite Hs'. cbn [nth_error opt_str_eqb].
      destruct tok as [|t0 tok0] eqn:Et; cbn [falsy].
      * split; [discriminate|]. intros [Hsp (rest & H & _)]. exfalso.
        assert (H1 : h = units "Bearer " ++ apiToken ++ rest) by congruence.
        rewrite Hh in H1. cbn in H1.
        assert (Hr : r = apiToken ++ rest) by congruence.
        destruct apiToken as [|a0 a]; [contradiction|].
        destruct Hc' as [[_ Hr'] | (r' & Hr' & _)]; rewrite Hr' in Hr; cbn in Hr.
        -- discriminate Hr.
        -- inversion Hr. subst a0. apply Hsp. left. reflexivity.
      * rewrite <- Et in *. clear Et. split.
        -- intros H. apply str_eqb_eq in H. subst tok. split; [exact Hn'|].
           destruct Hc' as [[_ Hr] | (r' & Hr & _)].
           ++ exists []. split; [|left; reflexivity].
              rewrite Hh, Hr, app_nil_r. reflexivity.
           ++ exists (32 :: r'). split; [|right; exists r'; reflexivity].
              rewrite Hh, Hr. reflexivity.
        -- intros [Hsp (rest & H & Hrest)]. apply str_eqb_eq.
           assert (H1 : h = units "Bearer " ++ apiToken ++ rest) by congruence.
           rewrite Hh in H1. cbn in H1.
           assert (Hr : r = apiToken ++ rest) by congruence.
           assert (Hsplit : String_split 32 r = tok :: segs') by exact Hs'.
           rewrite Hr in Hsplit.
           destruct Hrest as [-> | (r' & ->)].
           ++ rewrite app_nil_r, String_split_plain in Hsplit by exact Hsp. congruence.
           ++ rewrite String_split_app in Hsplit by exact Hsp. congruence.
  - split; [discriminate|]. intros [Hsp (rest & H & Hrest)]. exfalso.
    apply str_eqb_neq in Eb. apply Eb.
    assert (H1 : h = units "Bearer " ++ apiToken ++ rest) by congruence.
    assert (Hsplit : String_split 32 h = seg :: segs) by exact Hs.
    rewrite H1 in Hsplit.
    change (units "Bearer " ++ apiToken ++ rest)
      with (units "Bearer" ++ 32 :: (apiToken ++ rest)) in Hsplit.
    rewrite String_split_app in Hsplit by exact Bearer_no_space. congruence.
Qed.

(** X16: with a non-empty [API_TOKEN] configured, [verifyApiToken] accepts a
    request exactly when the token has no space in it and the
    [Authorization] header is 'Bearer ', the token, and then nothing or a
    space followed by anything.  So a configured token that contains a
    space can never be presented, whatever the header; and with no token,
    or the empty one, configured every request is accepted. *)
Theorem verifyApiToken_accepts (apiToken : jsstring) (request : Request) :
  (apiToken <> [] ->
   (verifyApiToken (Some apiToken) request = true <->
    ~ In 32 apiToken /\
    exists rest,
      authorization request = Some (units "Bearer " ++ apiToken ++ rest) /\
      (rest = [] \/ exists r, rest = 32 :: r))) /\
  (In 32 apiToken -> verifyApiToken (Some apiToken) request = false) /\
  verifyApiToken None request = true /\
  verifyApiToken (Some []) request = true.
Proof.
  split; [apply verifyApiToken_true_iff|]. split; [|split; reflexivity].
  intros Hin.
  assert (Hne : apiToken <> []) by (intros ->; contradiction).
  destruct (verifyApiToken (Some apiToken) request) eqn:E; [|reflexivity].
  apply (verifyApiToken_true_iff _ _ Hne) in E. destruct E as [Hn _]. contradiction.
Qed.

Lemma verifyApiToken_accepts_witness :
  verifyApiToken (Some (units "my token"))
    (mkRequest (Some (units "Bearer my token")) None None) = false.
Proof.
  apply (proj1 (proj2 (verifyApiToken_accepts (units "my token")
                         (mkRequest (Some (units "Bearer my token")) None None)))).
  cbn. right. right. left. reflexivity.
Defined.

(** X17: the two token checks compared, for the same configured token
    (non-empty).  On the [Authorization] header alone, whatever
    [validateApiToken] accepts [verifyApiToken] accepts too, provided the
    token has no space; [verifyApiToken] also accepts the token followed by
    a space and anything, which [validateApiToken] refuses; and a request
    that presents the token only in [x-api-token] is accepted by
    [validateApiToken] and refused by [verifyApiToken]. *)
Theorem verifyApiToken_vs_validateApiToken (apiToken : jsstring) :
  apiToken <> [] ->
  (forall request, ~ In 32 apiToken ->
     bearer_candidate request = Some apiToken ->
     valid (validateApiToken (mkConfig (Some apiToken)) request) = true /\
     verifyApiToken (Some apiToken) request = true) /\
  (forall junk x, ~ In 32 apiToken ->
     let request := mkRequest (Some (units "Bearer " ++ apiToken ++ 32 :: junk)) x None in
     verifyApiToken (Some apiToken) request = true /\
     (x <> Some apiToken ->
      valid (validateApiToken (mkConfig (Some apiToken)) request) = false)) /\
  (forall j,
     let request := mkRequest None (Some apiToken) j in
     valid (validateApiToken (mkConfig (Some apiToken)) request) = true /\
     verifyApiToken (Some apiToken) request = false).
Proof.
  intros Hne.
  assert (Hf : falsy (Some apiToken) = false) by (destruct apiToken; [contradiction|reflexivity]).
  split; [|split].
  - intros request Hsp Hb. split.
    + unfold validateApiToken. cbn [API_AUTH_TOKEN]. rewrite Hf, Hb. cbn [opt_str_eqb].
      rewrite str_eqb_refl. reflexivity.
    + apply verifyApiToken_true_iff; [exact Hne|]. split; [exact Hsp|].
      exists []. split; [|left; reflexivity]. rewrite app_nil_r.
      apply bearer_candidate_iff in Hb. exact Hb.
  - intros junk x Hsp request. split.
    + apply verifyApiToken_true_iff; [exact Hne|]. split; [exact Hsp|].
      exists (32 :: junk). split; [reflexivity | right; exists junk; reflexivity].
    + intros Hx. unfold validateApiToken. cbn [API_AUTH_TOKEN]. rewrite Hf.
      assert (Hb : bearer_candidate request = Some (apiToken ++ 32 :: junk)).
      { apply bearer_candidate_iff. reflexivity. }
      rewrite Hb. cbn [opt_str_eqb].
      assert (E1 : str_eqb (apiToken ++ 32 :: junk) apiToken = false).
      { apply str_eqb_neq. intros H.
        assert (Hl : List.length (apiToken ++ 32 :: junk) = List.length apiToken)
          by (rewrite H; reflexivity).
        rewrite length_app in Hl. cbn in Hl. lia. }
      rewrite E1. subst request. cbn [x_api_token].
      destruct x as [x|]; cbn [opt_str_eqb]; [|reflexivity].
      assert (E2 : str_eqb x apiToken = false) by (apply str_eqb_neq; congruence).
      rewrite E2. reflexivity.
  - intros j request. split.
    + unfold validateApiToken. cbn [API_AUTH_TOKEN]. rewrite Hf.
      subst request. unfold bearer_candidate. cbn [authorization x_api_token opt_str_eqb].
      rewrite str_eqb_refl. reflexivity.
    + unfold verifyApiToken. rewrite Hf. reflexivity.
Qed.

Lemma verifyApiToken_vs_validateApiToken_witness :
  valid (validateApiToken (mkConfig (Some (units "secret")))
           (mkRequest None (Some (units "secret")) None)) = true /\
  verifyApiToken (Some (units "secret")) (mkRequest None (Some (units "secret")) None) = false.
Proof.
  refine (proj2 (proj2 (verifyApiToken_vs_validateApiToken (units "secret") _)) None).
  discriminate.
Defined.

(* ================================================================= *)
(** ** The task list of [useTasks] *)

Lemma moveTask_ids taskId c l : map t_id (moveTask taskId c l) = map t_id l.
Proof.
  unfold moveTask. rewrite map_map. apply map_ext.
  intros task. destruct (str_eqb (t_id task) taskId); reflexivity.
Qed.

Lemma moveTask_in taskId c l task' :
  In task' (moveTask taskId c l) ->
  exists task, In task l /\ t_id task' = t_id task /\
    (t_id task = taskId -> t_columnId task' = c) /\
    (t_id task <> taskId -> task' = task).
Proof.
  unfold moveTask. intros H. apply in_map_iff in H. destruct H as [task [Ht Hin]].
  exists task. split; [exact Hin|].
  destruct (str_eqb (t_id task) taskId) eqn:E; subst task'; cbn.
  - apply str_eqb_eq in E. repeat split; congruence.
  - apply str_eqb_neq in E. repeat split; congruence.
Qed.

(** X18: [moveTask] keeps the tasks, their ids and their order; the task
    with the given id ends in the new column whatever column it was in, and
    every other task is left as it was.  It is [updateTask] with only
    [columnId] set.  Listing any other column afterwards never shows the
    moved task; moving twice is moving to the last column; and an id that
    no task has changes nothing. *)
Theorem moveTask_effect (taskId c : jsstring) (l : list Task) :
  map t_id (moveTask taskId c l) = map t_id l /\
  moveTask taskId c l = updateTask taskId (mkTaskUpdates None None None (Some c)) l /\
  (forall task', In task' (moveTask taskId c l) ->
     exists task, In task l /\ t_id task' = t_id task /\
       (t_id task = taskId -> t_columnId task' = c) /\
       (t_id task <> taskId -> task' = task)) /\
  (forall c' task', c' <> c -> In task' (getTasksByColumn c' (moveTask taskId c l)) ->
     t_id task' <> taskId) /\
  (forall c1, moveTask taskId c (moveTask taskId c1 l) = moveTask taskId c l) /\
  (~ In taskId (map t_id l) -> moveTask taskId c l = l).
Proof.
  split; [apply moveTask_ids|]. split; [reflexivity|]. split; [apply moveTask_in|].
  split; [|split].
  - intros c' task' Hc Hin Hid. unfold getTasksByColumn in Hin. apply filter_In in Hin.
    destruct Hin as [Hin Hcol]. apply str_eqb_eq in Hcol.
    apply moveTask_in in Hin. destruct Hin as (task & _ & Hi & Hm & _).
    apply Hc. rewrite <- Hcol. apply Hm. congruence.
  - intros c1. unfold moveTask. rewrite map_map. apply map_ext. intros task.
    destruct (str_eqb (t_id task) taskId) eqn:E; cbn [t_id]; rewrite E; reflexivity.
  - intros Hn. unfold moveTask. rewrite <- (map_id l) at 2. apply map_ext_in.
    intros task Hin. destruct (str_eqb (t_id task) taskId) eqn:E; [|reflexivity].
    apply str_eqb_eq in E. exfalso. apply Hn. rewrite <- E. apply in_map. exact Hin.
Qed.

Lemma moveTask_effect_witness :
  moveTask (units "t9") (units "done")
    [mkTask (units "t1") (units "Write") None (units "high") (units "backlog") 0] =
  [mkTask (units "t1") (units "Write") None (units "high") (units "backlog") 0].
Proof.
  apply (proj2 (proj2 (proj2 (proj2 (proj2 (moveTask_effect (units "t9") (units "done")
    [mkTask (units "t1") (units "Write") None (units "high") (units "backlog") 0])))))).
  cbn. intros [H|[]]. discriminate H.
Defined.

Lemma deleteTask_none id l : ~ In id (map t_id l) -> deleteTask id l = l.
Proof.
  intros Hn. unfold deleteTask. induction l as [|task l IH]; [reflexivity|].
  cbn [filter].
  assert (E : str_eqb (t_id task) id = false)
    by (apply str_eqb_neq; intros H; apply Hn; left; exact H).
  rewrite E. cbn [negb]. rewrite IH; [reflexivity|].
  intros H. apply Hn. right. exact H.
Qed.

(** X19: [addTask] appends one task, with the given id, an absent
    description when the given one is empty, and the given column, so the
    listing of that column gains it at the end and the other listings
    are unchanged.  When the id is new, [deleteTask] of it undoes the
    addition.  [deleteTask] removes every task of the id, keeps the others
    in order, and doing it again changes nothing. *)
Theorem addTask_deleteTask (uuid : jsstring) (t : Z)
    (title description priority columnId : jsstring) (prev : list Task) :
  let added := addTask uuid t title description priority columnId prev in
  snd added = prev ++ [fst added] /\
  t_id (fst added) = uuid /\
  (t_description (fst added) = None <-> description = []) /\
  (forall c, getTasksByColumn c (snd added) =
             getTasksByColumn c prev ++ (if str_eqb columnId c then [fst added] else [])) /\
  (~ In uuid (map t_id prev) -> deleteTask uuid (snd added) = prev) /\
  (forall id, ~ In id (map t_id (deleteTask id prev)) /\
              deleteTask id (deleteTask id prev) = deleteTask id prev /\
              forall task, t_id task <> id ->
                (In task (deleteTask id prev) <-> In task prev)).
Proof.
  cbv zeta. unfold addTask. cbn [fst snd t_id t_description].
  split; [reflexivity|]. split; [reflexivity|]. split; [|split; [|split]].
  - unfold or_undefined. destruct description; cbn; split; congruence.
  - intros c. unfold getTasksByColumn. rewrite filter_app. reflexivity.
  - intros Hn. unfold deleteTask. rewrite filter_app. cbn [filter t_id].
    rewrite str_eqb_refl. cbn [negb]. rewrite app_nil_r. apply deleteTask_none, Hn.
  - intros id. split; [|split].
    + intros H. apply in_map_iff in H. destruct H as [task [Hid Hin]].
      apply filter_In in Hin. destruct Hin as [_ Hk].
      apply negb_true_iff, str_eqb_neq in Hk. contradiction.
    + unfold deleteTask. apply filter_filter_same.
    + intros task Hid. unfold deleteTask. rewrite filter_In.
      assert (E : str_eqb (t_id task) id = false) by (apply str_eqb_neq; exact Hid).
      rewrite E. cbn. tauto.
Qed.

Lemma addTask_deleteTask_witness :
  deleteTask (units "t2")
    (snd (addTask (units "t2") 5 (units "Ship") [] (units "low") (units "todo")
            [mkTask (units "t1") (units "Write") None (units "high") (units "backlog") 0])) =
  [mkTask (units "t1") (units "Write") None (units "high") (units "backlog") 0].
Proof.
  apply (proj1 (proj2 (proj2 (proj2 (proj2 (addTask_deleteTask (units "t2") 5 (units "Ship") []
    (units "low") (units "todo")
    [mkTask (units "t1") (units "Write") None (units "high") (units "backlog") 0])))))).
  cbn. intros [H|[]]. discriminate H.
Defined.

(* ================================================================= *)
(** ** The epics routes *)

Lemma maxPosition_fold l acc :
  acc <= fold_left (fun max e => Z.max max (ep_position e)) l acc /\
  forall x, In x l ->
    ep_position x <= fold_left (fun max e => Z.max max (ep_position e)) l acc.
Proof.
  revert acc. induction l as [|y l IH]; intros acc; cbn [fold_left].
  - split; [lia | intros x []].
  - destruct (IH (Z.max acc (ep_position y))) as [H1 H2]. split; [lia|].
    intros x [<- | Hx]; [lia | apply H2, Hx].
Qed.

Lemma maxPosition_bounds l :
  -1 <= maxPosition l /\ forall x, In x l -> ep_position x <= maxPosition l.
Proof. apply maxPosition_fold. Qed.

Lemma maxPosition_attained l acc :
  fold_left (fun max e => Z.max max (ep_position e)) l acc = acc \/
  exists x, In x l /\
    fold_left (fun max e => Z.max max (ep_position e)) l acc = ep_position x.
Proof.
  revert acc. induction l as [|y l IH]; intros acc; cbn [fold_left]; [left; reflexivity|].
  destruct (IH (Z.max acc (ep_position y))) as [H | (x & Hx & H)].
  - rewrite H. destruct (Z.max_spec acc (ep_position y)) as [[_ E] | [_ E]]; rewrite E.
    + right. exists y. split; [left; reflexivity | reflexivity].
    + left. reflexivity.
  - right. exists x. split; [right; exact Hx | exact H].
Qed.

Lemma maxPosition_negative table :
  (forall x, In x table -> ep_position x < 0) -> maxPosition table + 1 = 0.
Proof.
  intros Hneg. destruct (maxPosition_bounds table) as [Hlo _].
  destruct (maxPosition_attained table (-1)) as [H | (x & Hx & H)]; fold (maxPosition table) in H.
  - lia.
  - specialize (Hneg x Hx). lia.
Qed.

Lemma maxPosition_largest table :
  (exists x, In x table /\ 0 <= ep_position x) ->
  exists x, In x table /\ maxPosition table + 1 = ep_position x + 1.
Proof.
  intros (y & Hy & Hpos). destruct (maxPosition_bounds table) as [_ Hhi].
  specialize (Hhi y Hy).
  destruct (maxPosition_attained table (-1)) as [H | (x & Hx & H)]; fold (maxPosition table) in H.
  - lia.
  - exists x. split; [exact Hx | lia].
Qed.

Lemma epic_ltb_position a b : ep_position a < ep_position b -> epic_ltb a b = true.
Proof. intros H. unfold epic_ltb. apply Z.ltb_lt in H. rewrite H. reflexivity. Qed.

Lemma insert_epic_keeps_last x front row :
  ep_position x < ep_position row ->
  exists front', insert_epic x (front ++ [row]) = front' ++ [row].
Proof.
  intros Hlt. induction front as [|q front IH]; cbn [app insert_epic].
  - rewrite (epic_ltb_position _ _ Hlt). exists [x]. reflexivity.
  - destruct (epic_ltb x q).
    + exists (x :: q :: front). reflexivity.
    + destruct IH as [front' ->]. exists (q :: front'). reflexivity.
Qed.

Lemma order_epics_last table row :
  (forall x, In x table -> ep_position x < ep_position row) ->
  exists front, order_epics (table ++ [row]) = front ++ [row].
Proof.
  intros H. unfold order_epics. rewrite fold_right_app. cbn [fold_right].
  induction table as [|x table IH]; cbn [fold_right].
  - exists []. reflexivity.
  - destruct IH as [front ->]; [intros y Hy; apply H; right; exact Hy|].
    apply insert_epic_keeps_last, H. left. reflexivity.
Qed.

Lemma insert_epic_perm p l : Permutation (p :: l) (insert_epic p l).
Proof.
  induction l as [|q l IH]; cbn [insert_epic]; [apply Permutation_refl|].
  destruct (epic_ltb p q); [apply Permutation_refl|].
  eapply Permutation_trans; [apply perm_swap|]. apply perm_skip. exact IH.
Qed.

Lemma order_epics_perm l : Permutation l (order_epics l).
Proof.
  induction l as [|p l IH]; cbn; [constructor|].
  eapply Permutation_trans; [apply perm_skip; exact IH|]. apply insert_epic_perm.
Qed.

Lemma epic_leb_of_ltb a b : epic_ltb a b = true -> epic_leb a b = true.
Proof.
  unfold epic_leb, epic_ltb. intros H. apply negb_true_iff.
  apply orb_true_iff in H. apply orb_false_iff.
  destruct H as [H | H].
  - apply Z.ltb_lt in H. split; [apply Z.ltb_ge; lia|].
    apply andb_false_iff. left. apply Z.eqb_neq. lia.
  - apply andb_true_iff in H. destruct H as [H1 H2].
    apply Z.eqb_eq in H1. apply Z.ltb_lt in H2. split; [apply Z.ltb_ge; lia|].
    apply andb_false_iff. right. apply Z.ltb_ge. lia.
Qed.

Lemma epics_ascending_cons a l :
  epics_ascending (a :: l) = true <->
  (match l with [] => True | b :: _ => epic_leb a b = true end) /\ epics_ascending l = true.
Proof.
  destruct l as [|b l]; cbn [epics_ascending]; [tauto|].
  rewrite andb_true_iff. tauto.
Qed.

Lemma insert_epic_ascending p l :
  epics_ascending l = true -> epics_ascending (insert_epic p l) = true.
Proof.
  induction l as [|q l IH]; [reflexivity|].
  intros H. cbn [insert_epic]. destruct (epic_ltb p q) eqn:E.
  - apply epics_ascending_cons. split; [apply epic_leb_of_ltb, E | exact H].
  - apply epics_ascending_cons in H. destruct H as [Hh Ht].
    apply epics_ascending_cons. split; [|apply IH, Ht].
    assert (Hqp : epic_leb q p = true) by (unfold epic_leb; rewrite E; reflexivity).
    destruct l as [|r l]; cbn [insert_epic]; [exact Hqp|].
    destruct (epic_ltb p r); [exact Hqp | exact Hh].
Qed.

Lemma order_epics_ascending l : epics_ascending (order_epics l) = true.
Proof.
  induction l as [|p l IH]; [reflexivity|]. cbn. apply insert_epic_ascending, IH.
Qed.

Lemma board_call_run {A} (r : Outcome A) d fl j :
  board_call r (mkWorld d fl j) =
  match fl with
  | true :: rest => (Thrown StoreFault, mkWorld d rest j)
  | _ => (r, mkWorld d (tl fl) j)
  end.
Proof. unfold board_call, store_call. destruct fl as [|[|] rest]; reflexivity. Qed.

Lemma validateRequest_outcomes cfg request e d fl j :
  exists fl',
    snd (validateRequest cfg request e (mkWorld d fl j)) = mkWorld d fl' j /\
    (quiet fl -> quiet fl') /\
    (fst (validateRequest cfg request e (mkWorld d fl j)) = Thrown StoreFault \/
     exists v, fst (validateRequest cfg request e (mkWorld d fl j)) = Returned v /\
       (valid v = true \/
        valid v = false /\
        v_error v = Some (json (ErrorBody
          (Some "Unauthorized - Please provide a valid API token or login"%string)) 401))).
Proof.
  rewrite validateRequest_run.
  destruct (valid (validateApiToken cfg request)).
  { exists fl. split; [reflexivity|]. split; [tauto|]. right. eexists. split; [reflexivity|].
    left. reflexivity. }
  destruct (falsy j).
  { exists fl. split; [reflexivity|]. split; [tauto|]. right. eexists. split; [reflexivity|].
    right. split; reflexivity. }
  destruct fl as [|[|] rest]; cbn [tl].
  2:{ exists rest. split; [reflexivity|]. split; [apply (quiet_tl (true :: rest))|].
      left. reflexivity. }
  all: destruct (is_authenticated (current_session d j (now e)));
    eexists; (split; [reflexivity|]);
    (split; [first [exact (fun H => H) | apply (quiet_tl (false :: rest))]|]);
    right; eexists; (split; [reflexivity|]);
    first [left; reflexivity | right; split; reflexivity].
Qed.

(** X20: the epic-creation route never changes the passcode and session
    tables.  When it answers 201, the epics table has gained exactly one
    row at its end: it has the generated id and the name of the body (not
    empty).  Its position is one more than the largest of -1 and the
    positions present: 0 when the table is empty or every position is
    negative, and otherwise one more than the largest position present.
    Either way it is not negative and is above every other row's, so the
    row comes last in the order in which GET lists the epics.  With any
    other answer the epics table is as it was. *)
Theorem epics_POST_appends (cfg : Config) (request : Request) (e : Env) (id : jsstring)
    (parsed : option EpicInput) (table : list Epic)
    (d : Db) (fl : list bool) (j : option jsstring) :
  db (snd (epics_POST cfg request e id parsed table (mkWorld d fl j))) = d /\
  forall a table',
    fst (epics_POST cfg request e id parsed table (mkWorld d fl j)) = Returned (a, table') ->
    (forall body, a = Answered 201 body ->
       exists row name,
         body = EpicRow row /\ table' = table ++ [row] /\
         ep_id row = id /\ ~ In id (map ep_id table) /\
         (exists b, parsed = Some b /\ in_name b = Some name) /\
         ep_name row = name /\ name <> [] /\
         ep_position row = maxPosition table + 1 /\
         ((forall x, In x table -> ep_position x < 0) -> ep_position row = 0) /\
         ((exists x, In x table /\ 0 <= ep_position x) ->
          exists x, In x table /\ ep_position row = ep_position x + 1) /\
         0 <= ep_position row <= 2147483647 /\
         (forall x, In x table -> ep_position x < ep_position row) /\
         exists front, order_epics table' = front ++ [row]) /\
    ((forall body, a <> Answered 201 body) -> table' = table).
Proof.
  unfold epics_POST, bind.
  destruct (validateRequest_outcomes cfg request e d fl j) as (fl1 & Hw & _ & Hv).
  destruct (validateRequest cfg request e (mkWorld d fl j)) as [o w1].
  cbn [fst snd] in Hw, Hv. subst w1.
  destruct Hv as [-> | (v & -> & Hv)].
  { cbn. split; [reflexivity|]. intros a table' H. discriminate H. }
  destruct Hv as [Hv | [Hv _]]; rewrite Hv; cbn [negb].
  2:{ cbn. split; [reflexivity|]. intros a table' H. inversion H; subst.
      split; [intros body Hb; discriminate Hb | reflexivity]. }
  unfold try_catch, bind.
  destruct parsed as [b|]; cbn [request_json].
  2:{ cbn. split; [reflexivity|]. intros a table' H. inversion H; subst.
      split; [intros body Hb; discriminate Hb | reflexivity]. }
  unfold ret. cbv beta iota.
  destruct (falsy (in_name b)) eqn:Hn.
  { cbn. split; [reflexivity|]. intros a table' H. inversion H; subst.
    split; [intros body Hb; discriminate Hb | reflexivity]. }
  rewrite board_call_run. destruct fl1 as [|[|] fl2]; cbn [tl].
  2:{ cbn. split; [reflexivity|]. intros a table' H. inversion H; subst.
      split; [intros body Hb; discriminate Hb | reflexivity]. }
  all: rewrite board_call_run.
  all: match goal with
       | |- context [match ?l with [] => _ | _ => _ end] =>
           match l with
           | tl ?l' => destruct l' as [|[|] ?]; cbn [tl]
           | _ => destruct l as [|[|] ?]
           end
       | _ => idtac
       end.
  all: try (cbn; split; [reflexivity|]; intros a table' H; inversion H; subst;
            split; [intros body Hb; discriminate Hb | reflexivity]).
  all: unfold insert_epic_row; cbn [ep_id ep_position].
  all: destruct (existsb (fun x => str_eqb (ep_id x) id) table) eqn:Eid;
    [cbn; split; [reflexivity|]; intros a table' H; inversion H; subst;
     split; [intros body Hb; discriminate Hb | reflexivity]|].
  all: destruct ((maxPosition table + 1 <? -2147483648) || (2147483647 <? maxPosition table + 1))
         eqn:Er;
    [cbn; split; [reflexivity|]; intros a table' H; inversion H; subst;
     split; [intros body Hb; discriminate Hb | reflexivity]|].
  all: cbn [fst snd db ret]; split; [reflexivity|]; intros a table' H; inversion H; subst;
    (split; [|intros Hno; exfalso; exact (Hno _ eq_refl)]);
    intros body Hb; inversion Hb; subst;
    destruct (falsy_some _ Hn) as [name [Hname Hne]];
    apply orb_false_iff in Er; destruct Er as [Er1 Er2];
    apply Z.ltb_ge in Er1; apply Z.ltb_ge in Er2;
    destruct (maxPosition_bounds table) as [Hlo Hhi];
    eexists; exists name; (split; [reflexivity|]); (split; [reflexivity|]);
    cbn [ep_id ep_name ep_position];
    (split; [reflexivity|]);
    (split; [exact (existsb_false_notin ep_id _ _ Eid)|]);
    (split; [exists b; split; [reflexivity | exact Hname]|]);
    (split; [rewrite Hname; reflexivity|]);
    (split; [exact Hne|]);
    (split; [reflexivity|]);
    (split; [apply maxPosition_negative|]);
    (split; [apply maxPosition_largest|]);
    (split; [lia|]);
    (split; [intros x Hx; specialize (Hhi x Hx); lia|]);
    apply order_epics_last; cbn [ep_position]; intros x Hx; specialize (Hhi x Hx); lia.
Qed.

Lemma epics_POST_appends_witness :
  exists row,
    [mkEpic (units "e0") (units "Old") (units "#000000") (-5) 0;
     mkEpic (units "e1") (units "Launch") (units "#3b82f6") 0 1700000000000] =
    [mkEpic (units "e0") (units "Old") (units "#000000") (-5) 0] ++ [row] /\
    ep_position row = 0.
Proof.
  assert (Hrun : fst (epics_POST (mkConfig None) (mkRequest None None None) sample_env
                        (units "e1") (Some (mkEpicInput (Some (units "Launch")) None))
                        [mkEpic (units "e0") (units "Old") (units "#000000") (-5) 0]
                        (mkWorld empty_db [] None)) =
                 Returned (Answered 201
                             (EpicRow (mkEpic (units "e1") (units "Launch") (units "#3b82f6") 0
                                         1700000000000)),
                           [mkEpic (units "e0") (units "Old") (units "#000000") (-5) 0;
                            mkEpic (units "e1") (units "Launch") (units "#3b82f6") 0
                              1700000000000]))
    by (vm_compute; reflexivity).
  destruct (proj2 (epics_POST_appends (mkConfig None) (mkRequest None None None) sample_env
    (units "e1") (Some (mkEpicInput (Some (units "Launch")) None))
    [mkEpic (units "e0") (units "Old") (units "#000000") (-5) 0] empty_db [] None)
    _ _ Hrun) as [H _].
  destruct (H _ eq_refl) as (row & name & _ & Ht & _ & _ & _ & _ & _ & _ & Hz & _).
  exists row. split; [exact Ht|]. apply Hz.
  intros x [<- | []]. cbn. lia.
Defined.

(** X21: the epic-listing route changes nothing.  When the request passes
    [validateRequest] and the store answers, it answers 200 with every row
    of the table exactly once, in ascending order of position and, among
    equal positions, of creation time.  A request that does not pass gets
    the 401 of [validateRequest] without the table being read. *)
Theorem epics_GET_ordered (cfg : Config) (request : Request) (e : Env) (table : list Epic)
    (d : Db) (fl : list bool) (j : option jsstring) :
  db (snd (epics_GET cfg request e table (mkWorld d fl j))) = d /\
  (quiet fl ->
   (valid (validateApiToken cfg request) = true \/
    exists s p, live_session d j (now e) s p) ->
   exists rows,
     fst (epics_GET cfg request e table (mkWorld d fl j)) =
       Returned (Answered 200 (EpicRows rows)) /\
     Permutation table rows /\ epics_ascending rows = true) /\
  (quiet fl ->
   valid (validateApiToken cfg request) = false ->
   (~ exists s p, live_session d j (now e) s p) ->
   fst (epics_GET cfg request e table (mkWorld d fl j)) =
     Returned (Denied (Some (json (ErrorBody
       (Some "Unauthorized - Please provide a valid API token or login"%string)) 401)))).
Proof.
  unfold epics_GET, bind. rewrite validateRequest_run.
  destruct (valid (validateApiToken cfg request)) eqn:Ev.
  { cbn [valid negb]. unfold try_catch, bind. rewrite board_call_run.
    split; [destruct fl as [|[|] ?]; reflexivity|]. split; [|discriminate].
    intros Hq _. destruct fl as [|[|] rest];
      [| specialize (Hq true (or_introl eq_refl)); discriminate |];
      (exists (order_epics table); split; [reflexivity|];
       split; [apply order_epics_perm | apply order_epics_ascending]). }
  destruct (falsy j) eqn:Hf.
  { cbn. split; [reflexivity|]. split; [|reflexivity].
    intros _ [H | (s & p & token & Hj & Hne & _)]; [discriminate H|].
    assert (falsy j = false) by (apply falsy_false; exists token; auto). congruence. }
  destruct fl as [|[|] rest]; cbn [tl].
  2:{ cbn. split; [reflexivity|].
      split; intros Hq; specialize (Hq true (or_introl eq_refl)); discriminate. }
  all: destruct (is_authenticated (current_session d j (now e))) eqn:Ec; cbn [valid negb].
  all: try (cbn; split; [reflexivity|]; split; [|reflexivity];
            intros _ [H | H]; [discriminate H|];
            apply is_authenticated_current in H; congruence).
  all: unfold try_catch, bind; rewrite board_call_run.
  - split; [reflexivity|]. split.
    + intros _ _. exists (order_epics table). split; [reflexivity|].
      split; [apply order_epics_perm | apply order_epics_ascending].
    + intros _ _ Hno. exfalso. apply Hno. apply is_authenticated_current, Ec.
  - split; [destruct rest as [|[|] ?]; reflexivity|]. split.
    + intros Hq _. destruct rest as [|[|] rest'];
        [| specialize (Hq true (or_intror (or_introl eq_refl))); discriminate |];
        (exists (order_epics table); split; [reflexivity|];
         split; [apply order_epics_perm | apply order_epics_ascending]).
    + intros _ _ Hno. exfalso. apply Hno. apply is_authenticated_current, Ec.
Qed.

Lemma epics_GET_ordered_witness :
  exists rows,
    fst (epics_GET (mkConfig None) (mkRequest None None None) sample_env
           [mkEpic (units "e2") (units "B") (units "#fff") 1 0;
            mkEpic (units "e1") (units "A") (units "#000") 0 0]
           (mkWorld empty_db [] None)) = Returned (Answered 200 (EpicRows rows)) /\
    epics_ascending rows = true.
Proof.
  destruct (proj1 (proj2 (epics_GET_ordered (mkConfig None) (mkRequest None None None)
    sample_env
    [mkEpic (units "e2") (units "B") (units "#fff") 1 0;
     mkEpic (units "e1") (units "A") (units "#000") 0 0] empty_db [] None))
    quiet_nil (or_introl eq_refl)) as (rows & Hr & _ & Ha).
  exists rows. split; [exact Hr | exact Ha].
Defined.

(* ================================================================= *)
(** ** The comment-deletion route *)

Lemma filter_none_all {A} (p : A -> bool) l :
  filter p l = [] -> filter (fun a => negb (p a)) l = l.
Proof.
  induction l as [|a l IH]; [reflexivity|]. cbn [filter].
  destruct (p a); [discriminate|]. intros H. cbn [negb]. rewrite IH by exact H. reflexivity.
Qed.

Lemma filter_negb_none {A} (p : A -> bool) l :
  filter p (filter (fun a => negb (p a)) l) = [].
Proof.
  induction l as [|a l IH]; [reflexivity|]. cbn [filter].
  destruct (p a) eqn:E; cbn [negb]; [exact IH|]. cbn [filter]. rewrite E. exact IH.
Qed.

Lemma comments_DELETE_token cfg request e id u table d fl j :
  valid (validateApiToken cfg request) = true -> quiet fl -> uuid_in id = Some u ->
  comments_DELETE cfg request e id table (mkWorld d fl j) =
  (Returned
     (match filter (fun c => str_eqb (cm_id c) u) table with
      | [] => Answered 404 (CommentsError "Comment not found")
      | _ :: _ => Answered 200 CommentDeleted
      end,
      filter (fun c => negb (str_eqb (cm_id c) u)) table),
   mkWorld d (tl fl) j).
Proof.
  intros Hv Hq Hu. unfold comments_DELETE, bind. rewrite validateRequest_run, Hv.
  cbn [valid negb]. unfold try_catch, bind, delete_comments_by_id.
  rewrite board_call_run, Hu.
  destruct fl as [|[|] rest]; [| specialize (Hq true (or_introl eq_refl)); discriminate |];
    cbn [tl]; destruct (filter (fun c => str_eqb (cm_id c) u) table); reflexivity.
Qed.

(** X22: the comment-deletion route never changes the passcode and session
    tables.  When it answers 200, the id of the path stood for a uuid, a
    comment with that uuid existed, and afterwards none has it while every
    other comment is kept, in order; with any other answer the comments are
    as they were.  For a request carrying the API token, with the store
    answering: an id that the store reads as a uuid, in whatever spelling,
    gets 200 when a comment has that uuid and 404 'Comment not found' when
    none has, so deleting it again, under any spelling, gets 404; an id the
    store does not read as a uuid gets 500. *)
Theorem comments_DELETE_effect (cfg : Config)
    (request : Request) (e : Env) (id : jsstring) (table : list Comment)
    (d : Db) (fl : list bool) (j : option jsstring) :
  db (snd (comments_DELETE cfg request e id table (mkWorld d fl j))) = d /\
  (forall a table',
     fst (comments_DELETE cfg request e id table (mkWorld d fl j)) =
       Returned (a, table') ->
     (forall body, a = Answered 200 body ->
        exists u, uuid_in id = Some u /\
          (exists c, In c table /\ cm_id c = u) /\
          table' = filter (fun c => negb (str_eqb (cm_id c) u)) table /\
          ~ In u (map cm_id table')) /\
     ((forall body, a <> Answered 200 body) -> table' = table)) /\
  (valid (validateApiToken cfg request) = true -> quiet fl ->
     (forall u, uuid_in id = Some u ->
      forall a table',
        fst (comments_DELETE cfg request e id table (mkWorld d fl j)) =
          Returned (a, table') ->
        ((exists c, In c table /\ cm_id c = u) -> a = Answered 200 CommentDeleted) /\
        ((~ exists c, In c table /\ cm_id c = u) ->
           a = Answered 404 (CommentsError "Comment not found")) /\
        forall e' id' fl' j', uuid_in id' = Some u -> quiet fl' ->
          fst (comments_DELETE cfg request e' id' table' (mkWorld d fl' j')) =
          Returned (Answered 404 (CommentsError "Comment not found"), table')) /\
     (uuid_in id = None ->
      fst (comments_DELETE cfg request e id table (mkWorld d fl j)) =
      Returned (Answered 500 (CommentsError "Failed to delete comment"), table))).
Proof.
  split; [|split].
  - unfold comments_DELETE, bind.
    destruct (validateRequest_outcomes cfg request e d fl j) as (fl1 & Hw & _ & Hv).
    destruct (validateRequest cfg request e (mkWorld d fl j)) as [o w1].
    cbn [fst snd] in Hw, Hv. subst w1.
    destruct Hv as [-> | (v & -> & Hv)]; [reflexivity|].
    destruct (valid v); cbn [negb]; [|reflexivity].
    unfold try_catch, bind, delete_comments_by_id. rewrite board_call_run.
    destruct fl1 as [|[|] ?]; try reflexivity;
      destruct (uuid_in id) as [u|]; try reflexivity;
      destruct (filter (fun c => str_eqb (cm_id c) u) table); reflexivity.
  - unfold comments_DELETE, bind.
    destruct (validateRequest_outcomes cfg request e d fl j) as (fl1 & Hw & _ & Hv).
    destruct (validateRequest cfg request e (mkWorld d fl j)) as [o w1].
    cbn [fst snd] in Hw, Hv. subst w1.
    destruct Hv as [-> | (v & -> & Hv)]; [intros a table' H; discriminate H|].
    destruct (valid v); cbn [negb].
    2:{ cbn. intros a table' H. inversion H; subst.
        split; [intros body Hb; discriminate Hb | reflexivity]. }
    unfold try_catch, bind, delete_comments_by_id. rewrite board_call_run.
    destruct fl1 as [|[|] ?]; cbn [tl];
      destruct (uuid_in id) as [u|] eqn:Hu;
      try destruct (filter (fun c => str_eqb (cm_id c) u) table) as [|c0 rest] eqn:Ef;
      cbn; intros a table' H; inversion H; subst.
    all: try (split; [intros body Hb; discriminate Hb | reflexivity]).
    all: try (split; [intros body Hb; discriminate Hb|]; intros _;
              apply filter_none_all with (p := fun c => str_eqb (cm_id c) u); exact Ef).
    all: split; [|intros Hno; exfalso; exact (Hno _ eq_refl)];
      intros body _; exists u; (split; [reflexivity|]);
      (split; [|split; [reflexivity|]]);
      [assert (Hin : In c0 (filter (fun c => str_eqb (cm_id c) u) table))
         by (rewrite Ef; left; reflexivity);
       apply filter_In in Hin; destruct Hin as [Hin Hid]; apply str_eqb_eq in Hid;
       exists c0; split; assumption
      |intros Hin; apply in_map_iff in Hin; destruct Hin as [c [Hid Hin]];
       apply filter_In in Hin; destruct Hin as [_ Hk];
       apply negb_true_iff, str_eqb_neq in Hk; contradiction].
  - intros Hv Hq. split.
    + intros u Hu a table' H.
      rewrite (comments_DELETE_token _ _ _ _ u _ _ _ _ Hv Hq Hu) in H. cbn [fst] in H.
      inversion H as [[Ha Ht]]. clear H. split; [|split].
      * intros (c & Hin & Hid).
        assert (Hc : In c (filter (fun c => str_eqb (cm_id c) u) table))
          by (apply filter_In; split; [exact Hin | apply str_eqb_eq; exact Hid]).
        destruct (filter (fun c => str_eqb (cm_id c) u) table); [contradiction | reflexivity].
      * intros Hno.
        destruct (filter (fun c => str_eqb (cm_id c) u) table) as [|c0 rest] eqn:Ef;
          [reflexivity|].
        exfalso. apply Hno.
        assert (Hin : In c0 (filter (fun c => str_eqb (cm_id c) u) table))
          by (rewrite Ef; left; reflexivity).
        apply filter_In in Hin. destruct Hin as [Hin Hid]. apply str_eqb_eq in Hid.
        exists c0. split; assumption.
      * intros e' id' fl' j' Hu' Hq'.
        rewrite (comments_DELETE_token _ _ _ _ u _ _ _ _ Hv Hq' Hu'). cbn [fst].
        rewrite (filter_negb_none (fun c => str_eqb (cm_id c) u)).
        rewrite (filter_filter_same (fun c => negb (str_eqb (cm_id c) u))). reflexivity.
    + intros Hu. unfold comments_DELETE, bind. rewrite validateRequest_run, Hv.
      cbn [valid negb]. unfold try_catch, bind, delete_comments_by_id.
      rewrite board_call_run, Hu.
      destruct fl as [|[|] rest]; [| specialize (Hq true (or_introl eq_refl)); discriminate |];
        reflexivity.
Qed.

Lemma comments_DELETE_effect_witness :
  exists a table',
    fst (comments_DELETE (mkConfig None) (mkRequest None None None) sample_env
           (units "{C0FFEE00-0000-4000-8000-000000000001}")
           [mkComment (units "c0ffee00-0000-4000-8000-000000000001") (units "t1")
              (units "hello") (units "Ann") 0]
           (mkWorld empty_db [] None)) = Returned (a, table') /\
    a = Answered 200 CommentDeleted.
Proof.
  pose proof (proj2 (proj2 (comments_DELETE_effect (mkConfig None)
    (mkRequest None None None) sample_env (units "{C0FFEE00-0000-4000-8000-000000000001}")
    [mkComment (units "c0ffee00-0000-4000-8000-000000000001") (units "t1")
       (units "hello") (units "Ann") 0]
    empty_db [] None)) eq_refl quiet_nil) as [H _].
  assert (Hrun : fst (comments_DELETE (mkConfig None) (mkRequest None None None) sample_env
                        (units "{C0FFEE00-0000-4000-8000-000000000001}")
                        [mkComment (units "c0ffee00-0000-4000-8000-000000000001") (units "t1")
                           (units "hello") (units "Ann") 0]
                        (mkWorld empty_db [] None)) =
                 Returned (Answered 200 CommentDeleted, []))
    by (vm_compute; reflexivity).
  exists (Answered 200 CommentDeleted), [].
  split; [exact Hrun|].
  apply (proj1 (H (units "c0ffee00-0000-4000-8000-000000000001") eq_refl _ [] Hrun)).
  exists (mkComment (units "c0ffee00-0000-4000-8000-000000000001") (units "t1")
            (units "hello") (units "Ann") 0).
  split; [left; reflexivity | reflexivity].
Defined.

(* ================================================================= *)
(** ** The passcode-deletion route: what it revokes *)

Lemma NoDup_map_inj {A B} (f : A -> B) (l : list A) a b :
  NoDup (map f l) -> In a l -> In b l -> f a = f b -> a = b.
Proof.
  induction l as [|x l IH]; intros Hn Ha Hb Hf; [contradiction|].
  cbn [map] in Hn. inversion Hn as [|? ? Hnotin Hn']; subst.
  destruct Ha as [-> | Ha], Hb as [-> | Hb].
  - reflexivity.
  - exfalso. apply Hnotin. rewrite Hf. apply in_map. exact Hb.
  - exfalso. apply Hnotin. rewrite <- Hf. apply in_map. exact Ha.
  - apply IH; assumption.
Qed.

Lemma passcodes_DELETE_quiet e id u d fl j :
  quiet fl -> uuid_in id = Some u ->
  is_admin_session (current_session d j (now e)) = true ->
  is_admin_row (find_passcode u d) && Nat.leb (admin_count d) 1 = false ->
  passcodes_DELETE e id (mkWorld d fl j) =
  (Returned (json SuccessBody 200),
   mkWorld
     (mkDb (filter (fun p => negb (str_eqb (pc_id p) u)) (passcodes d))
           (filter (fun s => negb (owned_by
                      (filter (fun p => str_eqb (pc_id p) u) (passcodes d)) s))
                   (sessions d)))
     (tl (tl (tl (tl fl)))) j).
Proof.
  intros Hq Hu Ha Hg. unfold passcodes_DELETE, try_catch, bind. rewrite getSession_run.
  destruct (falsy j) eqn:Hf.
  { unfold current_session in Ha. rewrite Hf in Ha. discriminate Ha. }
  destruct fl as [|[|] rest]; [| specialize (Hq true (or_introl eq_refl)); discriminate |];
    cbn [tl]; rewrite Ha; cbn [negb];
    rewrite (deletePasscode_quiet id u)
      by (cbn [faults]; first [apply quiet_nil | apply (quiet_tl (false :: rest)); exact Hq
                              | exact Hu]);
    cbn [db faults jar]; rewrite Hg; reflexivity.
Qed.

Lemma passcodes_DELETE_refused e id d fl j :
  quiet fl -> uuid_in id = None ->
  is_admin_session (current_session d j (now e)) = true ->
  passcodes_DELETE e id (mkWorld d fl j) =
  (Returned (json (ErrorBody (Some "Failed to delete passcode"%string)) 500),
   mkWorld d (tl (tl (tl fl))) j).
Proof.
  intros Hq Hu Ha. unfold passcodes_DELETE, try_catch, bind. rewrite getSession_run.
  destruct (falsy j) eqn:Hf.
  { unfold current_session in Ha. rewrite Hf in Ha. discriminate Ha. }
  destruct fl as [|[|] rest]; [| specialize (Hq true (or_introl eq_refl)); discriminate |];
    cbn [tl]; rewrite Ha; cbn [negb].
  - rewrite (proj2 (proj2 (proj2 (deletePasscode_refused id d [] j Hu))) quiet_nil).
    reflexivity.
  - rewrite (proj2 (proj2 (proj2 (deletePasscode_refused id d rest j Hu)))
               (quiet_tl (false :: rest) Hq)).
    reflexivity.
Qed.

(** X23: what deleting a passcode revokes.  When an admin's request deletes
    by an id that the store reads as a uuid, in whatever spelling (the
    store answering, the last-admin guard not applying), the route answers
    200, no row keeps that uuid, and the sessions of that passcode go with
    it: a cookie that named a live session of the deleted passcode
    authenticates nobody from then on, at any time, while every live
    session of another passcode stays live.  An admin who deletes their own
    passcode is thus logged out by it.  When no row has that uuid the
    tables are as they were.  An id that the store does not read as a uuid
    is answered 500 'Failed to delete passcode' and nothing is deleted.
    (Session tokens are pairwise distinct, as they are in every reachable
    state.) *)
Theorem passcodes_DELETE_revokes (e : Env) (id : jsstring) (d : Db) (fl : list bool)
    (j : option jsstring) :
  quiet fl ->
  NoDup (map ss_token (sessions d)) ->
  is_admin_session (current_session d j (now e)) = true ->
  (forall u, uuid_in id = Some u ->
     is_admin_row (find_passcode u d) && Nat.leb (admin_count d) 1 = false ->
     fst (passcodes_DELETE e id (mkWorld d fl j)) = Returned (json SuccessBody 200) /\
     (forall q, In q (passcodes (db (snd (passcodes_DELETE e id (mkWorld d fl j))))) <->
                In q (passcodes d) /\ pc_id q <> u) /\
     (forall j' t s p, live_session d j' t s p -> pc_id p = u ->
        forall t',
          current_session (db (snd (passcodes_DELETE e id (mkWorld d fl j)))) j' t' = None) /\
     (forall j' t s p, live_session d j' t s p -> pc_id p <> u ->
        live_session (db (snd (passcodes_DELETE e id (mkWorld d fl j)))) j' t s p) /\
     (find_passcode u d = None ->
        db (snd (passcodes_DELETE e id (mkWorld d fl j))) = d)) /\
  (uuid_in id = None ->
     fst (passcodes_DELETE e id (mkWorld d fl j)) =
       Returned (json (ErrorBody (Some "Failed to delete passcode"%string)) 500) /\
     db (snd (passcodes_DELETE e id (mkWorld d fl j))) = d).
Proof.
  intros Hq Hn Ha. split.
  2:{ intros Hu. rewrite (passcodes_DELETE_refused e id d fl j Hq Hu Ha).
      split; reflexivity. }
  intros u Hu Hg. rewrite (passcodes_DELETE_quiet e id u d fl j Hq Hu Ha Hg).
  cbn [fst snd db passcodes sessions].
  split; [reflexivity|]. split; [|split; [|split]].
  - intros q. rewrite filter_In. split; intros [Hin Hk]; (split; [exact Hin|]).
    + apply negb_true_iff, str_eqb_neq in Hk. exact Hk.
    + apply negb_true_iff, str_eqb_neq. exact Hk.
  - intros j' t s p [token (Hj & Hne & Hs & Htok & Hexp & Hp & Hid)] Hpid t'.
    apply current_session_none_iff.
    intros (s' & p' & token' & Hj' & _ & Hs' & Htok' & _ & _ & _).
    cbn [sessions passcodes] in Hs'. apply filter_In in Hs'. destruct Hs' as [Hs' Hk].
    assert (Et : token' = token) by congruence. subst token'.
    assert (Es : s' = s).
    { apply (NoDup_map_inj ss_token (sessions d)); try assumption. congruence. }
    subst s'. apply negb_true_iff in Hk.
    assert (Ho : owned_by (filter (fun p => str_eqb (pc_id p) u) (passcodes d)) s = true).
    { unfold owned_by. apply existsb_exists. exists p. split.
      - apply filter_In. split; [exact Hp | apply str_eqb_eq; exact Hpid].
      - apply str_eqb_eq. exact Hid. }
    congruence.
  - intros j' t s p [token (Hj & Hne & Hs & Htok & Hexp & Hp & Hid)] Hpid.
    exists token. cbn [sessions passcodes].
    split; [exact Hj|]. split; [exact Hne|]. split; [|split; [exact Htok|]].
    2: split; [exact Hexp|]; split; [|exact Hid].
    + apply filter_In. split; [exact Hs|]. apply negb_true_iff.
      destruct (owned_by (filter (fun p => str_eqb (pc_id p) u) (passcodes d)) s) eqn:Eo;
        [|reflexivity].
      unfold owned_by in Eo. apply existsb_exists in Eo. destruct Eo as [q [Hq' Hqid]].
      apply filter_In in Hq'. destruct Hq' as [_ Hq']. apply str_eqb_eq in Hq', Hqid.
      exfalso. apply Hpid. congruence.
    + apply filter_In. split; [exact Hp|]. apply negb_true_iff, str_eqb_neq. exact Hpid.
  - intros Hnone. destruct (find_passcode_none u d Hnone) as [Hdel Hkeep].
    rewrite Hdel, Hkeep. cbn [owned_by existsb negb]. rewrite filter_all.
    destruct d; reflexivity.
Qed.

Lemma passcodes_DELETE_revokes_witness :
  fst (passcodes_DELETE sample_env (units "0A1B2C3D-0000-4000-8000-00000000000A")
         (mkWorld (mkDb [admin_row "0a1b2c3d-0000-4000-8000-00000000000a" "111111";
                         admin_row "0a1b2c3d-0000-4000-8000-00000000000b" "222222"]
                        [session_row "s1" "0a1b2c3d-0000-4000-8000-00000000000a" "tok"
                           1800000000000])
                  [] (Some (units "tok")))) =
  Returned (json SuccessBody 200).
Proof.
  assert (Hs : is_admin_session
                 (current_session
                    (mkDb [admin_row "0a1b2c3d-0000-4000-8000-00000000000a" "111111";
                           admin_row "0a1b2c3d-0000-4000-8000-00000000000b" "222222"]
                          [session_row "s1" "0a1b2c3d-0000-4000-8000-00000000000a" "tok"
                             1800000000000])
                    (Some (units "tok")) (now sample_env)) = true)
    by (vm_compute; reflexivity).
  refine (proj1 (proj1 (passcodes_DELETE_revokes sample_env
            (units "0A1B2C3D-0000-4000-8000-00000000000A")
            (mkDb [admin_row "0a1b2c3d-0000-4000-8000-00000000000a" "111111";
                   admin_row "0a1b2c3d-0000-4000-8000-00000000000b" "222222"]
                  [session_row "s1" "0a1b2c3d-0000-4000-8000-00000000000a" "tok"
                     1800000000000])
            [] (Some (units "tok")) quiet_nil _ Hs)
            (units "0a1b2c3d-0000-4000-8000-00000000000a") _ _)).
  - cbn. constructor; [intros [] | constructor].
  - vm_compute. reflexivity.
  - vm_compute. reflexivity.
Defined.

(* ================================================================= *)
(** ** No request rewrites a passcode *)

(** A request makes at most one change to the passcode rows: a predicate
    [P] of the rows holds until [createPasscode] or [deletePasscode] runs,
    and [Q] from then on. *)
Section Phases.
Variables (P Q : Db -> Prop) (e : Env).
Hypothesis P_Q : forall d, P d -> Q d.
Hypothesis pc_only_P : pc_only P.
Hypothesis pc_only_Q : pc_only Q.
Hypothesis leads_create : forall code name adm, leads P Q (createPasscode e code name adm).
Hypothesis leads_delete : forall id, leads P Q (deletePasscode id).

Lemma leads_keeps {A} (m : M A) : keeps P m -> leads P Q m.
Proof. intros H w Hw. apply P_Q, H, Hw. Qed.

Lemma leads_bind_before {A B} (m : M A) (k : A -> M B) :
  keeps P m -> (forall a, leads P Q (k a)) -> leads P Q (bind m k).
Proof.
  intros Hm Hk.
  apply (triple_bind _ m k (fun _ w' => P (db w'))); [exact Hm | exact Hk|].
  intros ex w Hw. apply P_Q, Hw.
Qed.

Lemma leads_bind_after {A B} (m : M A) (k : A -> M B) :
  leads P Q m -> (forall a, keeps Q (k a)) -> leads P Q (bind m k).
Proof.
  intros Hm Hk.
  apply (triple_bind _ m k (fun _ w' => Q (db w'))); [exact Hm | exact Hk | auto].
Qed.

Lemma leads_try_catch {A} (m : M A) (h : Exn -> M A) :
  leads P Q m -> (forall ex, keeps Q (h ex)) -> leads P Q (try_catch m h).
Proof.
  intros Hm Hh.
  apply (triple_try_catch _ m h (fun _ w' => Q (db w'))); [exact Hm | auto | exact Hh].
Qed.

Lemma leads_first_run_setup code : leads P Q (first_run_setup e code).
Proof.
  unfold first_run_setup. destruct (negb (six_digits code)); [apply leads_keeps, keeps_ret|].
  apply leads_bind_after; [apply leads_create|]. intros _.
  apply keeps_bind; [apply keeps_login, pc_only_Q | intros; apply keeps_ret].
Qed.

Lemma leads_handler c : leads P Q (handler e c).
Proof.
  destruct c; cbn [handler].
  - unfold login_POST. apply leads_try_catch; [|intros; apply keeps_ret].
    apply leads_bind_before; [apply keeps_request_json|]. intros code.
    destruct (falsy code); [apply leads_keeps, keeps_ret|].
    destruct code as [code|]; [|apply leads_keeps, keeps_ret].
    apply leads_bind_before; [apply keeps_readonly, readonly_hasAnyPasscodes|]. intros has.
    destruct (negb has); [apply leads_first_run_setup|].
    apply leads_keeps, keeps_normal_login, pc_only_P.
  - apply leads_keeps, keeps_status_GET.
  - apply leads_keeps, keeps_logout_POST, pc_only_P.
  - apply leads_keeps. unfold passcodes_GET.
    apply keeps_try_catch; [|intros; apply keeps_ret].
    apply keeps_bind; [apply keeps_readonly, readonly_getSession|]. intros session.
    destruct (negb (is_admin_session session)); [apply keeps_ret|].
    apply keeps_bind; [apply keeps_readonly, readonly_listPasscodes | intros; apply keeps_ret].
  - unfold passcodes_POST. apply leads_try_catch; [|intros; apply keeps_ret].
    apply leads_bind_before; [apply keeps_readonly, readonly_getSession|]. intros session.
    destruct (negb (is_admin_session session)); [apply leads_keeps, keeps_ret|].
    apply leads_bind_before; [apply keeps_request_json|]. intros b.
    destruct (falsy (b_code b) || falsy (b_name b)); [apply leads_keeps, keeps_ret|].
    apply leads_bind_after; [apply leads_create|]. intros result.
    destruct (negb (success result)); apply keeps_ret.
  - unfold passcodes_DELETE. apply leads_try_catch; [|intros; apply keeps_ret].
    apply leads_bind_before; [apply keeps_readonly, readonly_getSession|]. intros session.
    destruct (negb (is_admin_session session)); [apply leads_keeps, keeps_ret|].
    apply leads_bind_after; [apply leads_delete|]. intros result.
    destruct (negb (success result)); apply keeps_ret.
Qed.

Lemma leads_serve cfg request c : leads P Q (serve cfg request e c).
Proof.
  unfold serve. apply leads_bind_before; [apply keeps_readonly, readonly_middleware|].
  intros [response|]; [apply leads_keeps, keeps_ret | apply leads_handler].
Qed.

End Phases.

Lemma same_rows_in l l' p' :
  same_rows l l' -> In p' l' -> exists p, In p l /\ row_identity p = row_identity p'.
Proof.
  unfold same_rows. intros H Hin.
  assert (Hi : In (row_identity p') (map row_identity l))
    by (rewrite <- H; apply in_map; exact Hin).
  apply in_map_iff in Hi. destruct Hi as [p [Hp Hin']]. exists p. split; assumption.
Qed.

Lemma row_identity_fields p q :
  row_identity p = row_identity q ->
  pc_id p = pc_id q /\ pc_code p = pc_code q /\ pc_name p = pc_name q /\
  pc_isAdmin p = pc_isAdmin q /\ pc_createdAt p = pc_createdAt q.
Proof. unfold row_identity. intros H. inversion H. repeat split; assumption. Qed.

Lemma pc_only_rows_from d0 e : pc_only (rows_from d0 e).
Proof.
  intros d d' Hs H p' Hin.
  destruct (same_rows_in _ _ _ Hs Hin) as [p [Hp Hri]].
  destruct (row_identity_fields _ _ Hri) as (Ei & Ec & _ & _ & Et).
  destruct (H p Hp) as [(p0 & Hp0 & H0) | (Hn & Hid & Hat & code & H6 & Hc)].
  - left. exists p0. split; [exact Hp0 | congruence].
  - right. rewrite <- Ei, <- Et, <- Ec. split; [exact Hn|]. split; [exact Hid|].
    split; [exact Hat|]. exists code. split; assumption.
Qed.

Lemma pc_only_same_as d0 : pc_only (fun d => same_rows (passcodes d0) (passcodes d)).
Proof. intros d d' Hs H. unfold same_rows in *. congruence. Qed.

Lemma same_as_rows_from d0 e d :
  same_rows (passcodes d0) (passcodes d) -> rows_from d0 e d.
Proof.
  intros Hs p Hin. left. destruct (same_rows_in _ _ _ Hs Hin) as [p0 [Hp0 H0]].
  exists p0. split; assumption.
Qed.

Lemma leads_createPasscode_rows d0 e code name adm :
  leads (fun d => same_rows (passcodes d0) (passcodes d)) (rows_from d0 e)
        (createPasscode e code name adm).
Proof.
  intros [d fl j] Hs. cbn [db] in Hs.
  destruct (createPasscode_cases e code name adm d fl j)
    as [(Hd & _) | (E6 & El & Eid & fl' & Hr)].
  - rewrite Hd. apply same_as_rows_from, Hs.
  - rewrite Hr. cbn [snd db]. intros p Hin. cbn [passcodes] in Hin.
    apply in_app_or in Hin. destruct Hin as [Hin | [<- | []]].
    + left. apply (same_rows_in _ _ _ Hs Hin).
    + right. cbn [new_passcode pc_id pc_createdAt pc_code].
      split; [|split; [reflexivity | split; [reflexivity|]]].
      * rewrite <- (same_rows_ids _ _ Hs).
        exact (existsb_false_notin pc_id _ _ Eid).
      * exists code. split; [exact E6 | reflexivity].
Qed.

Lemma leads_deletePasscode_rows d0 e id :
  leads (fun d => same_rows (passcodes d0) (passcodes d)) (rows_from d0 e)
        (deletePasscode id).
Proof.
  intros w Hs. destruct (deletePasscode_db id w) as [-> | (u & _ & Hp & _)].
  - apply same_as_rows_from, Hs.
  - intros p Hin. rewrite Hp in Hin. apply filter_In in Hin. destruct Hin as [Hin _].
    left. apply (same_rows_in _ _ _ Hs Hin).
Qed.

Lemma handle_rows_from cfg request e fl c d :
  rows_from d e (snd (handle cfg request e fl c d)).
Proof.
  rewrite handle_db.
  apply (leads_serve (fun d' => same_rows (passcodes d) (passcodes d')) (rows_from d e) e
           (same_as_rows_from d e) (pc_only_same_as d) (pc_only_rows_from d e)
           (leads_createPasscode_rows d e) (leads_deletePasscode_rows d e)
           cfg request c (mkWorld d fl (cookie request))).
  cbn [db]. apply same_rows_refl.
Qed.

(** X24: no request rewrites a passcode.  After any request, every
    passcode row is a row from before with the same id, digest, name, admin
    flag and creation time (only [lastUsedAt] may differ), or a row this
    request created, under an id not present before, for a six-digit code.
    So with unique ids, a passcode that survives a request keeps its admin
    flag, name and digest: no request promotes or renames an existing
    passcode. *)
Theorem passcode_rows_immutable (cfg : Config) (request : Request) (e : Env)
    (fl : list bool) (c : Call) (d : Db) :
  rows_from d e (snd (handle cfg request e fl c d)) /\
  (unique_ids d ->
   forall p0 p, In p0 (passcodes d) ->
     In p (passcodes (snd (handle cfg request e fl c d))) ->
     pc_id p = pc_id p0 ->
     pc_isAdmin p = pc_isAdmin p0 /\ pc_name p = pc_name p0 /\ pc_code p = pc_code p0 /\
     pc_createdAt p = pc_createdAt p0).
Proof.
  split; [apply handle_rows_from|].
  intros Hu p0 p Hp0 Hp Hid.
  destruct (handle_rows_from cfg request e fl c d p Hp)
    as [(q & Hq & Hri) | (Hn & _)].
  - destruct (row_identity_fields _ _ Hri) as (Ei & Ec & En & Ea & Et).
    assert (q = p0) by (apply (unique_ids_inj d q p0 Hu Hq Hp0); congruence).
    subst q. repeat split; congruence.
  - exfalso. apply Hn. rewrite Hid. apply in_map. exact Hp0.
Qed.

Lemma passcode_rows_immutable_witness :
  pc_isAdmin (mkPasscode (units "g1") (hashCode (units "222222")) (units "Guest") false 0
                (Some 1700000000000)) =
  pc_isAdmin (guest_row "g1" "222222").
Proof.
  assert (Hp : In (mkPasscode (units "g1") (hashCode (units "222222")) (units "Guest") false 0
                     (Some 1700000000000))
                  (passcodes (snd (handle (mkConfig None) (mkRequest None None None) sample_env
                                     [] (PostLogin (Some (Some (units "222222"))))
                                     (mkDb [guest_row "g1" "222222"] [])))))
    by (vm_compute; left; reflexivity).
  exact (proj1 (proj2 (passcode_rows_immutable (mkConfig None) (mkRequest None None None)
             sample_env [] (PostLogin (Some (Some (units "222222"))))
             (mkDb [guest_row "g1" "222222"] []))
             (NoDup_cons _ (fun H : In (units "g1") [] => H) (NoDup_nil _))
             (guest_row "g1" "222222") _ (or_introl eq_refl) Hp eq_refl)).
Defined.

(* ================================================================= *)
(** ** The passcode entered in the browser *)

Lemma Array_set_length index value a :
  (index < List.length a)%nat -> List.length (Array_set index value a) = List.length a.
Proof.
  revert a. induction index as [|i IH]; intros [|x a] H; cbn in *; try lia.
  rewrite IH by lia. reflexivity.
Qed.

Lemma Array_set_Forall (Q : option jsstring -> Prop) index value a :
  (index < List.length a)%nat -> Q (Some value) -> Forall Q a ->
  Forall Q (Array_set index value a).
Proof.
  revert a. induction index as [|i IH]; intros [|x a] H Hv Ha; cbn in *; try lia;
    inversion Ha; subst; constructor; try assumption.
  apply IH; [lia | assumption | assumption].
Qed.

Lemma one_digit_box value :
  negb (falsy (Some value)) && negb (one_digit value) = false -> box_ok (Some value).
Proof.
  destruct value as [|c [|c' value]]; cbn.
  - intros _. left. reflexivity.
  - rewrite negb_false_iff. intros H. right. exists c. split; [reflexivity | exact H].
  - discriminate.
Qed.

Lemma full_boxes_digits a :
  Forall box_ok a -> Array_every_truthy a = true ->
  List.length (Array_join a) = List.length a /\ forallb is_digit (Array_join a) = true.
Proof.
  induction 1 as [|x a Hx Ha IH]; cbn [Array_every_truthy forallb]; [split; reflexivity|].
  rewrite andb_true_iff. intros [Ht Hr]. destruct (IH Hr) as [Hl Hd].
  destruct Hx as [-> | (c & -> & Hc)]; [discriminate Ht|].
  change (Array_join (Some [c] :: a)) with (c :: Array_join a).
  cbn [List.length forallb]. rewrite Hl, Hc, Hd. split; reflexivity.
Qed.

Lemma In_firstn {A} (n : nat) (l : list A) x : In x (firstn n l) -> In x l.
Proof.
  intros H. rewrite <- (firstn_skipn n l). apply in_or_app. left. exact H.
Qed.

Lemma digits_prefix_digits text : forallb is_digit (digits_prefix text) = true.
Proof.
  unfold digits_prefix. apply forallb_forall. intros c Hc.
  apply In_firstn in Hc. apply filter_In in Hc. apply Hc.
Qed.

Lemma six_digits_intro code :
  List.length code = 6%nat -> forallb is_digit code = true -> six_digits code = true.
Proof.
  intros Hl Hd. unfold six_digits, regex_digits. rewrite Hl, Hd. reflexivity.
Qed.

Lemma Array_join_split l : Array_join (map (fun c => Some [c]) l) = l.
Proof.
  induction l as [|c l IH]; [reflexivity|].
  change (c :: Array_join (map (fun c => Some [c]) l) = c :: l). rewrite IH. reflexivity.
Qed.

Lemma empty_code_ok : boxes_ok empty_code.
Proof. split; [reflexivity|]. repeat constructor. Qed.

(** X25: the code the login page submits.  Starting from six empty boxes,
    typing into one of the six boxes and pasting keep six boxes, each empty
    or holding one digit; a value that is not empty and not one digit is
    ignored.  Whenever either handler calls [handleSubmit], the code it
    passes has exactly six digits: it passes the format test of the login
    route and of [createPasscode].  A paste submits the first six digits of
    the pasted text, and only when it contains six. *)
Theorem LoginPage_submits_six_digits (code : jsarray) :
  boxes_ok empty_code /\
  (forall index value, boxes_ok code -> (index < 6)%nat ->
     boxes_ok (fst (handleInput index value code)) /\
     (forall c, snd (handleInput index value code) = Some c -> six_digits c = true) /\
     (one_digit value = false -> value <> [] ->
      handleInput index value code = (code, None))) /\
  (forall text,
     (boxes_ok code -> boxes_ok (fst (handlePaste text code))) /\
     (forall c, snd (handlePaste text code) = Some c ->
        six_digits c = true /\ c = firstn 6 (filter is_digit text) /\
        Array_join (fst (handlePaste text code)) = c) /\
     ((List.length (filter is_digit text) < 6)%nat ->
      handlePaste text code = (code, None))).
Proof.
  split; [apply empty_code_ok|]. split.
  - intros index value [Hl Hf] Hi. unfold handleInput.
    destruct (negb (falsy (Some value)) && negb (one_digit value)) eqn:Eg; cbn [fst snd].
    { split; [split; assumption|]. split; [discriminate|]. reflexivity. }
    assert (Hok : boxes_ok (Array_set index value code)).
    { split; [rewrite Array_set_length; lia|].
      apply Array_set_Forall; [lia | apply one_digit_box, Eg | exact Hf]. }
    split; [exact Hok|]. split.
    + intros c Hc.
      destruct (negb (falsy (Some value)) && Nat.eqb index 5
                && Array_every_truthy (Array_set index value code)) eqn:Es; [|discriminate Hc].
      inversion Hc; subst c. apply andb_true_iff in Es. destruct Es as [_ Ee].
      destruct Hok as [Hl' Hf']. destruct (full_boxes_digits _ Hf' Ee) as [Hjl Hjd].
      apply six_digits_intro; [lia | exact Hjd].
    + intros Hd Hne. exfalso. rewrite Hd in Eg. destruct value; [contradiction | discriminate Eg].
  - intros text. unfold handlePaste. cbv zeta.
    destruct (Nat.eqb (List.length (digits_prefix text)) 6) eqn:El; cbn [fst snd].
    + apply Nat.eqb_eq in El. split; [|split].
      * intros _. split; [rewrite length_map; exact El|].
        apply Forall_forall. intros x Hx. apply in_map_iff in Hx.
        destruct Hx as [c [<- Hc]]. right. exists c. split; [reflexivity|].
        pose proof (digits_prefix_digits text) as Hd.
        rewrite forallb_forall in Hd. apply Hd, Hc.
      * intros c Hc. inversion Hc; subst c.
        split; [apply six_digits_intro; [exact El | apply digits_prefix_digits]|].
        split; [reflexivity|].
        apply Array_join_split.
      * intros Hlt. exfalso. unfold digits_prefix in El.
        rewrite length_firstn in El. lia.
    + split; [tauto|]. split; [discriminate | reflexivity].
Qed.

Lemma LoginPage_submits_six_digits_witness :
  boxes_ok (fst (handleInput 0 (units "7") empty_code)).
Proof.
  apply (proj1 (proj1 (proj2 (LoginPage_submits_six_digits empty_code)) 0%nat (units "7")
           empty_code_ok (Nat.lt_0_succ 5))).
Defined.

(** X26: the code field of the admin panel.  Whatever is typed or pasted
    into it, the field holds at most six characters, all digits; and when
    the Create button is enabled the code has exactly six digits and the
    name is not empty, so the request passes the 'Code and name are
    required' test of the route and the format test of [createPasscode]. *)
Theorem AdminPanel_code_field (value newName : jsstring) (creating : bool) :
  (List.length (digits_prefix value) <= 6)%nat /\
  forallb is_digit (digits_prefix value) = true /\
  digits_prefix (digits_prefix value) = digits_prefix value /\
  (create_disabled creating (digits_prefix value) newName = false ->
   six_digits (digits_prefix value) = true /\
   falsy (Some (digits_prefix value)) || falsy (Some newName) = false /\
   creating = false).
Proof.
  split; [unfold digits_prefix; rewrite length_firstn; lia|].
  split; [apply digits_prefix_digits|]. split.
  - unfold digits_prefix.
    assert (H : forall l, forallb is_digit l = true -> filter is_digit l = l).
    { induction l as [|c l IH]; [reflexivity|]. cbn. intros H.
      apply andb_true_iff in H. destruct H as [Hc Hl]. rewrite Hc, IH by exact Hl.
      reflexivity. }
    rewrite H by apply digits_prefix_digits.
    rewrite firstn_firstn. reflexivity.
  - unfold create_disabled. intros H.
    apply orb_false_iff in H. destruct H as [H Hn].
    apply orb_false_iff in H. destruct H as [Hc Hl].
    apply negb_false_iff, Nat.eqb_eq in Hl.
    assert (H6 : six_digits (digits_prefix value) = true)
      by (apply six_digits_intro; [exact Hl | apply digits_prefix_digits]).
    split; [exact H6|]. split; [|exact Hc].
    rewrite (six_digits_nonempty _ H6), Hn. reflexivity.
Qed.

Lemma AdminPanel_code_field_witness :
  six_digits (digits_prefix (units "12-34-56-78")) = true.
Proof.
  apply (proj2 (proj2 (proj2 (AdminPanel_code_field (units "12-34-56-78") (units "Bob")
           false)))).
  reflexivity.
Defined.

